(** * sxs.waveforms.alignment: time and time-and-phase alignment of waveforms

    A shallow embedding of [align1d] and [align2d] from
    [sxs/waveforms/alignment.py], with the numpy and scipy routines they call.
    Floating-point numbers are idealised as real numbers (there is no
    rounding and no not-a-number), except in [Float64], which takes the
    shift bounds and the evaluation times of align1d over binary64 numbers.
    Complex numbers are pairs of reals, numpy arrays are lists (a
    two-dimensional array is the list of its rows), and Python objects are
    locations of a store.  The interpolant and the solver of scipy are
    parameters; what is assumed of them is stated as [ScipyLaws] and used only
    where a statement says so. *)

From Stdlib Require Import Reals Lra Lia ZArith Psatz FunctionalExtensionality.
From Stdlib Require PrimFloat.
From stdpp Require Import base option list strings pretty gmap.

Open Scope R_scope.

(** ** Complex numbers (numpy's complex128, idealised) *)

Module Cx.

Definition C : Type := (R * R)%type.

Definition zero : C := (0, 0).
Definition one : C := (1, 0).
(** Python's [1j]. *)
Definition j : C := (0, 1).
Definition of_real (x : R) : C := (x, 0).

Definition sub (z w : C) : C := (fst z - fst w, snd z - snd w).
Definition mul (z w : C) : C :=
  (fst z * fst w - snd z * snd w, fst z * snd w + snd z * fst w).
Definition inv (z : C) : C :=
  let d := fst z * fst z + snd z * snd z in (fst z / d, - snd z / d).

(** [abs(z)] *)
Definition abs (z : C) : R := sqrt (fst z * fst z + snd z * snd z).

(** [np.exp(z)] *)
Definition exp (z : C) : C := (Rtrigo_def.exp (fst z) * cos (snd z), Rtrigo_def.exp (fst z) * sin (snd z)).

Fixpoint pow_nat (z : C) (n : nat) : C :=
  match n with
  | O => one
  | S n' => mul z (pow_nat z n')
  end.

(** [z ** m] for an integer exponent [m]. *)
Definition pow (z : C) (m : Z) : C :=
  match m with
  | Z0 => one
  | Zpos p => pow_nat z (Pos.to_nat p)
  | Zneg p => inv (pow_nat z (Pos.to_nat p))
  end.

End Cx.

Abbreviation C := Cx.C.

(** ** Exceptions *)

Inductive waveform_name := Wa | Wb.

(** The messages of the [ValueError]s that can be raised: the three of the
    window validation (lines 81-86 and 198-203), numpy's on operands that
    cannot be broadcast together, and numpy's on the argmin of an empty
    sequence. *)
Inductive value_error :=
| OutOfOrder (t1 t2 : R)
| NotContained (w : waveform_name) (t1 t2 first last : R)
| CannotBroadcast
| EmptyArgmin.

(** [NoObject] stands for the use of a location that holds no object; no
    Python program can do that, the store of the model can express it. *)
Inductive exn :=
| ValueError (msg : value_error)
| IndexError
| NoObject.

(** The spec's [InvalidWindow]: the errors raised by the window validation. *)
Definition InvalidWindow (e : exn) : Prop :=
  match e with
  | ValueError (OutOfOrder _ _) | ValueError (NotContained _ _ _ _ _) => True
  | _ => False
  end.

Inductive result (A : Type) :=
| Ok (a : A)
| Err (e : exn).
Arguments Ok {A} a.
Arguments Err {A} e.

Definition rbind {A B} (r : result A) (k : A -> result B) : result B :=
  match r with
  | Ok a => k a
  | Err e => Err e
  end.

Fixpoint rmapM {A B} (f : A -> result B) (l : list A) : result (list B) :=
  match l with
  | [] => Ok []
  | a :: l' => rbind (f a) (fun b => rbind (rmapM f l') (fun bs => Ok (b :: bs)))
  end.

(** ** numpy *)

Module np.

(** Sum of an array of reals. *)
Definition sum (l : list R) : R := foldr Rplus 0 l.

(** [a[1:] - a[:-1]] *)
Definition diff (x : list R) : list R := zip_with Rminus (tail x) x.

(** [a[start:stop]] with Python's treatment of negative and out-of-range
    bounds. *)
Definition slice_index (len : nat) (i : Z) : nat :=
  if (i <? 0)%Z then Z.to_nat (Z.max (i + Z.of_nat len) 0)
  else Nat.min (Z.to_nat i) len.

Definition slice {A} (start stop : Z) (a : list A) : list A :=
  let lo := slice_index (length a) start in
  let hi := slice_index (length a) stop in
  take (hi - lo) (drop lo a).

(** [a[i]] for an integer [i]: negative indices count from the end, and an
    index out of range raises [IndexError]. *)
Definition item_index (len : nat) (i : Z) : option nat :=
  if (i <? 0)%Z then
    (if (i + Z.of_nat len <? 0)%Z then None else Some (Z.to_nat (i + Z.of_nat len)))
  else if (i <? Z.of_nat len)%Z then Some (Z.to_nat i) else None.

(** [a[mask]] for a boolean array [mask] of the length of [a]. *)
Fixpoint boolean_index {A} (a : list A) (mask : list bool) : list A :=
  match a, mask with
  | x :: a', b :: mask' =>
      if b then x :: boolean_index a' mask' else boolean_index a' mask'
  | _, _ => []
  end.

(** Python's [sum] over a boolean array: the number of [True]s. *)
Definition count_true (mask : list bool) : nat :=
  length (List.filter (fun b => b) mask).

(** [y[-1] = v] *)
Definition set_last {A} (y : list A) (v : A) : list A :=
  match y with
  | [] => []
  | _ => removelast y ++ [v]
  end.

(** [np.linspace(start, stop, num, endpoint)]: [arange(0, num) * step + start]
    with [step = (stop - start) / div], where [div] is [num - 1] with the
    endpoint and [num] without; with the endpoint and more than one sample the
    last sample is set to [stop]. *)
Definition linspace (start stop : R) (num : nat) (endpoint : bool) : list R :=
  let div := if endpoint then (num - 1)%nat else num in
  let step := (stop - start) / INR div in
  let y := map (fun i => INR i * step + start) (seq 0 num) in
  if endpoint && (1 <? num)%nat then set_last y stop else y.

(** [scipy.integrate.trapezoid(y, x)]:
    [sum(diff(x) * (y[1:] + y[:-1]) / 2)]. *)
Definition trapezoid (y x : list R) : R :=
  sum (zip_with (fun d s => d * s / 2) (diff x) (zip_with Rplus (tail y) y)).

(** [np.argmin(a)]: the index of the first occurrence of the minimum;
    [ValueError] on an empty array. *)
Fixpoint argmin_from (best_i : nat) (best : R) (i : nat) (a : list R) : nat :=
  match a with
  | [] => best_i
  | x :: a' =>
      if Rlt_dec x best then argmin_from i x (S i) a'
      else argmin_from best_i best (S i) a'
  end.

Definition argmin (a : list R) : result nat :=
  match a with
  | [] => Err (ValueError EmptyArgmin)
  | x :: a' => Ok (argmin_from 0 x 1 a')
  end.

(** [np.array(np.meshgrid(x, y)).T.reshape(-1, 2)]: the rows [(x[i], y[j])],
    with the index of [x] varying slowest. *)
Definition meshgrid_rows (x y : list R) : list (R * R) :=
  flat_map (fun xi => map (fun yj => (xi, yj)) y) x.

(** Number of columns of a two-dimensional array given by its rows. *)
Definition ncols {A} (a : list (list A)) : nat :=
  match a with
  | [] => 0
  | r :: _ => length r
  end.

(** The shape of the last axis when arrays with last axes [k] and [k'] are
    combined elementwise: equal lengths, or one of them 1. *)
Definition broadcast_shape (k k' : nat) : result nat :=
  if (k =? k')%nat then Ok k
  else if (k =? 1)%nat then Ok k'
  else if (k' =? 1)%nat then Ok k
  else Err (ValueError CannotBroadcast).

(** Elementwise combination along the last axis of operands whose shapes
    broadcast. *)
Definition broadcast {A B D} (f : A -> B -> D) (xs : list A) (ys : list B) : list D :=
  match xs, ys with
  | [x], _ :: _ :: _ => map (f x) ys
  | _ :: _ :: _, [y] => map (fun x => f x y) xs
  | _, _ => zip_with f xs ys
  end.

End np.

(** ** spherical_functions.LM_index *)

(** [LM_index(ell, m, ell_min)]: the index of mode [(ell, m)] in an array of
    the modes [[(l, m) for l in range(ell_min, ell_max+1) for m in range(-l, l+1)]]. *)
Definition LM (ell m ell_min : Z) : Z := (ell * (ell + 1) - ell_min ^ 2 + m)%Z.

(** [range(lo, hi)] of Python, over the integers. *)
Definition range (lo hi : Z) : list Z :=
  map (fun i => (lo + Z.of_nat i)%Z) (seq 0 (Z.to_nat (hi - lo))).

(** ** scipy *)

(** The two scipy routines the aligners call.  [CubicSpline x y] is the
    interpolant of the samples [y] at the nodes [x], as a function of the
    evaluation point.  [least_squares fun x0 lb ub] is the solution vector
    [optimum.x] found from the seed [x0] under the bounds [lb], [ub].  The
    errors that scipy raises on malformed arguments are not modelled: a
    statement that a call returns takes as hypotheses the conditions under
    which scipy accepts what it is given. *)
Class Scipy := {
  CubicSpline : list R -> list R -> R -> R;
  least_squares : (list R -> R) -> list R -> list R -> list R -> list R
}.

(** ** Waveforms and the store *)

(** The content of a [WaveformModes] object: its time array [t], its mode
    data [data] (one row per time, one column per mode, in the order of
    [LM]), and its range of ell. *)
Record WaveformModes := mkWaveformModes {
  t : list R;
  data : list (list C);
  ell_min : nat;
  ell_max : nat
}.

(** Modelled from the spec: [WaveformModes.norm], the derived norm sequence of
    a waveform; its code is not part of the sources.  At each time it is the
    L2 norm over the modes, the square root of the sum of [|value|^2]. *)
Definition norm (w : WaveformModes) : list R :=
  map (fun row => sqrt (np.sum (map (fun z => Cx.abs z ^ 2) row))) (data w).

(** Modelled from the spec: slicing a waveform along its modes axis,
    [w[:, start:stop]]; its code is not part of the sources.  The data keep
    the columns [start:stop] of every row. *)
Definition getitem_modes (w : WaveformModes) (start stop : Z) : WaveformModes :=
  {| t := t w; data := map (np.slice start stop) (data w);
     ell_min := ell_min w; ell_max := ell_max w |}.

(** Python references to waveform objects. *)
Definition loc := nat.

(** What a call does to the store, in order. *)
Inductive event :=
| EvCopy (src dst : loc)            (* [w.copy()]: reads all of [src], allocates [dst] *)
| EvGetTime (l : loc) (i : Z)       (* [w.t[i]] for one index *)
| EvRead (l : loc)                  (* the arrays of [l] read as a whole *)
| EvZeroColumn (l : loc) (col : Z)  (* [w.data[:, col] *= 0] *)
| EvNew (l : loc).                  (* a [WaveformModes] constructed at [l] *)

Record world := mkWorld {
  heap : gmap loc WaveformModes;
  trace : list event
}.

(** ** Computations on the store that may raise *)

Definition M (A : Type) : Type := world -> result A * world.

Definition ret {A} (a : A) : M A := fun σ => (Ok a, σ).
Definition raise {A} (e : exn) : M A := fun σ => (Err e, σ).
Definition bind {A B} (m : M A) (k : A -> M B) : M B :=
  fun σ => match m σ with
           | (Ok a, σ') => k a σ'
           | (Err e, σ') => (Err e, σ')
           end.
Definition lift {A} (r : result A) : M A := fun σ => (r, σ).

Notation "x <- m ;; k" := (bind m (fun x => k))
  (at level 100, m at next level, right associativity).
Notation "m ;;; k" := (bind m (fun _ => k))
  (at level 100, right associativity).

Definition emit (e : event) : M unit :=
  fun σ => (Ok tt, {| heap := heap σ; trace := trace σ ++ [e] |}).

(** Dereference: the content of the object at [l]. *)
Definition deref (l : loc) : M WaveformModes :=
  fun σ => match heap σ !! l with
           | Some w => (Ok w, σ)
           | None => (Err NoObject, σ)
           end.

(** [w.t[i]], one element of the time array. *)
Definition get_time (l : loc) (i : Z) : M R :=
  w <- deref l ;;
  emit (EvGetTime l i) ;;;
  match np.item_index (length (t w)) i with
  | Some k => match t w !! k with
              | Some x => ret x
              | None => raise IndexError
              end
  | None => raise IndexError
  end.

(** The arrays of a waveform, read as a whole. *)
Definition read (l : loc) : M WaveformModes :=
  w <- deref l ;;
  emit (EvRead l) ;;;
  ret w.

(** Modelled from the spec: [WaveformModes.copy], "a copy operation producing
    an independent deep copy"; its code is not part of the sources.  The copy
    is a new object with the content of the original. *)
Definition copy (l : loc) : M loc :=
  w <- deref l ;;
  fun σ =>
    let l' := fresh (dom (heap σ)) in
    (Ok l', {| heap := <[l' := w]> (heap σ); trace := trace σ ++ [EvCopy l l'] |}).

(** [sxs.WaveformModes(input_array=..., time=..., ell_min=..., ell_max=...)]:
    a new object. *)
Definition new_waveform (w : WaveformModes) : M loc :=
  fun σ =>
    let l' := fresh (dom (heap σ)) in
    (Ok l', {| heap := <[l' := w]> (heap σ); trace := trace σ ++ [EvNew l'] |}).

(** [a[:, col] *= 0] on a two-dimensional array. *)
Definition zero_column (col : nat) (a : list (list C)) : list (list C) :=
  map (fun row => alter (fun z => Cx.mul z (Cx.of_real 0)) col row) a.

(** [w.data[:, col] *= 0]: in place, on the object at [l]. *)
Definition zero_mode (l : loc) (col : Z) : M unit :=
  w <- deref l ;;
  match np.item_index (np.ncols (data w)) col with
  | Some k =>
      fun σ =>
        (Ok tt,
         {| heap := <[l := {| t := t w; data := zero_column k (data w);
                              ell_min := ell_min w; ell_max := ell_max w |}]> (heap σ);
            trace := trace σ ++ [EvZeroColumn l col] |})
  | None => raise IndexError
  end.

(** A [for] loop over a list. *)
Fixpoint for_each {A} (l : list A) (body : A -> M unit) : M unit :=
  match l with
  | [] => ret tt
  | a :: l' => body a ;;; for_each l' body
  end.

(** ** The window validation shared by both aligners *)

(** Lines 83-84 (and 85-86, 200-203): the window must lie inside the times of
    the waveform at [l].  The second comparison is only evaluated when the
    first is false; the error message reads both end times again. *)
Definition check_contained (name : waveform_name) (l : loc) (t1 t2 : R) : M unit :=
  first_time <- get_time l 0 ;;
  if Rgt_dec first_time t1 then
    a <- get_time l 0 ;; b <- get_time l (-1) ;;
    raise (ValueError (NotContained name t1 t2 a b))
  else
    last_time <- get_time l (-1) ;;
    if Rlt_dec last_time t2 then
      a <- get_time l 0 ;; b <- get_time l (-1) ;;
      raise (ValueError (NotContained name t1 t2 a b))
    else ret tt.

(** Lines 81-86: the order of the window, then its containment in each
    waveform. *)
Definition validate (wa wb : loc) (t1 t2 : R) : M unit :=
  (if Rle_dec t2 t1 then raise (ValueError (OutOfOrder t1 t2)) else ret tt) ;;;
  check_contained Wa wa t1 t2 ;;;
  check_contained Wb wb t1 t2.

(** [(ts >= t1) & (ts <= t2)], elementwise. *)
Definition in_window (t1 t2 : R) (x : R) : bool :=
  (if Rge_dec x t1 then true else false) && (if Rle_dec x t2 then true else false).

Definition window_mask (ts : list R) (t1 t2 : R) : list bool :=
  map (in_window t1 t2) ts.

(** The default number of brute-force time offsets (lines 95 and 212): the
    larger of the numbers of samples of the two waveforms in the window. *)
Definition default_n_brute_force (ta tb : list R) (t1 t2 : R) : nat :=
  Nat.max (np.count_true (window_mask ta t1 t2)) (np.count_true (window_mask tb t1 t2)).

(** ** align1d *)

Module Align1d.
Section Align1d.
Context {S : Scipy}.

(** Lines 89-90. *)
Definition δt_lower (wb_first t1 t2 : R) : R := Rmax (t1 - t2) (wb_first - t1).
Definition δt_upper (wb_last t1 t2 : R) : R := Rmin (t2 - t1) (wb_last - t2).

(** Line 96. *)
Definition δt_brute_force (lower upper : R) (n_brute_force : nat) : list R :=
  np.linspace lower upper n_brute_force true.

(** Line 99. *)
Definition t_reference (wa : WaveformModes) (t1 t2 : R) : list R :=
  np.boolean_index (t wa) (window_mask (t wa) t1 t2).

(** Lines 102-104. *)
Definition norm_a (wa : WaveformModes) (t1 t2 : R) : list R :=
  np.boolean_index (norm wa) (window_mask (t wa) t1 t2).
Definition norm_b (wb : WaveformModes) : R -> R :=
  CubicSpline (t wb) (norm wb).
Definition normalization (wa : WaveformModes) (t1 t2 : R) : R :=
  np.trapezoid (map (fun a => a ^ 2) (norm_a wa t1 t2)) (t_reference wa t1 t2).

(** Lines 105-107. *)
Definition cost (wa wb : WaveformModes) (t1 t2 : R) (δt : R) : R :=
  sqrt (np.trapezoid
          (zip_with (fun a b => (a - b) ^ 2) (norm_a wa t1 t2)
             (map (norm_b wb) (map (fun x => x + δt) (t_reference wa t1 t2))))
          (t_reference wa t1 t2)
        / normalization wa t1 t2).

(** The times at which [norm_b] is evaluated by [cost δt]. *)
Definition evaluation_times (wa : WaveformModes) (t1 t2 : R) (δt : R) : list R :=
  map (fun x => x + δt) (t_reference wa t1 t2).

(** Lines 110-111: the brute-force minimiser over the grid. *)
Definition brute_force (wa wb : WaveformModes) (t1 t2 : R) (grid : list R) : result R :=
  rbind (np.argmin (map (cost wa wb t1 t2) grid)) (fun i =>
  match grid !! i with
  | Some δt => Ok δt
  | None => Err IndexError
  end).

(** Line 114: the solver is handed [cost] as a function of a vector of one
    component, the seed and the bounds. *)
Definition refine (wa wb : WaveformModes) (t1 t2 : R) (lower upper δt : R) : list R :=
  least_squares (fun x => cost wa wb t1 t2 (nth 0 x 0)) [δt] [lower] [upper].

(** Lines 88-116, on the arrays read from the two waveforms: the bounds, the
    grid, the brute-force seed and its refinement; the result is
    [optimum.x[0]]. *)
Definition search (a b : WaveformModes) (t1 t2 wb_first wb_last : R)
    (n_brute_force : option nat) : result R :=
  let lower := δt_lower wb_first t1 t2 in
  let upper := δt_upper wb_last t1 t2 in
  let n := match n_brute_force with
           | Some n => n
           | None => default_n_brute_force (t a) (t b) t1 t2
           end in
  if (length (norm a) =? length (t a))%nat then
    rbind (brute_force a b t1 t2 (δt_brute_force lower upper n)) (fun δt =>
    match refine a b t1 t2 lower upper δt with
    | x0 :: _ => Ok x0
    | [] => Err IndexError
    end)
  else Err IndexError.

(** Lines 88-116: the body of [align1d] after the window validation. *)
Definition body (wa wb : loc) (t1 t2 : R) (n_brute_force : option nat) : M R :=
  wb_first <- get_time wb 0 ;;
  wb_last <- get_time wb (-1) ;;
  a <- read wa ;;
  b <- read wb ;;
  lift (search a b t1 t2 wb_first wb_last n_brute_force).

(** [align1d(wa, wb, t1, t2, n_brute_force)]. *)
Definition align1d (wa wb : loc) (t1 t2 : R) (n_brute_force : option nat) : M R :=
  validate wa wb t1 t2 ;;;
  body wa wb t1 t2 n_brute_force.

End Align1d.
End Align1d.

(** ** align2d *)

Module Align2d.
Section Align2d.
Context {S : Scipy}.

(** Lines 206-207: the bounds are measured against the times of [wa]. *)
Definition δt_lower (wa_first t1 t2 : R) : R := Rmax (t1 - t2) (wa_first - t1).
Definition δt_upper (wa_last t1 t2 : R) : R := Rmin (t2 - t1) (wa_last - t2).

(** Line 213. *)
Definition δt_brute_force (lower upper : R) (n_brute_force_δt : nat) : list R :=
  np.linspace lower upper n_brute_force_δt true.

(** Lines 215-216: the number of phase offsets when the caller passes
    [None]. *)
Definition default_n_brute_force_δϕ (wa_copy : WaveformModes) : nat :=
  2 * ell_max wa_copy + 1.

(** Line 217. *)
Definition δϕ_brute_force (n_brute_force_δϕ : nat) : list R :=
  np.linspace 0 (2 * PI) n_brute_force_δϕ false.

(** Line 219. *)
Definition δt_δϕ_brute_force (δt_grid δϕ_grid : list R) : list (R * R) :=
  np.meshgrid_rows δt_grid δϕ_grid.

(** [np.argmin(abs(ts - x))]: the index of the sample nearest to [x]. *)
Definition nearest_index (ts : list R) (x : R) : result nat :=
  np.argmin (map (fun u => Rabs (u - x)) ts).

(** Line 221. *)
Definition t_reference (wa_copy : WaveformModes) (t1 t2 : R) : result (list R) :=
  rbind (nearest_index (t wa_copy) t1) (fun i1 =>
  rbind (nearest_index (t wa_copy) t2) (fun i2 =>
  Ok (np.slice (Z.of_nat i1) (Z.of_nat i2 + 1) (t wa_copy)))).

(** Line 224. *)
Definition common_ell_max (wa_copy wb_copy : WaveformModes) : nat :=
  Nat.min (ell_max wa_copy) (ell_max wb_copy).

(** The modes visited by the loops of lines 226-227, in order. *)
Definition retained_modes (ell_max : nat) : list (Z * Z) :=
  flat_map (fun L => map (fun M => (L, M)) (range (- L) (L + 1)))
           (range 2 (Z.of_nat ell_max + 1)).

Definition mode_in (lm : Z * Z) (include_modes : list (Z * Z)) : bool :=
  existsb (fun lm' => (fst lm =? fst lm')%Z && (snd lm =? snd lm')%Z) include_modes.

(** Lines 225-230: the modes that are not requested are zeroed in both
    copies. *)
Definition remove_modes (wa_copy wb_copy : loc) (ell_max : nat)
    (include_modes : option (list (Z * Z))) : M unit :=
  match include_modes with
  | None => ret tt
  | Some modes =>
      for_each (retained_modes ell_max) (fun lm =>
        if mode_in lm modes then ret tt
        else
          a <- deref wa_copy ;;
          zero_mode wa_copy (LM (fst lm) (snd lm) (Z.of_nat (ell_min a))) ;;;
          b <- deref wb_copy ;;
          zero_mode wb_copy (LM (fst lm) (snd lm) (Z.of_nat (ell_min b))))
  end.

(** [w[:, LM(2, -2, w.ell_min):LM(ell_max+1, -(ell_max+1), w.ell_min)]]. *)
Definition modes_slice (w : WaveformModes) (ell_max : nat) : WaveformModes :=
  getitem_modes w
    (LM 2 (-2) (Z.of_nat (ell_min w)))
    (LM (Z.of_nat ell_max + 1) (- (Z.of_nat ell_max + 1)) (Z.of_nat (ell_min w))).

(** [CubicSpline(x, y)] for a two-dimensional complex array [y]: every
    column is interpolated, its real and imaginary parts each as a real
    spline. *)
Definition column (k : nat) (y : list (list C)) : list C :=
  map (fun row => default Cx.zero (row !! k)) y.

Definition CubicSpline_modes (x : list R) (y : list (list C)) (u : R) : list C :=
  map (fun k => (CubicSpline x (map fst (column k y)) u,
                 CubicSpline x (map snd (column k y)) u))
      (seq 0 (np.ncols y)).

(** Lines 233-236. *)
Definition modes_A (wa_copy : WaveformModes) (ell_max : nat) : R -> list C :=
  CubicSpline_modes (t wa_copy) (data (modes_slice wa_copy ell_max)).
Definition modes_B (wb_copy : WaveformModes) (ell_max : nat) (t_ref : list R) : list (list C) :=
  map (CubicSpline_modes (t wb_copy) (data (modes_slice wb_copy ell_max))) t_ref.
Definition normalization (wb_copy : WaveformModes) (ell_max : nat) (t_ref : list R) : R :=
  np.trapezoid (map (CubicSpline (t wb_copy) (norm (modes_slice wb_copy ell_max))) t_ref) t_ref.

(** Line 238. *)
Definition δϕ_factor (wa_copy : WaveformModes) : list Z :=
  flat_map (fun L => range (- L) (L + 1))
           (range (Z.of_nat (ell_min wa_copy)) (Z.of_nat (ell_max wa_copy) + 1)).

(** [np.exp(1j * δϕ) ** δϕ_factor] *)
Definition phase_factors (δϕ : R) (factor : list Z) : list C :=
  map (Cx.pow (Cx.exp (Cx.mul Cx.j (Cx.of_real δϕ)))) factor.

(** The shapes combined in line 241: the columns of [modes_A], the phase
    factors, and the columns of [modes_B]. *)
Definition cost_shape (wa_copy wb_copy : WaveformModes) (ell_max : nat) : result nat :=
  rbind (np.broadcast_shape (np.ncols (data (modes_slice wa_copy ell_max)))
                            (length (δϕ_factor wa_copy))) (fun k =>
  np.broadcast_shape k (np.ncols (data (modes_slice wb_copy ell_max)))).

(** Lines 241-243, for operands whose shapes broadcast. *)
Definition cost_value (wa_copy wb_copy : WaveformModes) (ell_max : nat) (t_ref : list R)
    (δt δϕ : R) : R :=
  let A := map (fun u => modes_A wa_copy ell_max (u + δt)) t_ref in
  let rotated := map (fun row => np.broadcast Cx.mul row (phase_factors δϕ (δϕ_factor wa_copy))) A in
  let residual := zip_with (np.broadcast Cx.sub) rotated (modes_B wb_copy ell_max t_ref) in
  let diff := np.trapezoid
                (map (fun row => np.sum (map (fun z => Cx.abs z ^ 2) row)) residual) t_ref in
  sqrt (diff / normalization wb_copy ell_max t_ref).

(** Lines 239-243: [cost(δt_δϕ)]. *)
Definition cost (wa_copy wb_copy : WaveformModes) (ell_max : nat) (t_ref : list R)
    (δt_δϕ : list R) : result R :=
  match δt_δϕ with
  | δt :: δϕ :: _ =>
      rbind (cost_shape wa_copy wb_copy ell_max) (fun _ =>
      Ok (cost_value wa_copy wb_copy ell_max t_ref δt δϕ))
  | _ => Err IndexError
  end.

(** Lines 246-247. *)
Definition brute_force (wa_copy wb_copy : WaveformModes) (ell_max : nat) (t_ref : list R)
    (candidates : list (R * R)) : result (R * R) :=
  rbind (rmapM (fun c => cost wa_copy wb_copy ell_max t_ref [fst c; snd c]) candidates)
        (fun cost_brute_force =>
  rbind (np.argmin cost_brute_force) (fun i =>
  match candidates !! i with
  | Some c => Ok c
  | None => Err IndexError
  end)).

(** Line 250. *)
Definition refine (wa_copy wb_copy : WaveformModes) (ell_max : nat) (t_ref : list R)
    (lower upper : R) (seed : R * R) : list R :=
  least_squares
    (fun x => cost_value wa_copy wb_copy ell_max t_ref (nth 0 x 0) (nth 1 x 0))
    [fst seed; snd seed] [lower; 0] [upper; 2 * PI].

(** Lines 252-257: the transformed waveform, from the content [wa] of the
    caller's object. *)
Definition wa_prime (wa : WaveformModes) (ell_max : nat) (factor : list Z)
    (δt δϕ : R) : result WaveformModes :=
  rbind (np.broadcast_shape (np.ncols (data (modes_slice wa ell_max))) (length factor))
        (fun _ =>
  Ok {| t := map (fun u => u + δt) (t wa);
        data := map (fun u =>
                       np.broadcast Cx.mul
                         (CubicSpline_modes (t wa) (data (modes_slice wa ell_max)) (u + δt))
                         (phase_factors δϕ factor))
                    (t wa);
        ell_min := 2;
        ell_max := ell_max |}).

(** Lines 209-219: the candidate pairs of the brute-force search. *)
Definition candidates (a b : WaveformModes) (t1 t2 lower upper : R)
    (n_brute_force_δt n_brute_force_δϕ : option nat) : list (R * R) :=
  let n_δt := match n_brute_force_δt with
              | Some n => n
              | None => default_n_brute_force (t a) (t b) t1 t2
              end in
  let n_δϕ := match n_brute_force_δϕ with
              | Some n => n
              | None => default_n_brute_force_δϕ a
              end in
  δt_δϕ_brute_force (δt_brute_force lower upper n_δt) (δϕ_brute_force n_δϕ).

(** Lines 245-250: the brute-force seed and its refinement; the result is
    [optimum.x]. *)
Definition search (a b : WaveformModes) (ell_max : nat) (t_ref : list R)
    (lower upper : R) (cands : list (R * R)) : result (list R) :=
  rbind (brute_force a b ell_max t_ref cands) (fun seed =>
  Ok (refine a b ell_max t_ref lower upper seed)).

(** Lines 205-259: the body of [align2d] after the window validation, on the
    caller's [wa] and the two copies. *)
Definition body (wa wa_copy wb_copy : loc) (t1 t2 : R) (n_brute_force_δt : option nat)
    (n_brute_force_δϕ : option nat) (include_modes : option (list (Z * Z)))
    : M (list R * loc) :=
  wa_first <- get_time wa_copy 0 ;;
  wa_last <- get_time wa_copy (-1) ;;
  let lower := δt_lower wa_first t1 t2 in
  let upper := δt_upper wa_last t1 t2 in
  a0 <- read wa_copy ;;
  b0 <- read wb_copy ;;
  let cands := candidates a0 b0 t1 t2 lower upper n_brute_force_δt n_brute_force_δϕ in
  t_ref <- lift (t_reference a0 t1 t2) ;;
  let ell_max := common_ell_max a0 b0 in
  remove_modes wa_copy wb_copy ell_max include_modes ;;;
  a <- read wa_copy ;;
  b <- read wb_copy ;;
  optimum_x <- lift (search a b ell_max t_ref lower upper cands) ;;
  original <- read wa ;;
  match optimum_x with
  | δt :: δϕ :: _ =>
      w <- lift (wa_prime original ell_max (δϕ_factor a) δt δϕ) ;;
      l <- new_waveform w ;;
      ret (optimum_x, l)
  | _ => raise IndexError
  end.

(** [align2d(wa, wb, t1, t2, n_brute_force_δt, n_brute_force_δϕ, include_modes)];
    a caller who leaves [n_brute_force_δϕ] out passes [Some 5]. *)
Definition align2d (wa wb : loc) (t1 t2 : R) (n_brute_force_δt : option nat)
    (n_brute_force_δϕ : option nat) (include_modes : option (list (Z * Z)))
    : M (list R * loc) :=
  wa_copy <- copy wa ;;
  wb_copy <- copy wb ;;
  validate wa_copy wb_copy t1 t2 ;;;
  body wa wa_copy wb_copy t1 t2 n_brute_force_δt n_brute_force_δϕ include_modes.

(** The default of [n_brute_force_δϕ] in the signature (line 118). *)
Definition n_brute_force_δϕ_default : option nat := Some 5%nat.

End Align2d.
End Align2d.

(** ** align1d over binary64 numbers

    Lines 81-99 and the argument of [norm_b] in line 107 once more, with
    Python's floats as they are: IEEE 754 binary64 numbers, on which every
    subtraction, addition, multiplication and division rounds to the nearest
    number.  This is the part of align1d that decides at which times the
    interpolant of wb's norm is evaluated; the definitions above take the same
    lines over the real numbers, without rounding. *)

Module Float64.
Import PrimFloat.

(** Python's [max(a, b)] and [min(a, b)]: the first argument, unless the
    second is greater (less). *)
Definition max (a b : float) : float := if ltb a b then b else a.
Definition min (a b : float) : float := if ltb b a then b else a.

(** Lines 81-86: none of the three checks raises. *)
Definition window_ok (t1 t2 a_first a_last b_first b_last : float) : bool :=
  negb (leb t2 t1)
  && negb (ltb t1 a_first || ltb a_last t2)
  && negb (ltb t1 b_first || ltb b_last t2).

(** Lines 89-90. *)
Definition δt_lower (wb_first t1 t2 : float) : float := max (t1 - t2) (wb_first - t1)%float.
Definition δt_upper (wb_last t1 t2 : float) : float := min (t2 - t1) (wb_last - t2)%float.

(** The float of a natural number (exact below [2^53]). *)
Fixpoint of_nat (n : nat) : float :=
  match n with
  | O => 0%float
  | S n' => (of_nat n' + 1)%float
  end.

(** [np.linspace(start, stop, num)]: [arange(0, num) * step + start] with
    [step = (stop - start) / (num - 1)]; when the step rounds to zero the
    samples are [arange(0, num) / (num - 1) * (stop - start) + start]; with
    more than one sample the last one is set to [stop]; with one sample or
    none the step is undefined and the samples are
    [arange(0, num) * (stop - start) + start]. *)
Definition linspace (start stop : float) (num : nat) : list float :=
  let div := of_nat (num - 1) in
  let delta := (stop - start)%float in
  let step := (delta / div)%float in
  if Nat.ltb 1 num then
    np.set_last
      (List.map (fun i => if eqb step 0%float
                          then (of_nat i / div * delta + start)%float
                          else (of_nat i * step + start)%float)
                (seq 0 num))
      stop
  else List.map (fun i => (of_nat i * delta + start)%float) (seq 0 num).

(** Line 96. *)
Definition δt_brute_force (lower upper : float) (n_brute_force : nat) : list float :=
  linspace lower upper n_brute_force.

(** Line 99: [wa.t[(wa.t>=t1)&(wa.t<=t2)]]. *)
Definition t_reference (wa_t : list float) (t1 t2 : float) : list float :=
  List.filter (fun x => leb t1 x && leb x t2) wa_t.

(** Line 107: [t_reference+δt], the times at which [norm_b] is evaluated by
    [cost(δt)]. *)
Definition evaluation_times (wa_t : list float) (t1 t2 δt : float) : list float :=
  List.map (fun x => (x + δt)%float) (t_reference wa_t t1 t2).

(** An example: the window from [-0.5] to [0.03], wa with a sample at each
    end of it, and wb from [-0.5] to [0.29]; the numbers are the binary64
    numbers that Python reads from these decimals. *)
Definition example_t1 : float := (-0x1p-1)%float.
Definition example_t2 : float := 0x1.eb851eb851eb8p-6%float.
Definition example_wa_t : list float := [example_t1; example_t2].
Definition example_wb_first : float := (-0x1p-1)%float.
Definition example_wb_last : float := 0x1.28f5c28f5c28fp-2%float.

End Float64.

(** ** What is assumed of scipy *)


Definition strictly_increasing (x : list R) : Prop :=
  forall (i k : nat) (a b : R), x !! i = Some a -> x !! k = Some b -> (i < k)%nat -> a < b.

(** [lb <= x <= ub], componentwise. *)
Definition in_box (lb ub x : list R) : Prop :=
  Forall2 Rle lb x /\ Forall2 Rle x ub.




(** An interpolant and a solver with these properties: the cubic through the
    first four samples, and the solver that stops at its seed. *)
Definition lagrange4 (x y : list R) (u : R) : R :=
  match x, y with
  | x0 :: x1 :: x2 :: x3 :: _, y0 :: y1 :: y2 :: y3 :: _ =>
      y0 * ((u - x1) * (u - x2) * (u - x3)) / ((x0 - x1) * (x0 - x2) * (x0 - x3))
      + y1 * ((u - x0) * (u - x2) * (u - x3)) / ((x1 - x0) * (x1 - x2) * (x1 - x3))
      + y2 * ((u - x0) * (u - x1) * (u - x3)) / ((x2 - x0) * (x2 - x1) * (x2 - x3))
      + y3 * ((u - x0) * (u - x1) * (u - x2)) / ((x3 - x0) * (x3 - x1) * (x3 - x2))
  | _, _ => 0
  end.

Definition reference_scipy : Scipy :=
  {| CubicSpline := lagrange4;
     least_squares := fun _ x0 _ _ => x0 |}.

(** ** The cost of align1d in the words of the spec *)

Module Spec1d.
Section Spec1d.
Context {S : Scipy}.

(** The samples of wa with a time in [[t1, t2]]: the reference times [T],
    each with the norm of wa at that time. *)
Definition samples (wa : WaveformModes) (t1 t2 : R) : list (R * R) :=
  List.filter (fun p => in_window t1 t2 (fst p)) (zip (t wa) (norm wa)).

(** Trapezoidal quadrature over [T] of a function given by its values
    [(t_k, f_k)]: the sum over consecutive samples of
    [(t_{k+1} - t_k) * (f_k + f_{k+1}) / 2]. *)
Fixpoint quadrature (f : list (R * R)) : R :=
  match f with
  | [] => 0
  | p :: rest =>
      match rest with
      | [] => 0
      | q :: _ => (fst q - fst p) * (snd p + snd q) / 2 + quadrature rest
      end
  end.

(** [sqrt( ∫_T (norm_a(t) − norm_b(t+δt))² dt / ∫_T norm_a(t)² dt )], with
    [norm_b] the cubic spline of wb's norm over wb's own times. *)
Definition cost (wa wb : WaveformModes) (t1 t2 : R) (δt : R) : R :=
  sqrt (quadrature
          (map (fun p => (fst p, (snd p - CubicSpline (t wb) (norm wb) (fst p + δt)) ^ 2))
               (samples wa t1 t2))
        / quadrature (map (fun p => (fst p, snd p ^ 2)) (samples wa t1 t2))).

End Spec1d.
End Spec1d.

(** ** Predicates used in the statements *)

(** [k] is the index of the first occurrence of the minimum of [l]. *)
Definition first_minimum (l : list R) (k : nat) : Prop :=
  exists v : R, l !! k = Some v /\
    (forall y : R, y ∈ l -> v <= y) /\
    (forall (i : nat) (y : R), (i < k)%nat -> l !! i = Some y -> v < y).

(** The world [σ] after the events [evs]. *)
Definition with_events (σ : world) (evs : list event) : world :=
  {| heap := heap σ; trace := trace σ ++ evs |}.

(** The events that read one end of the time array of one of [ls]. *)
Definition endpoint_read (ls : list loc) (e : event) : Prop :=
  match e with
  | EvGetTime l i => l ∈ ls /\ (i = 0%Z \/ i = (-1)%Z)
  | _ => False
  end.

(** The window checks of lines 81-86, for waveforms with first and last
    times [a_first], [a_last] and [b_first], [b_last]. *)
Definition window_ok (t1 t2 a_first a_last b_first b_last : R) : Prop :=
  t1 < t2 /\ (a_first <= t1 /\ t2 <= a_last) /\ (b_first <= t1 /\ t2 <= b_last).

(** The first and last time of the waveform at [l]. *)
Definition spans (σ : world) (l : loc) (w : WaveformModes) (first last_ : R) : Prop :=
  heap σ !! l = Some w /\ head (t w) = Some first /\ last (t w) = Some last_.

(** [m] leaves every object outside [ls] as it is. *)
Definition preserves_except {A} (ls : list loc) (m : M A) : Prop :=
  forall (σ : world) (l : loc) (w : WaveformModes),
    heap σ !! l = Some w -> l ∉ ls -> heap (m σ).2 !! l = Some w.

(** [m] raises no error of the window validation. *)
Definition no_InvalidWindow {A} (m : M A) : Prop :=
  forall (σ : world) (e : exn), (m σ).1 = Err e -> ~ InvalidWindow e.

(** ** Example inputs *)

(** A waveform with ell from 2 to [ell_max] whose norm at the times [ts] is
    [ns]: the mode (2,-2) carries the value and the other modes are zero. *)
Definition waveform_of_norms (ts ns : list R) (ell_max : nat) : WaveformModes :=
  {| t := ts;
     data := map (fun n => (n, 0) :: replicate ((ell_max + 1) ^ 2 - 5) Cx.zero) ns;
     ell_min := 2;
     ell_max := ell_max |}.

(** wa: two samples, at times 0 and 1, of norm 7. *)
Definition example_wa : WaveformModes := waveform_of_norms [0; 1] [7; 7] 2.

(** wb: four samples of the cubic [7 + u (u - 1) (u - 9/4)]. *)
Definition example_wb : WaveformModes :=
  waveform_of_norms [-1; 0; 1; 2] [1 / 2; 7; 7; 13 / 2] 2.

(** wa with modes up to ell = 3. *)
Definition example_wa3 : WaveformModes := waveform_of_norms [0; 1] [7; 7] 3.

(** wa with the modes of ell = 0, 1 and 2, all of value 1. *)
Definition example_wa_from0 : WaveformModes :=
  {| t := [0; 1]; data := replicate 2 (replicate 9 Cx.one); ell_min := 0; ell_max := 2 |}.

(** A store with wa at location 0 and wb at location 1. *)
Definition example_world : world :=
  {| heap := <[1%nat := example_wb]> (<[0%nat := example_wa]> ∅); trace := [] |}.

Definition example_world3 : world :=
  {| heap := <[1%nat := example_wb]> (<[0%nat := example_wa3]> ∅); trace := [] |}.

(** wa with four samples, at times 0, 1, 2 and 3. *)
Definition example_wa4 : WaveformModes := waveform_of_norms [0; 1; 2; 3] [7; 7; 7; 7] 2.

(** A store with [example_wa4] at location 0 and wb at location 1. *)
Definition example_world4 : world :=
  {| heap := <[1%nat := example_wb]> (<[0%nat := example_wa4]> ∅); trace := [] |}.

(** [i] is the index of the sample of [ts] nearest to [x] (the first one, if
    several are equally near). *)
Definition nearest (ts : list R) (x : R) (i : nat) : Prop :=
  first_minimum (map (fun u => Rabs (u - x)) ts) i.




Definition example_wb_finer : WaveformModes :=
  waveform_of_norms [-1; 0; 1; 2] [1; 8; 7; 10] 2.




(** [w'] has the times and the range of ell of [w]. *)
Definition same_frame (w w' : WaveformModes) : Prop :=
  t w' = t w /\ ell_min w' = ell_min w /\ ell_max w' = ell_max w.

(** [m] keeps every object, with its times and its range of ell. *)
Definition keeps_frame {A} (m : M A) : Prop :=
  forall (σ : world) (l : loc) (w : WaveformModes),
    heap σ !! l = Some w ->
    exists w' : WaveformModes, heap (m σ).2 !! l = Some w' /\ same_frame w w'.

(** ** Modes kept and removed, and the shape of the data *)

(** Lines 225 and 228: the mode [lm] is kept as it is, either because no
    [include_modes] is given or because the mode is in it. *)
Definition kept (include_modes : option (list (Z * Z))) (lm : Z * Z) : bool :=
  match include_modes with
  | None => true
  | Some modes => Align2d.mode_in lm modes
  end.

(** The data of [w] have one row per time and one column per mode, for the
    modes with ell from [ell_min] to [ell_max]. *)
Definition well_shaped (w : WaveformModes) : Prop :=
  length (data w) = length (t w) /\
  Forall (fun row => length row = ((ell_max w + 1) ^ 2 - ell_min w ^ 2)%nat) (data w).

(** [a[:, k] *= 0] for each [k] of [cols] in turn. *)
Definition zero_columns (cols : list nat) (a : list (list C)) : list (list C) :=
  foldl (fun d k => zero_column k d) a cols.

(** The object [w] with its data replaced. *)
Definition with_data (w : WaveformModes) (d : list (list C)) : WaveformModes :=
  {| t := t w; data := d; ell_min := ell_min w; ell_max := ell_max w |}.

(** The columns that [remove_modes] zeroes in a waveform whose modes start at
    [ell_min], for the modes [lms] visited, in order. *)
Definition removed_columns (include_modes : option (list (Z * Z))) (lms : list (Z * Z))
    (ell_min : nat) : list nat :=
  map (fun lm => Z.to_nat (LM (fst lm) (snd lm) (Z.of_nat ell_min)))
      (List.filter (fun lm => negb (kept include_modes lm)) lms).

(** [w'] is [w] with every mode of ell from 2 to [L] that is not kept set to
    zero at all times, and every other mode as it is. *)
Definition modes_removed (include_modes : option (list (Z * Z))) (L : nat)
    (w w' : WaveformModes) : Prop :=
  same_frame w w' /\
  length (data w') = length (data w) /\
  forall (i : nat) (row : list C),
    data w !! i = Some row ->
    exists row' : list C,
      data w' !! i = Some row' /\ length row' = length row /\
      forall (ell m : Z) (z : C),
        (Z.of_nat (ell_min w) <= ell)%Z -> (- ell <= m <= ell)%Z ->
        row !! Z.to_nat (LM ell m (Z.of_nat (ell_min w))) = Some z ->
        row' !! Z.to_nat (LM ell m (Z.of_nat (ell_min w)))
        = Some (if (2 <=? ell)%Z && (ell <=? Z.of_nat L)%Z
                   && negb (kept include_modes (ell, m))
                then Cx.zero else z).

(** The content of a copy after the loop of lines 226-230, for the common
    [ell_max] [L]: the columns of the modes that are not kept are zeroed. *)
Definition with_modes_removed (include_modes : option (list (Z * Z))) (L : nat)
    (w : WaveformModes) : WaveformModes :=
  with_data w
    (zero_columns (removed_columns include_modes (Align2d.retained_modes L) (ell_min w))
       (data w)).

(** * sxs.zenodo.catalog: the catalog of simulations

    A shallow embedding of [compare_catalogs],
    [catalog_from_representation_list] and [map] from
    [sxs/zenodo/catalog.py].  The catalogs and the representations are JSON
    values as [json.load] returns them: trees without shared parts, so that
    [deepcopy] returns an equal tree and a change inside one part shows
    nowhere else.  Strings are sequences of bytes (UTF-8), whose order is the
    order of Python's strings; floating-point numbers are idealised as reals.
    Reading and writing files is reduced to the value read and the strings
    written; [update], which talks to Zenodo, is not embedded. *)

Module Catalog.

(** A JSON value.  A Python [dict] keeps its items in the order of
    insertion; [ordered] tells an [OrderedDict] from a plain [dict]. *)
#[warnings="-register-all"]
Inductive json :=
| JNull
| JBool (b : bool)
| JInt (z : Z)
| JFloat (x : R)
| JStr (s : string)
| JList (l : list json)
| JDict (ordered : bool) (items : list (string * json)).

(** The exceptions that the three functions can raise on JSON values. *)
Inductive error :=
| KeyError (key : string)        (* a dict without the key *)
| KeyErrorIndex (i : nat)        (* a dict indexed by an integer *)
| TypeError
| AttributeError
| IndexError.

Inductive outcome (A : Type) :=
| Return (a : A)
| Raise (e : error).
Arguments Return {A} a.
Arguments Raise {A} e.

#[export] Instance outcome_ret : MRet outcome := fun A a => Return a.
#[export] Instance outcome_bind : MBind outcome := fun A B k m =>
  match m with
  | Return a => k a
  | Raise e => Raise e
  end.

(** [[f(x) for x in l]], stopping at the first exception. *)
Fixpoint for_all {A B} (f : A -> outcome B) (l : list A) : outcome (list B) :=
  match l with
  | [] => Return []
  | a :: l' => b ← f a; bs ← for_all f l'; Return (b :: bs)
  end.

(** ** The items of a dict *)

Fixpoint lookup_item (key : string) (items : list (string * json)) : option json :=
  match items with
  | [] => None
  | (k, v) :: items' => if String.eqb key k then Some v else lookup_item key items'
  end.

Fixpoint delete_item (key : string) (items : list (string * json)) : list (string * json) :=
  match items with
  | [] => []
  | (k, v) :: items' =>
      if String.eqb key k then delete_item key items' else (k, v) :: delete_item key items'
  end.

(** [d[key] = v]: a key that is present keeps its place, a new key goes to
    the end. *)
Fixpoint set_item (key : string) (v : json) (items : list (string * json))
    : list (string * json) :=
  match items with
  | [] => [(key, v)]
  | (k, v') :: items' =>
      if String.eqb key k then (k, v) :: items' else (k, v') :: set_item key v items'
  end.

Definition keys (items : list (string * json)) : list string := map fst items.

(** ** Python's operations on JSON values *)

(** The value of a number; [True] is 1 and [False] is 0. *)
Definition number (v : json) : option R :=
  match v with
  | JBool b => Some (if b then 1 else 0)
  | JInt z => Some (IZR z)
  | JFloat x => Some x
  | _ => None
  end.

(** [a == b] *)
Fixpoint py_eq (a b : json) {struct a} : bool :=
  match a, b with
  | JNull, JNull => true
  | JStr s, JStr s' => String.eqb s s'
  | JList l, JList l' =>
      (fix go (l l' : list json) : bool :=
         match l, l' with
         | [], [] => true
         | x :: l, y :: l' => py_eq x y && go l l'
         | _, _ => false
         end) l l'
  | JDict o d, JDict o' d' =>
      (length d =? length d')%nat &&
      (fix go (d : list (string * json)) : bool :=
         match d with
         | [] => true
         | (k, v) :: d =>
             match lookup_item k d' with
             | Some v' => py_eq v v'
             | None => false
             end && go d
         end) d &&
      (if o && o' then bool_decide (keys d = keys d') else true)
  | JBool x, (JBool _ | JInt _ | JFloat _) =>
      match number b with
      | Some y => if Req_dec_T (if x then 1 else 0) y then true else false
      | None => false
      end
  | JInt x, (JBool _ | JInt _ | JFloat _) =>
      match number b with
      | Some y => if Req_dec_T (IZR x) y then true else false
      | None => false
      end
  | JFloat x, (JBool _ | JInt _ | JFloat _) =>
      match number b with
      | Some y => if Req_dec_T x y then true else false
      | None => false
      end
  | _, _ => false
  end.

(** [a < b]: defined between two strings, between two numbers, and between
    two lists (by the first pair of items that are not equal); [TypeError]
    otherwise. *)
Fixpoint py_lt (a b : json) {struct a} : outcome bool :=
  match a, b with
  | JStr s, JStr s' => Return (String.ltb s s')
  | JList l, JList l' =>
      (fix go (l l' : list json) : outcome bool :=
         match l, l' with
         | [], [] => Return false
         | [], _ :: _ => Return true
         | _ :: _, [] => Return false
         | x :: l, y :: l' => if py_eq x y then go l l' else py_lt x y
         end) l l'
  | (JBool _ | JInt _ | JFloat _), (JBool _ | JInt _ | JFloat _) =>
      match number a, number b with
      | Some x, Some y => Return (if Rlt_dec x y then true else false)
      | _, _ => Raise TypeError
      end
  | _, _ => Raise TypeError
  end.

(** [v[key]] for a string [key]. *)
Definition getitem (v : json) (key : string) : outcome json :=
  match v with
  | JDict _ items =>
      match lookup_item key items with
      | Some x => Return x
      | None => Raise (KeyError key)
      end
  | _ => Raise TypeError
  end.

(** [del v[key]] for a string [key]. *)
Definition delitem (v : json) (key : string) : outcome json :=
  match v with
  | JDict o items =>
      match lookup_item key items with
      | Some _ => Return (JDict o (delete_item key items))
      | None => Raise (KeyError key)
      end
  | _ => Raise TypeError
  end.

(** [v[key] = x] for a string [key] on a dict. *)
Definition setitem (v : json) (key : string) (x : json) : outcome json :=
  match v with
  | JDict o items => Return (JDict o (set_item key x items))
  | JList _ => Raise TypeError
  | _ => Raise TypeError
  end.

(** The one-character strings of a string. *)
Fixpoint characters (s : string) : list json :=
  match s with
  | EmptyString => []
  | String c s' => JStr (String c EmptyString) :: characters s'
  end.

(** [key in v] for a string [key]: a key of a dict, an item of a list, a
    substring of a string. *)
Definition contains (key : string) (v : json) : outcome bool :=
  match v with
  | JDict _ items => Return (bool_decide (key ∈ keys items))
  | JList l => Return (existsb (fun x => py_eq x (JStr key)) l)
  | JStr s => Return (match String.index 0 key s with Some _ => true | None => false end)
  | _ => Raise TypeError
  end.

(** [[v[i] for i in range(len(v))]]: the items of a list; the characters of
    a string; for a dict that is not empty [v[0]] raises [KeyError], and
    [len] of any other value raises [TypeError]. *)
Definition items_by_index (v : json) : outcome (list json) :=
  match v with
  | JList l => Return l
  | JStr s => Return (characters s)
  | JDict _ [] => Return []
  | JDict _ (_ :: _) => Raise (KeyErrorIndex 0)
  | _ => Raise TypeError
  end.

(** [[x for x in v]]: the items of a list, the keys of a dict, the characters
    of a string. *)
Definition iterate (v : json) : outcome (list json) :=
  match v with
  | JList l => Return l
  | JStr s => Return (characters s)
  | JDict _ items => Return (map JStr (keys items))
  | _ => Raise TypeError
  end.

(** [sorted(l, key=...)] on the pairs of a key and an item: Python's sort is
    stable and compares keys with [<] only.  Written as an insertion sort; a
    stable sort has one result, whatever the algorithm. *)
Fixpoint insert_sorted {A} (x : json * A) (l : list (json * A)) : outcome (list (json * A)) :=
  match l with
  | [] => Return [x]
  | y :: l' =>
      b ← py_lt (fst y) (fst x);
      if b : bool then r ← insert_sorted x l'; Return (y :: r)
      else Return (x :: y :: l')
  end.

Fixpoint py_sorted {A} (l : list (json * A)) : outcome (list (json * A)) :=
  match l with
  | [] => Return []
  | x :: l' => s ← py_sorted l'; insert_sorted x s
  end.

(** [sorted] on strings, which never raises. *)
Fixpoint insert_string (x : string) (l : list string) : list string :=
  match l with
  | [] => [x]
  | y :: l' => if String.ltb y x then y :: insert_string x l' else x :: y :: l'
  end.

Definition sorted_strings (l : list string) : list string := foldr insert_string [] l.

(** ** compare_catalogs *)

(** Line 149: [del files[j]['links']['self']], as the file [f] it leaves. *)
Definition remove_self_link (f : json) : outcome json :=
  links ← getitem f "links";
  links' ← delitem links "self";
  setitem f "links" links'.

(** Lines 147-149, as the version [v] they leave. *)
Definition remove_self_links_of_version (v : json) : outcome json :=
  representation ← getitem v "representation";
  files ← getitem representation "files";
  fs ← items_by_index files;
  fs' ← for_all remove_self_link fs;
  match files with
  | JList _ =>
      representation' ← setitem representation "files" (JList fs');
      setitem v "representation" representation'
  | _ => Return v
  end.

(** Lines 145-149, as the entry they leave for one key of the catalog. *)
Definition remove_self_links_of_entry (entry : json) : outcome json :=
  has_versions ← contains "versions" entry;
  if has_versions : bool then
    versions ← getitem entry "versions";
    vs ← items_by_index versions;
    vs' ← for_all remove_self_links_of_version vs;
    match versions with
    | JList _ => setitem entry "versions" (JList vs')
    | _ => Return entry
    end
  else Return entry.

(** Lines 142-149: the keys that are allowed to differ are removed. *)
Definition remove_allowed_differences (c : json) : outcome json :=
  c1 ← delitem c "catalog_file_description";
  c2 ← delitem c1 "last_file_modification";
  match c2 with
  | JDict o items =>
      items' ← for_all (fun kv => e ← remove_self_links_of_entry (snd kv); Return (fst kv, e))
                 items;
      Return (JDict o items')
  | _ => Raise TypeError
  end.

(** [compare_catalogs(c1, c2)] *)
Definition compare_catalogs (c1 c2 : json) : outcome bool :=
  c1' ← remove_allowed_differences c1;
  c2' ← remove_allowed_differences c2;
  Return (py_eq c1' c2').

Section catalog.

(** The text of [catalog_file_description] (lines 2-132), the search of the
    regular expression [sxs_identifier_regex] of the package in a title, with
    the group [sxs_identifier] of the match, and Python's [str] of a value, as
    [format] writes it; their code is not part of the sources. *)
Variable catalog_file_description : string.
Variable sxs_identifier_search : string -> option string.
Variable py_str : json -> string.

(** ** catalog_from_representation_list *)

(** Line 170: the identifier in the title of a representation. *)
Definition search_title (r : json) : outcome (option string) :=
  title ← getitem r "title";
  match title with
  | JStr s => Return (sxs_identifier_search s)
  | _ => Raise TypeError
  end.

(** Line 173: [repr_by_sxs_id[sxs_id].append(r)] on a [defaultdict(list)]. *)
Fixpoint append_to (sxs_id : string) (r : json) (groups : list (string * list json))
    : list (string * list json) :=
  match groups with
  | [] => [(sxs_id, [r])]
  | (k, rs) :: groups' =>
      if String.eqb sxs_id k then (k, rs ++ [r]) :: groups'
      else (k, rs) :: append_to sxs_id r groups'
  end.

(** [repr_by_sxs_id[sxs_id]] on a [defaultdict(list)]. *)
Fixpoint lookup_group (sxs_id : string) (groups : list (string * list json)) : list json :=
  match groups with
  | [] => []
  | (k, rs) :: groups' => if String.eqb sxs_id k then rs else lookup_group sxs_id groups'
  end.

(** Lines 168-173. *)
Fixpoint group_by_sxs_id (representation_list : list json)
    (repr_by_sxs_id : list (string * list json)) : outcome (list (string * list json)) :=
  match representation_list with
  | [] => Return repr_by_sxs_id
  | r :: rest =>
      m ← search_title r;
      match m with
      | Some sxs_id => group_by_sxs_id rest (append_to sxs_id r repr_by_sxs_id)
      | None => group_by_sxs_id rest repr_by_sxs_id
      end
  end.

(** Line 176. *)
Definition last_file_modification (repr_by_sxs_id : list (string * list json))
    : outcome json :=
  modified ← for_all (fun r => getitem r "modified") (concat (map snd repr_by_sxs_id));
  s ← py_sorted (map (fun m => (m, tt)) modified);
  match last s with
  | Some (m, _) => Return m
  | None => Raise IndexError
  end.

(** Lines 180-183: the versions of one simulation, oldest first. *)
Definition versions (rs : list json) : outcome json :=
  created ← for_all (fun r => getitem r "created") rs;
  s ← py_sorted (zip created rs);
  Return (JList (map (fun kr => JDict false [("representation"%string, snd kr);
                                             ("sxs_metadata"%string, JDict false [])]) s)).

(** Lines 178-183: the entry of one simulation. *)
Definition entry (rs : list json) : outcome json :=
  match rs with
  | [] => Raise IndexError
  | r0 :: _ =>
      conceptrecid ← getitem r0 "conceptrecid";
      vs ← versions rs;
      Return (JDict false [("conceptrecid"%string, conceptrecid); ("versions"%string, vs)])
  end.

(** Lines 177-183: the loop over the identifiers in order. *)
Fixpoint add_entries (sxs_ids : list string) (repr_by_sxs_id : list (string * list json))
    (catalog : list (string * json)) : outcome (list (string * json)) :=
  match sxs_ids with
  | [] => Return catalog
  | sxs_id :: rest =>
      e ← entry (lookup_group sxs_id repr_by_sxs_id);
      add_entries rest repr_by_sxs_id (set_item sxs_id e catalog)
  end.

(** [catalog_from_representation_list(representation_list)] *)
Definition catalog_from_representation_list (representation_list : list json) : outcome json :=
  repr_by_sxs_id ← group_by_sxs_id representation_list [];
  m ← last_file_modification repr_by_sxs_id;
  catalog ← add_entries (sorted_strings (map fst repr_by_sxs_id)) repr_by_sxs_id
              [("catalog_file_description"%string, JStr catalog_file_description);
               ("last_file_modification"%string, m)];
  Return (JDict true catalog).

(** ** map *)

Definition newline : string := String (Ascii.ascii_of_nat 10) EmptyString.

(** Line 211: [256 * 2**math.ceil(math.log2(len(catalog)+1))], with the
    logarithm taken exactly. *)
Definition size (catalog : list (string * json)) : Z :=
  256 * 2 ^ Z.log2_up (Z.of_nat (length catalog) + 1).

(** Lines 215-218: whether every file name starts with [prefix]; the loop
    returns at the first one that does not. *)
Fixpoint all_start_with (prefix : string) (files : list json) : outcome bool :=
  match files with
  | [] => Return true
  | f :: files' =>
      filename ← getitem f "filename";
      match filename with
      | JStr s => if String.prefix prefix s then all_start_with prefix files' else Return false
      | _ => Raise AttributeError
      end
  end.

(** [catalog[sxs_id]] for a key of the catalog. *)
Definition catalog_entry (catalog : list (string * json)) (sxs_id : string) : outcome json :=
  match lookup_item sxs_id catalog with
  | Some e => Return e
  | None => Raise (KeyError sxs_id)
  end.

(** Lines 212-218. *)
Definition file_prefix (catalog : list (string * json)) (sxs_id : string) : outcome string :=
  let prefix := (sxs_id +:+ "/")%string in
  e ← catalog_entry catalog sxs_id;
  files ← getitem e "files";
  fs ← iterate files;
  b ← all_start_with prefix fs;
  Return (if b : bool then prefix else ""%string).

(** Lines 219 and 226: one line of the first loop. *)
Definition record_line (catalog : list (string * json)) (sxs_identifier : string)
    : outcome string :=
  e ← catalog_entry catalog sxs_identifier;
  id ← getitem e "id";
  Return ("    /waveforms/data/" +:+ sxs_identifier +:+ " record/" +:+ py_str id +:+ ";"
          +:+ newline)%string.

(** Lines 220 and 228: one line of the second loop. *)
Definition file_line (catalog : list (string * json)) (sxs_identifier : string)
    : outcome string :=
  e ← catalog_entry catalog sxs_identifier;
  id ← getitem e "id";
  p ← file_prefix catalog sxs_identifier;
  Return ("    ~/waveforms/data/" +:+ sxs_identifier +:+ "/(.*) record/" +:+ py_str id
          +:+ "/files/" +:+ p +:+ "$1;" +:+ newline)%string.

(** A loop that writes one line per identifier: the lines written, and the
    exception that ended the loop, if any. *)
Fixpoint write_each (line : string -> outcome string) (sxs_identifiers : list string)
    : list string * option error :=
  match sxs_identifiers with
  | [] => ([], None)
  | sxs_identifier :: rest =>
      match line sxs_identifier with
      | Return l => let '(ls, e) := write_each line rest in (l :: ls, e)
      | Raise e => ([], Some e)
      end
  end.

(** Lines 221-229, for the catalog read from the file, a JSON object: the
    strings written to the map file, in order, and the exception raised, if
    any. *)
Definition map (catalog : list (string * json)) : list string * option error :=
  let sxs_identifiers := sorted_strings (keys catalog) in
  let header :=
    [("map_hash_max_size " +:+ py_str (JInt (size catalog)) +:+ ";" +:+ newline)%string;
     ("map $uri $zenodo_identifier {" +:+ newline)%string;
     ("    default communities/sxs;" +:+ newline)%string] in
  match write_each (record_line catalog) sxs_identifiers with
  | (records, Some e) => (header ++ records, Some e)
  | (records, None) =>
      match write_each (file_line catalog) sxs_identifiers with
      | (files, Some e) => (header ++ records ++ files, Some e)
      | (files, None) => (header ++ records ++ files ++ [("}" +:+ newline)%string], None)
      end
  end.

End catalog.

End Catalog.

(** ** Predicates on catalogs used in the statements *)

(** Whether the title of the representation [r] holds the identifier
    [sxs_id]. *)
Definition has_identifier (sxs_identifier_search : string -> option string)
    (sxs_id : string) (r : Catalog.json) : bool :=
  match Catalog.search_title sxs_identifier_search r with
  | Catalog.Return (Some k) => String.eqb sxs_id k
  | _ => false
  end.

(** No string of the list is less than one before it. *)
Definition ascending (l : list string) : Prop :=
  forall (i k : nat) (a b : string),
    l !! i = Some a -> l !! k = Some b -> (i < k)%nat -> String.ltb b a = false.

(** One version of a simulation in the catalog (line 181). *)
Definition version_of (r : Catalog.json) : Catalog.json :=
  Catalog.JDict false [("representation"%string, r);
                       ("sxs_metadata"%string, Catalog.JDict false [])].

(** Every dict inside the value has each of its keys once, as in every value
    that Python builds or that [json.load] returns. *)
Fixpoint unique_keys (v : Catalog.json) : Prop :=
  match v with
  | Catalog.JList l =>
      (fix go (l : list Catalog.json) : Prop :=
         match l with
         | [] => True
         | x :: l => unique_keys x /\ go l
         end) l
  | Catalog.JDict _ items =>
      NoDup (Catalog.keys items) /\
      (fix go (d : list (string * Catalog.json)) : Prop :=
         match d with
         | [] => True
         | (_, x) :: d => unique_keys x /\ go d
         end) items
  | _ => True
  end.

(** ** Examples of representations and catalogs *)

(** A search that finds the identifiers [SXS:BBH:] with four more characters
    at the start of a title. *)
Definition example_sxs_identifier_search (title : string) : option string :=
  if String.prefix "SXS:BBH:" title then Some (String.substring 0 12 title) else None.

(** [str] of an integer and of a string. *)
Definition example_str (v : Catalog.json) : string :=
  match v with
  | Catalog.JInt z => pretty z
  | Catalog.JStr s => s
  | _ => EmptyString
  end.

Definition example_file (filename : string) : Catalog.json :=
  Catalog.JDict false
    [("filename"%string, Catalog.JStr filename);
     ("links"%string,
      Catalog.JDict false [("download"%string, Catalog.JStr "https://zenodo.org/api/files");
                           ("self"%string, Catalog.JStr "https://zenodo.org/api/deposit")])].

Definition example_representation (title created modified conceptrecid : string)
    : Catalog.json :=
  Catalog.JDict false
    [("conceptrecid"%string, Catalog.JStr conceptrecid);
     ("created"%string, Catalog.JStr created);
     ("files"%string, Catalog.JList [example_file "metadata.json"]);
     ("modified"%string, Catalog.JStr modified);
     ("title"%string, Catalog.JStr title)].

(** Two versions of one simulation, the newer listed first, one version of
    another, and a record that is no simulation. *)
Definition example_representations : list Catalog.json :=
  [example_representation "SXS:BBH:0002 version 2" "2019-03-01" "2020-01-01" "200";
   example_representation "SXS:BBH:0001" "2018-05-01" "2018-06-01" "100";
   example_representation "SXS:BBH:0002 version 1" "2017-11-01" "2017-12-01" "200";
   example_representation "Notes" "2016-01-01" "2021-01-01" "300"].

(** The catalog of the example. *)
Definition example_catalog : Catalog.json :=
  match Catalog.catalog_from_representation_list "description" example_sxs_identifier_search
          example_representations with
  | Catalog.Return c => c
  | Catalog.Raise _ => Catalog.JNull
  end.

(** A catalog of records, as [map] reads it. *)
Definition example_records : list (string * Catalog.json) :=
  [("SXS:BBH:0002"%string,
    Catalog.JDict false [("id"%string, Catalog.JInt 200);
                         ("files"%string, Catalog.JList [example_file "Lev1/metadata.json"])]);
   ("SXS:BBH:0001"%string,
    Catalog.JDict false
      [("id"%string, Catalog.JInt 100);
       ("files"%string, Catalog.JList [example_file "SXS:BBH:0001/metadata.json"])])].

(** * Properties

    ** numpy: linspace *)

Lemma set_last_lookup {A} (y : list A) (v : A) (i : nat) :
  (i < length y)%nat ->
  np.set_last y v !! i = if decide (i = pred (length y)) then Some v else y !! i.
Proof.
  intros Hi. unfold np.set_last. destruct y as [|a y]; [simpl in Hi; lia|].
  set (l := a :: y) in *.
  rewrite removelast_firstn_len.
  case_decide as Hd.
  - rewrite lookup_app_r; rewrite length_take; [|lia].
    replace (i - _)%nat with 0%nat by lia. done.
  - rewrite lookup_app_l; [|rewrite length_take; lia].
    rewrite lookup_take_lt; [done | lia].
Qed.

Lemma length_set_last {A} (y : list A) v : length (np.set_last y v) = length y.
Proof.
  unfold np.set_last. destruct y as [|a y]; [done|].
  rewrite length_app, removelast_firstn_len, length_take. simpl. lia.
Qed.

Lemma length_linspace a b n e : length (np.linspace a b n e) = n.
Proof.
  unfold np.linspace. destruct (e && (1 <? n)%nat).
  - by rewrite length_set_last, length_map, length_seq.
  - by rewrite length_map, length_seq.
Qed.

Lemma linspace_lookup_endpoint a b n i :
  (2 <= n)%nat -> (i < n)%nat ->
  np.linspace a b n true !! i = Some (a + INR i * ((b - a) / INR (n - 1))).
Proof.
  intros Hn Hi. unfold np.linspace.
  assert ((1 <? n)%nat = true) as -> by (apply Nat.ltb_lt; lia). simpl.
  rewrite set_last_lookup; [|rewrite length_map, length_seq; lia].
  rewrite length_map, length_seq.
  assert (INR (n - 1) <> 0) by (apply not_0_INR; lia).
  case_decide as Hd.
  - f_equal. subst i. replace (Init.Nat.pred n) with (n - 1)%nat by lia. field. done.
  - rewrite list_lookup_fmap, lookup_seq_lt; [|lia]. simpl. f_equal. lra.
Qed.

Lemma linspace_lookup_open a b n i :
  (i < n)%nat ->
  np.linspace a b n false !! i = Some (a + INR i * ((b - a) / INR n)).
Proof.
  intros Hi. unfold np.linspace. simpl.
  rewrite list_lookup_fmap, lookup_seq_lt; [|lia]. simpl. f_equal. lra.
Qed.

Lemma linspace_one a b : np.linspace a b 1 true = [a].
Proof. unfold np.linspace. simpl. f_equal. lra. Qed.

Lemma linspace_bounds a b n x :
  a <= b -> x ∈ np.linspace a b n true -> a <= x <= b.
Proof.
  intros Hab Hx. apply list_elem_of_lookup in Hx as [i Hi].
  assert (i < n)%nat as Hlt.
  { apply lookup_lt_Some in Hi. by rewrite length_linspace in Hi. }
  destruct (decide (n = 1%nat)) as [->|Hn1].
  - rewrite linspace_one in Hi. destruct i; [|simpl in Hi; done].
    simpl in Hi. inversion Hi; subst. lra.
  - rewrite linspace_lookup_endpoint in Hi; [|lia..]. inversion Hi; subst x. clear Hi.
    assert (0 < INR (n - 1)) by (apply lt_0_INR; lia).
    assert (0 <= INR i) by apply pos_INR.
    assert (INR i <= INR (n - 1)) by (apply le_INR; lia).
    assert (0 <= (b - a) / INR (n - 1)).
    { apply Rmult_le_pos; [lra|]. left. by apply Rinv_0_lt_compat. }
    split; [nra|].
    assert (INR i * ((b - a) / INR (n - 1)) <= INR (n-1) * ((b - a) / INR (n - 1))) by nra.
    replace (INR (n - 1) * ((b - a) / INR (n - 1))) with (b - a) in * by (field; lra).
    lra.
Qed.

(** ** The window mask and the reference times of align1d *)

Lemma in_window_spec t1 t2 x : in_window t1 t2 x = true <-> t1 <= x <= t2.
Proof.
  unfold in_window. destruct (Rge_dec x t1), (Rle_dec x t2); simpl; split;
    intros; try done; lra.
Qed.

Lemma window_mask_map ts t1 t2 : window_mask ts t1 t2 = map (in_window t1 t2) ts.
Proof. reflexivity. Qed.

Lemma boolean_index_map {A B} (f : A -> bool) (a : list A) (b : list B) :
  length b = length a ->
  np.boolean_index b (map f a) = (List.filter (fun p => f (fst p)) (zip a b)).*2.
Proof.
  revert b. induction a as [|x a IH]; intros [|y b] Hlen; simpl in *; try done.
  destruct (f x); simpl; rewrite IH by lia; done.
Qed.

Lemma boolean_index_filter {A} (f : A -> bool) (a : list A) :
  np.boolean_index a (map f a) = List.filter f a.
Proof.
  induction a as [|x a IH]; simpl; [done|]. destruct (f x); by rewrite IH.
Qed.

Lemma t_reference1d_filter wa t1 t2 :
  Align1d.t_reference wa t1 t2 = List.filter (in_window t1 t2) (t wa).
Proof. unfold Align1d.t_reference. rewrite window_mask_map. apply boolean_index_filter. Qed.

Lemma t_reference1d_elem wa t1 t2 u :
  u ∈ Align1d.t_reference wa t1 t2 <-> u ∈ t wa /\ t1 <= u <= t2.
Proof.
  rewrite t_reference1d_filter, !list_elem_of_In, filter_In, in_window_spec. done.
Qed.

(** ** align1d: the shifted window stays inside wb *)

Lemma δt_bounds_shift wb_first wb_last t1 t2 δt u :
  Align1d.δt_lower wb_first t1 t2 <= δt <= Align1d.δt_upper wb_last t1 t2 ->
  t1 <= u <= t2 -> wb_first <= u + δt <= wb_last.
Proof.
  unfold Align1d.δt_lower, Align1d.δt_upper. intros [Hl Hu] [H1 H2].
  pose proof (Rmax_r (t1 - t2) (wb_first - t1)).
  pose proof (Rmin_r (t2 - t1) (wb_last - t2)). lra.
Qed.

Lemma δt_bounds_ordered wb_first wb_last t1 t2 :
  t1 < t2 -> wb_first <= t1 -> t2 <= wb_last ->
  Align1d.δt_lower wb_first t1 t2 <= 0 <= Align1d.δt_upper wb_last t1 t2.
Proof.
  unfold Align1d.δt_lower, Align1d.δt_upper. intros.
  split; [apply Rmax_lub | apply Rmin_glb]; lra.
Qed.

Lemma evaluation_times_inside wa wb_first wb_last t1 t2 δt x :
  Align1d.δt_lower wb_first t1 t2 <= δt <= Align1d.δt_upper wb_last t1 t2 ->
  x ∈ Align1d.evaluation_times wa t1 t2 δt -> wb_first <= x <= wb_last.
Proof.
  intros Hδ Hx. unfold Align1d.evaluation_times in Hx.
  apply list_elem_of_fmap in Hx as (u & -> & Hu).
  apply t_reference1d_elem in Hu as [_ Hu].
  by apply δt_bounds_shift with t1 t2.
Qed.

(** [cost] reads the interpolant of wb's norm at the evaluation times only. *)
Lemma cost1d_reads_evaluation_times (S S' : Scipy) wa wb t1 t2 δt :
  (forall x, x ∈ Align1d.evaluation_times wa t1 t2 δt ->
     @Align1d.norm_b S wb x = @Align1d.norm_b S' wb x) ->
  @Align1d.cost S wa wb t1 t2 δt = @Align1d.cost S' wa wb t1 t2 δt.
Proof.
  intros Hagree. unfold Align1d.cost. do 4 f_equal.
  apply list_eq_Forall2, Forall2_fmap, Forall_Forall2_diag, Forall_forall.
  intros x Hx. apply Hagree. done.
Qed.

(** ** align1d: the cost function *)

Lemma boolean_index_map_fst {A B} (f : A -> bool) (a : list A) (b : list B) :
  length b = length a ->
  np.boolean_index a (map f a) = (List.filter (fun p => f (fst p)) (zip a b)).*1.
Proof.
  revert b. induction a as [|x a IH]; intros [|y b] Hlen; simpl in *; try done.
  destruct (f x); simpl; rewrite (IH b) by lia; done.
Qed.

Lemma samples_times wa t1 t2 :
  length (norm wa) = length (t wa) ->
  Align1d.t_reference wa t1 t2 = (Spec1d.samples wa t1 t2).*1.
Proof. intros Hlen. by apply boolean_index_map_fst. Qed.

Lemma samples_norms wa t1 t2 :
  length (norm wa) = length (t wa) ->
  Align1d.norm_a wa t1 t2 = (Spec1d.samples wa t1 t2).*2.
Proof. intros Hlen. by apply boolean_index_map. Qed.

Lemma trapezoid_cons2 (fa fb : R) (y : list R) (a b : R) (x : list R) :
  np.trapezoid (fa :: fb :: y) (a :: b :: x)
  = (b - a) * (fa + fb) / 2 + np.trapezoid (fb :: y) (b :: x).
Proof. unfold np.trapezoid, np.diff. simpl. lra. Qed.

Lemma trapezoid_quadrature {A} (h : A -> R) (g : A -> R) (P : list A) :
  np.trapezoid (map h P) (map g P) = Spec1d.quadrature (map (fun p => (g p, h p)) P).
Proof.
  induction P as [|p [|q P] IH]; [reflexivity..|].
  change (map h (p :: q :: P)) with (h p :: h q :: map h P).
  change (map g (p :: q :: P)) with (g p :: g q :: map g P).
  rewrite trapezoid_cons2. simpl in IH |- *. rewrite IH. lra.
Qed.

Lemma zip_with_projections {A B D E} (f : B -> D -> E) (g : A -> D) (P : list (A * B)) :
  zip_with f (P.*2) (map g (P.*1)) = map (fun p => f (snd p) (g (fst p))) P.
Proof. induction P as [|p P IH]; simpl; [done|]. f_equal. exact IH. Qed.

Lemma cost1d_spec {S : Scipy} wa wb t1 t2 δt :
  length (norm wa) = length (t wa) ->
  Align1d.cost wa wb t1 t2 δt = Spec1d.cost wa wb t1 t2 δt.
Proof.
  intros Hlen. unfold Align1d.cost, Spec1d.cost, Align1d.normalization, Align1d.norm_b.
  rewrite samples_times, samples_norms by done.
  set (P := Spec1d.samples wa t1 t2).
  rewrite <- list_fmap_compose.
  rewrite (zip_with_projections (fun a b => (a - b) ^ 2)
             (CubicSpline (t wb) (norm wb) ∘ (fun x => x + δt)) P).
  rewrite (trapezoid_quadrature _ fst).
  rewrite <- list_fmap_compose.
  rewrite (trapezoid_quadrature ((fun a => a ^ 2) ∘ snd) fst).
  reflexivity.
Qed.


(** ** numpy: argmin *)

Lemma argmin_from_first_minimum (a pre : list R) (bi : nat) (b : R) :
  first_minimum pre bi -> pre !! bi = Some b ->
  first_minimum (pre ++ a) (np.argmin_from bi b (length pre) a).
Proof.
  revert pre bi b. induction a as [|x a IH]; intros pre bi b Hmin Hb; simpl.
  - by rewrite app_nil_r.
  - destruct Hmin as (v & Hv & Hle & Hfirst).
    assert (v = b) as -> by congruence.
    replace (pre ++ x :: a) with ((pre ++ [x]) ++ a) by (by rewrite <- app_assoc).
    replace (S (length pre)) with (length (pre ++ [x])) by (rewrite length_app; simpl; lia).
    destruct (Rlt_dec x b) as [Hlt|Hge].
    + replace (length pre) with (length pre + 0)%nat at 1 by lia.
      apply IH.
      * exists x. split_and!.
        -- rewrite lookup_app_r by lia. by replace (_ - _)%nat with 0%nat by lia.
        -- intros y Hy. apply elem_of_app in Hy as [Hy|Hy].
           ++ apply Hle in Hy. lra.
           ++ apply list_elem_of_singleton in Hy. subst. lra.
        -- intros i y Hi Hy. rewrite lookup_app_l in Hy by lia.
           apply list_elem_of_lookup_2 in Hy. apply Hle in Hy. lra.
      * rewrite lookup_app_r by lia. by replace (_ - _)%nat with 0%nat by lia.
    + apply IH.
      * exists b. split_and!.
        -- apply lookup_app_l_Some. done.
        -- intros y Hy. apply elem_of_app in Hy as [Hy|Hy].
           ++ by apply Hle.
           ++ apply list_elem_of_singleton in Hy. subst. lra.
        -- intros i y Hi Hy. apply lookup_lt_Some in Hv.
           rewrite lookup_app_l in Hy by lia. by eapply Hfirst.
      * by apply lookup_app_l_Some.
Qed.

Lemma argmin_first_minimum (l : list R) (k : nat) :
  np.argmin l = Ok k -> first_minimum l k.
Proof.
  destruct l as [|x l]; simpl; [done|]. intros [= <-].
  apply (argmin_from_first_minimum l [x] 0 x); [|done].
  exists x. split_and!; [done| |intros; lia].
  intros y Hy. apply list_elem_of_singleton in Hy. subst. lra.
Qed.

Lemma argmin_nonempty (l : list R) :
  l <> [] -> exists k, np.argmin l = Ok k.
Proof. destruct l; [done|]. intros _. simpl. eauto. Qed.


(** The brute-force seed of align1d minimises the cost over the grid. *)
Lemma brute_force1d_minimises {S : Scipy} wa wb t1 t2 grid δ0 :
  Align1d.brute_force wa wb t1 t2 grid = Ok δ0 ->
  δ0 ∈ grid /\
  forall δ, δ ∈ grid -> Align1d.cost wa wb t1 t2 δ0 <= Align1d.cost wa wb t1 t2 δ.
Proof.
  unfold Align1d.brute_force. intros Hbf.
  destruct (np.argmin _) as [k|] eqn:Hk; simpl in Hbf; [|done].
  destruct (grid !! k) as [δ|] eqn:Hδ; [|done]. injection Hbf as ->.
  apply argmin_first_minimum in Hk as (v & Hv & Hle & _).
  rewrite list_lookup_fmap, Hδ in Hv. injection Hv as <-.
  split; [by eapply list_elem_of_lookup_2|].
  intros δ Hin. apply Hle. by apply list_elem_of_fmap_2.
Qed.

(** C1: the cost of align1d is
    [sqrt( ∫_T (norm_a(t) − norm_b(t+δt))² dt / ∫_T norm_a(t)² dt )]: the
    reference times [T] are exactly the sample times of wa in [[t1, t2]], in
    order, [norm_a] is wa's norm at those samples, [norm_b] is the cubic spline
    of wb's norm over wb's own times, and both integrals are trapezoidal sums
    over [T].  This cost is what the brute-force search minimises over its
    grid and what the solver is handed. *)
Theorem align1d_cost_is_normalised_mismatch
    {S : Scipy} (wa wb : WaveformModes) (t1 t2 : R) :
  length (data wa) = length (t wa) ->
  Align1d.t_reference wa t1 t2 = List.filter (in_window t1 t2) (t wa) /\
  (forall u : R, u ∈ Align1d.t_reference wa t1 t2 <-> u ∈ t wa /\ t1 <= u <= t2) /\
  Align1d.t_reference wa t1 t2 = (Spec1d.samples wa t1 t2).*1 /\
  Align1d.norm_a wa t1 t2 = (Spec1d.samples wa t1 t2).*2 /\
  (forall x : R, Align1d.norm_b wb x = CubicSpline (t wb) (norm wb) x) /\
  (forall δt : R, Align1d.cost wa wb t1 t2 δt = Spec1d.cost wa wb t1 t2 δt) /\
  (forall (grid : list R) (δ0 : R),
     Align1d.brute_force wa wb t1 t2 grid = Ok δ0 ->
     δ0 ∈ grid /\
     forall δ : R, δ ∈ grid -> Spec1d.cost wa wb t1 t2 δ0 <= Spec1d.cost wa wb t1 t2 δ) /\
  (forall lower upper δ0 : R,
     Align1d.refine wa wb t1 t2 lower upper δ0
     = least_squares (fun x => Spec1d.cost wa wb t1 t2 (nth 0 x 0)) [δ0] [lower] [upper]).
Proof.
  intros Hdata.
  assert (length (norm wa) = length (t wa)) as Hlen.
  { unfold norm. by rewrite length_map. }
  split_and!.
  - apply t_reference1d_filter.
  - apply t_reference1d_elem.
  - by apply samples_times.
  - by apply samples_norms.
  - reflexivity.
  - intros. by apply cost1d_spec.
  - intros grid δ0 Hbf. apply brute_force1d_minimises in Hbf as [Hin Hmin].
    split; [done|]. intros δ Hδ. rewrite <- !cost1d_spec by done. by apply Hmin.
  - intros. unfold Align1d.refine. f_equal.
    apply functional_extensionality. intros x. by apply cost1d_spec.
Qed.

(** ** Running computations on the store *)

Lemma with_events_nil σ : with_events σ [] = σ.
Proof. destruct σ. unfold with_events. simpl. by rewrite app_nil_r. Qed.

Lemma with_events_app σ evs evs' :
  with_events (with_events σ evs) evs' = with_events σ (evs ++ evs').
Proof. unfold with_events. simpl. by rewrite app_assoc. Qed.

Lemma spans_with_events σ evs l w x y :
  spans σ l w x y -> spans (with_events σ evs) l w x y.
Proof. done. Qed.

Lemma run_bind_ok {A B} (m : M A) (k : A -> M B) σ a σ' :
  m σ = (Ok a, σ') -> bind m k σ = k a σ'.
Proof. unfold bind. by intros ->. Qed.

Lemma run_bind_err {A B} (m : M A) (k : A -> M B) σ e σ' :
  m σ = (Err e, σ') -> bind m k σ = (Err e, σ').
Proof. unfold bind. by intros ->. Qed.

Lemma run_deref σ l w : heap σ !! l = Some w -> deref l σ = (Ok w, σ).
Proof. unfold deref. by intros ->. Qed.

Lemma run_emit σ e : emit e σ = (Ok tt, with_events σ [e]).
Proof. done. Qed.

Lemma run_read σ l w :
  heap σ !! l = Some w -> read l σ = (Ok w, with_events σ [EvRead l]).
Proof. intros Hl. unfold read. by rewrite (run_bind_ok _ _ _ _ _ (run_deref _ _ _ Hl)). Qed.

Lemma run_get_time_first σ l w x y :
  spans σ l w x y -> get_time l 0 σ = (Ok x, with_events σ [EvGetTime l 0]).
Proof.
  intros (Hl & Hx & _). unfold get_time.
  rewrite (run_bind_ok _ _ _ _ _ (run_deref _ _ _ Hl)).
  rewrite (run_bind_ok _ _ _ _ _ (run_emit _ _)).
  destruct (t w) as [|x' ts] eqn:Ht; [done|]. injection Hx as ->.
  unfold np.item_index. simpl.
  replace (0 <? Z.pos (Pos.of_succ_nat (length ts)))%Z with true by (symmetry; apply Z.ltb_lt; lia).
  done.
Qed.

Lemma run_get_time_last σ l w x y :
  spans σ l w x y -> get_time l (-1) σ = (Ok y, with_events σ [EvGetTime l (-1)]).
Proof.
  intros (Hl & Hx & Hy). unfold get_time.
  rewrite (run_bind_ok _ _ _ _ _ (run_deref _ _ _ Hl)).
  rewrite (run_bind_ok _ _ _ _ _ (run_emit _ _)).
  destruct (t w) as [|x' ts] eqn:Ht; [done|].
  unfold np.item_index.
  replace (-1 <? 0)%Z with true by done.
  replace (-1 + Z.of_nat (length (x' :: ts)) <? 0)%Z with false
    by (symmetry; apply Z.ltb_ge; simpl; lia).
  rewrite last_lookup in Hy.
  replace (Z.to_nat (-1 + Z.of_nat (length (x' :: ts)))) with (Init.Nat.pred (length (x' :: ts)))
    by (simpl; lia).
  by rewrite Hy.
Qed.

(** The containment check of one waveform. *)
Lemma run_check_contained name σ l w x y t1 t2 :
  spans σ l w x y ->
  exists evs, Forall (endpoint_read [l]) evs /\
    check_contained name l t1 t2 σ
    = (if Rgt_dec x t1 then Err (ValueError (NotContained name t1 t2 x y))
       else if Rlt_dec y t2 then Err (ValueError (NotContained name t1 t2 x y))
       else Ok tt,
       with_events σ evs).
Proof.
  intros Hs. unfold check_contained.
  assert (forall i, i = 0%Z \/ i = (-1)%Z -> endpoint_read [l] (EvGetTime l i)) as Hev.
  { intros i Hi. split; [apply list_elem_of_singleton; done | done]. }
  rewrite (run_bind_ok _ _ _ _ _ (run_get_time_first _ _ _ _ _ Hs)).
  destruct (Rgt_dec x t1).
  - rewrite (run_bind_ok _ _ _ _ _ (run_get_time_first _ _ _ _ _ (spans_with_events _ _ _ _ _ _ Hs))).
    rewrite (run_bind_ok _ _ _ _ _ (run_get_time_last _ _ _ _ _
               (spans_with_events _ _ _ _ _ _ (spans_with_events _ _ _ _ _ _ Hs)))).
    unfold raise. rewrite !with_events_app. eexists. split; [|reflexivity].
    repeat constructor; apply Hev; auto.
  - rewrite (run_bind_ok _ _ _ _ _ (run_get_time_last _ _ _ _ _ (spans_with_events _ _ _ _ _ _ Hs))).
    rewrite with_events_app.
    destruct (Rlt_dec y t2).
    + rewrite (run_bind_ok _ _ _ _ _ (run_get_time_first _ _ _ _ _ (spans_with_events _ _ _ _ _ _ Hs))).
      rewrite (run_bind_ok _ _ _ _ _ (run_get_time_last _ _ _ _ _
               (spans_with_events _ _ _ _ _ _ (spans_with_events _ _ _ _ _ _ Hs)))).
      unfold raise. rewrite !with_events_app. eexists. split; [|reflexivity].
      repeat constructor; apply Hev; auto.
    + unfold ret. eexists. split; [|reflexivity].
      repeat constructor; apply Hev; auto.
Qed.

Lemma endpoint_read_mono ls ls' e :
  ls ⊆ ls' -> endpoint_read ls e -> endpoint_read ls' e.
Proof. intros Hsub. destruct e; simpl; try done. intros [Hl Hi]. split; [by apply Hsub | done]. Qed.

(** The window validation: it reads end times only, leaves the store as it
    is, and raises exactly when one of its three checks fails. *)
Lemma run_validate σ wa wb a b a_first a_last b_first b_last t1 t2 :
  spans σ wa a a_first a_last -> spans σ wb b b_first b_last ->
  exists evs, Forall (endpoint_read [wa; wb]) evs /\
    ((window_ok t1 t2 a_first a_last b_first b_last /\
      validate wa wb t1 t2 σ = (Ok tt, with_events σ evs)) \/
     (~ window_ok t1 t2 a_first a_last b_first b_last /\
      exists e, InvalidWindow e /\ validate wa wb t1 t2 σ = (Err e, with_events σ evs))).
Proof.
  intros Ha Hb. unfold validate, window_ok.
  destruct (Rle_dec t2 t1) as [Hle|Hlt].
  { exists []. split; [constructor|]. right. split; [lra|].
    eexists. split; [|unfold bind, raise; rewrite with_events_nil; reflexivity]. done. }
  rewrite (run_bind_ok (ret tt) _ σ tt σ eq_refl).
  destruct (run_check_contained Wa σ wa a a_first a_last t1 t2 Ha) as (evs1 & Hev1 & Hrun1).
  assert (Forall (endpoint_read [wa; wb]) evs1) as Hev1'.
  { eapply Forall_impl; [exact Hev1|]. intros e. apply endpoint_read_mono.
    intros l Hl. apply elem_of_cons. left. by apply list_elem_of_singleton in Hl. }
  destruct (Rgt_dec a_first t1).
  { exists evs1. split; [done|]. right. split; [lra|].
    eexists. split; [|rewrite (run_bind_err _ _ _ _ _ Hrun1); reflexivity]. done. }
  destruct (Rlt_dec a_last t2).
  { exists evs1. split; [done|]. right. split; [lra|].
    eexists. split; [|rewrite (run_bind_err _ _ _ _ _ Hrun1); reflexivity]. done. }
  rewrite (run_bind_ok _ _ _ _ _ Hrun1).
  destruct (run_check_contained Wb (with_events σ evs1) wb b b_first b_last t1 t2
              (spans_with_events _ _ _ _ _ _ Hb)) as (evs2 & Hev2 & Hrun2).
  rewrite with_events_app in Hrun2.
  assert (Forall (endpoint_read [wa; wb]) (evs1 ++ evs2)) as Hev.
  { apply Forall_app. split; [done|].
    eapply Forall_impl; [exact Hev2|]. intros e. apply endpoint_read_mono.
    intros l Hl. apply elem_of_cons. by right. }
  exists (evs1 ++ evs2). split; [done|]. rewrite Hrun2.
  destruct (Rgt_dec b_first t1); [right; split; [lra|]; eexists; split; [|reflexivity]; done|].
  destruct (Rlt_dec b_last t2); [right; split; [lra|]; eexists; split; [|reflexivity]; done|].
  left. split; [lra | done].
Qed.

(** ** Objects that a computation leaves as they are *)

Lemma pe_ret {A} ls (a : A) : preserves_except ls (ret a).
Proof. by intros σ l w Hl _. Qed.

Lemma pe_raise {A} ls e : preserves_except ls (@raise A e).
Proof. by intros σ l w Hl _. Qed.

Lemma pe_lift {A} ls (r : result A) : preserves_except ls (lift r).
Proof. by intros σ l w Hl _. Qed.

Lemma pe_bind {A B} ls (m : M A) (k : A -> M B) :
  preserves_except ls m -> (forall a, preserves_except ls (k a)) ->
  preserves_except ls (bind m k).
Proof.
  intros Hm Hk σ l w Hl Hnot. specialize (Hm σ l w Hl Hnot).
  unfold bind. destruct (m σ) as [[a|e] σ'] eqn:Hrun; simpl in *; [|done].
  by apply Hk.
Qed.

Lemma pe_emit ls e : preserves_except ls (emit e).
Proof. by intros σ l w Hl _. Qed.

Lemma pe_deref ls l0 : preserves_except ls (deref l0).
Proof. intros σ l w Hl _. unfold deref. by destruct (heap σ !! l0). Qed.

Lemma pe_get_time ls l0 i : preserves_except ls (get_time l0 i).
Proof.
  unfold get_time. apply pe_bind; [apply pe_deref|]. intros a.
  apply pe_bind; [apply pe_emit|]. intros _.
  destruct (np.item_index _ _); [|apply pe_raise].
  destruct (t a !! _); [apply pe_ret | apply pe_raise].
Qed.

Lemma pe_read ls l0 : preserves_except ls (read l0).
Proof.
  unfold read. apply pe_bind; [apply pe_deref|]. intros a.
  apply pe_bind; [apply pe_emit|]. intros _. apply pe_ret.
Qed.

Lemma fresh_lookup (h : gmap loc WaveformModes) : h !! fresh (dom h) = None.
Proof. apply not_elem_of_dom. apply is_fresh. Qed.

Lemma pe_copy ls l0 : preserves_except ls (copy l0).
Proof.
  unfold copy. apply pe_bind; [apply pe_deref|]. intros a σ l w Hl _. simpl.
  rewrite lookup_insert_ne; [done|]. intros <-. by rewrite fresh_lookup in Hl.
Qed.

Lemma pe_new_waveform ls w0 : preserves_except ls (new_waveform w0).
Proof.
  intros σ l w Hl _. simpl.
  rewrite lookup_insert_ne; [done|]. intros <-. by rewrite fresh_lookup in Hl.
Qed.

Lemma pe_zero_mode ls l0 col : l0 ∈ ls -> preserves_except ls (zero_mode l0 col).
Proof.
  intros Hin. unfold zero_mode. apply pe_bind; [apply pe_deref|]. intros a.
  destruct (np.item_index _ _); [|apply pe_raise].
  intros σ l w Hl Hnot. simpl. rewrite lookup_insert_ne; [done|]. by intros <-.
Qed.

Lemma pe_for_each {A} ls (l : list A) (body : A -> M unit) :
  (forall a, preserves_except ls (body a)) -> preserves_except ls (for_each l body).
Proof.
  intros Hbody. induction l as [|a l IH]; simpl; [apply pe_ret|].
  apply pe_bind; [apply Hbody | by intros _].
Qed.

Lemma pe_validate ls wa wb t1 t2 : preserves_except ls (validate wa wb t1 t2).
Proof.
  assert (forall name l, preserves_except ls (check_contained name l t1 t2)) as Hc.
  { intros name l. unfold check_contained.
    apply pe_bind; [apply pe_get_time|]. intros x.
    destruct (Rgt_dec x t1).
    - apply pe_bind; [apply pe_get_time|]. intros a.
      apply pe_bind; [apply pe_get_time|]. intros b. apply pe_raise.
    - apply pe_bind; [apply pe_get_time|]. intros y.
      destruct (Rlt_dec y t2); [|apply pe_ret].
      apply pe_bind; [apply pe_get_time|]. intros a.
      apply pe_bind; [apply pe_get_time|]. intros b. apply pe_raise. }
  unfold validate. apply pe_bind.
  - destruct (Rle_dec t2 t1); [apply pe_raise | apply pe_ret].
  - intros _. apply pe_bind; [apply Hc | intros _; apply Hc].
Qed.

Lemma pe_body1d {S : Scipy} wa wb t1 t2 n :
  preserves_except [] (Align1d.body wa wb t1 t2 n).
Proof.
  unfold Align1d.body.
  apply pe_bind; [apply pe_get_time|]. intros x.
  apply pe_bind; [apply pe_get_time|]. intros y.
  apply pe_bind; [apply pe_read|]. intros a.
  apply pe_bind; [apply pe_read|]. intros b. apply pe_lift.
Qed.

Lemma pe_remove_modes la lb ell_max include_modes :
  preserves_except [la; lb] (Align2d.remove_modes la lb ell_max include_modes).
Proof.
  unfold Align2d.remove_modes. destruct include_modes as [modes|]; [|apply pe_ret].
  apply pe_for_each. intros lm. destruct (Align2d.mode_in lm modes); [apply pe_ret|].
  apply pe_bind; [apply pe_deref|]. intros a.
  apply pe_bind; [apply pe_zero_mode; apply elem_of_cons; by left|]. intros _.
  apply pe_bind; [apply pe_deref|]. intros b.
  apply pe_zero_mode. apply elem_of_cons. right. by apply list_elem_of_singleton.
Qed.

Lemma pe_body2d {S : Scipy} wa la lb t1 t2 n_δt n_δϕ include_modes :
  preserves_except [la; lb] (Align2d.body wa la lb t1 t2 n_δt n_δϕ include_modes).
Proof.
  unfold Align2d.body.
  apply pe_bind; [apply pe_get_time|]. intros x.
  apply pe_bind; [apply pe_get_time|]. intros y.
  apply pe_bind; [apply pe_read|]. intros a0.
  apply pe_bind; [apply pe_read|]. intros b0.
  apply pe_bind; [apply pe_lift|]. intros t_ref.
  apply pe_bind; [apply pe_remove_modes|]. intros _.
  apply pe_bind; [apply pe_read|]. intros a.
  apply pe_bind; [apply pe_read|]. intros b.
  apply pe_bind; [apply pe_lift|]. intros x_opt.
  apply pe_bind; [apply pe_read|]. intros original.
  destruct x_opt as [|δt [|δϕ rest]]; try apply pe_raise.
  apply pe_bind; [apply pe_lift|]. intros w.
  apply pe_bind; [apply pe_new_waveform|]. intros l'. apply pe_ret.
Qed.

(** align1d leaves the whole store as it is. *)
Lemma align1d_heap {S : Scipy} wa wb t1 t2 n σ :
  heap (Align1d.align1d wa wb t1 t2 n σ).2 = heap σ.
Proof.
  assert (forall {A} (m : M A), (forall σ, heap (m σ).2 = heap σ) ->
          forall {B} (k : A -> M B), (forall a σ, heap (k a σ).2 = heap σ) ->
          forall σ, heap (bind m k σ).2 = heap σ) as Hbind.
  { intros A m Hm B k Hk σ'. unfold bind. specialize (Hm σ').
    destruct (m σ') as [[a|e] σ1]; simpl in *; [|done]. by rewrite Hk. }
  assert (forall l i σ, heap (get_time l i σ).2 = heap σ) as Hget.
  { intros l i σ'. unfold get_time, bind, deref, emit.
    destruct (heap σ' !! l) as [w|]; [|done]. simpl.
    destruct (np.item_index _ _); [|done]. by destruct (t w !! _). }
  assert (forall l σ, heap (read l σ).2 = heap σ) as Hread.
  { intros l σ'. unfold read, bind, deref, emit. by destruct (heap σ' !! l). }
  assert (forall name l σ, heap (check_contained name l t1 t2 σ).2 = heap σ) as Hc.
  { intros name l. unfold check_contained. apply Hbind; [apply Hget|]. intros x.
    destruct (Rgt_dec x t1).
    - apply Hbind; [apply Hget|]. intros a. apply Hbind; [apply Hget|]. done.
    - apply Hbind; [apply Hget|]. intros y. destruct (Rlt_dec y t2); [|done].
      apply Hbind; [apply Hget|]. intros a. apply Hbind; [apply Hget|]. done. }
  unfold Align1d.align1d, validate. revert σ.
  apply Hbind.
  { apply Hbind; [intros σ; by destruct (Rle_dec t2 t1)|]. intros _.
    apply Hbind; [apply Hc | intros _; apply Hc]. }
  intros _. unfold Align1d.body.
  apply Hbind; [apply Hget|]. intros x.
  apply Hbind; [apply Hget|]. intros y.
  apply Hbind; [apply Hread|]. intros a.
  apply Hbind; [apply Hread|]. done.
Qed.

(** align2d leaves every object of the caller's store as it is. *)
Lemma align2d_heap {S : Scipy} wa wb t1 t2 n_δt n_δϕ include_modes σ :
  heap σ ⊆ heap (Align2d.align2d wa wb t1 t2 n_δt n_δϕ include_modes σ).2.
Proof.
  apply map_subseteq_spec. intros l w Hl.
  unfold Align2d.align2d.
  unfold bind at 1. unfold copy at 1. unfold bind at 1, deref at 1.
  destruct (heap σ !! wa) as [a|] eqn:Ha; [|done].
  set (la := fresh (dom (heap σ))).
  set (σ1 := {| heap := <[la:=a]> (heap σ); trace := trace σ ++ [EvCopy wa la] |}).
  assert (heap σ1 !! l = Some w) as Hl1.
  { simpl. rewrite lookup_insert_ne; [done|]. intros <-. subst la. by rewrite fresh_lookup in Hl. }
  assert (l <> la) as Hla.
  { intros ->. subst la. by rewrite fresh_lookup in Hl. }
  unfold bind at 1. unfold copy at 1. unfold bind at 1, deref at 1.
  destruct (heap σ1 !! wb) as [b|] eqn:Hb; [|done].
  set (lb := fresh (dom (heap σ1))).
  set (σ2 := {| heap := <[lb:=b]> (heap σ1); trace := trace σ1 ++ [EvCopy wb lb] |}).
  assert (l <> lb) as Hlb.
  { intros ->. subst lb. by rewrite fresh_lookup in Hl1. }
  assert (heap σ2 !! l = Some w) as Hl2.
  { simpl. by rewrite lookup_insert_ne. }
  assert (preserves_except [la; lb]
            (validate la lb t1 t2 ;;; Align2d.body wa la lb t1 t2 n_δt n_δϕ include_modes)) as Hpe.
  { apply pe_bind; [apply pe_validate | intros _; apply pe_body2d]. }
  apply (Hpe σ2 l w Hl2). rewrite !elem_of_cons, elem_of_nil. tauto.
Qed.

(** C6: neither aligner mutates its inputs.  align1d leaves the whole store
    as it is; align2d leaves every object that existed before the call, the
    two waveforms of the caller among them, with the content it had, also
    when [include_modes] is given: the zeroing of modes only touches the
    copies. *)
Theorem aligners_leave_inputs_unchanged {S : Scipy}
    (σ : world) (wa wb : loc) (t1 t2 : R)
    (n_brute_force n_brute_force_δt n_brute_force_δϕ : option nat)
    (include_modes : option (list (Z * Z))) :
  heap (Align1d.align1d wa wb t1 t2 n_brute_force σ).2 = heap σ /\
  heap σ ⊆ heap (Align2d.align2d wa wb t1 t2 n_brute_force_δt n_brute_force_δϕ
                   include_modes σ).2.
Proof. split; [apply align1d_heap | apply align2d_heap]. Qed.

(** ** Errors other than those of the window validation *)

Lemma rbind_err {A B} (r : result A) (k : A -> result B) e :
  rbind r k = Err e -> r = Err e \/ exists a, r = Ok a /\ k a = Err e.
Proof. destruct r as [a|e']; simpl; [right; eauto | left; congruence]. Qed.

Lemma rbind_ok {A B} (r : result A) (k : A -> result B) b :
  rbind r k = Ok b -> exists a, r = Ok a /\ k a = Ok b.
Proof. destruct r as [a|e']; simpl; [eauto | done]. Qed.

Lemma rmapM_err {A B} (f : A -> result B) (l : list A) e :
  rmapM f l = Err e -> exists a, a ∈ l /\ f a = Err e.
Proof.
  induction l as [|a l IH]; simpl; [done|]. intros Hr.
  apply rbind_err in Hr as [Hr|(b & Hb & Hr)].
  - exists a. split; [apply elem_of_cons; by left | done].
  - apply rbind_err in Hr as [Hr|(bs & _ & Hr)]; [|done].
    destruct (IH Hr) as (a' & Hin & Ha'). exists a'. split; [apply elem_of_cons; by right | done].
Qed.

Lemma rmapM_ok {A B} (f : A -> result B) (l : list A) (bs : list B) :
  rmapM f l = Ok bs -> Forall2 (fun a b => f a = Ok b) l bs.
Proof.
  revert bs. induction l as [|a l IH]; simpl; intros bs Hr.
  - injection Hr as <-. constructor.
  - apply rbind_ok in Hr as (b & Hb & Hr). apply rbind_ok in Hr as (bs' & Hbs & Hr).
    injection Hr as <-. constructor; [done | by apply IH].
Qed.

Lemma argmin_err l e : np.argmin l = Err e -> e = ValueError EmptyArgmin.
Proof. destruct l; simpl; congruence. Qed.

Lemma broadcast_shape_err k k' e :
  np.broadcast_shape k k' = Err e -> e = ValueError CannotBroadcast.
Proof.
  unfold np.broadcast_shape.
  destruct (k =? k')%nat, (k =? 1)%nat, (k' =? 1)%nat; congruence.
Qed.

Lemma search1d_err {S : Scipy} a b t1 t2 x y n e :
  Align1d.search a b t1 t2 x y n = Err e -> ~ InvalidWindow e.
Proof.
  unfold Align1d.search, Align1d.brute_force.
  destruct (_ =? _)%nat; [|intros [= <-]; simpl; tauto].
  intros Hr. apply rbind_err in Hr as [Hr|(δ & _ & Hr)].
  - apply rbind_err in Hr as [Hr|(i & _ & Hr)].
    + apply argmin_err in Hr as ->. simpl. tauto.
    + destruct (_ !! i); [done|]. injection Hr as <-. simpl. tauto.
  - destruct (Align1d.refine _ _ _ _ _ _ _); [|done]. injection Hr as <-. simpl. tauto.
Qed.

Lemma t_reference2d_err a t1 t2 e :
  Align2d.t_reference a t1 t2 = Err e -> e = ValueError EmptyArgmin.
Proof.
  unfold Align2d.t_reference, Align2d.nearest_index. intros Hr.
  apply rbind_err in Hr as [Hr|(i & _ & Hr)]; [by apply argmin_err in Hr|].
  apply rbind_err in Hr as [Hr|(k & _ & Hr)]; [by apply argmin_err in Hr|done].
Qed.

Lemma cost2d_err {S : Scipy} a b ell_max t_ref x e :
  Align2d.cost a b ell_max t_ref x = Err e ->
  e = IndexError \/ e = ValueError CannotBroadcast.
Proof.
  unfold Align2d.cost, Align2d.cost_shape. destruct x as [|δt [|δϕ x]]; try (intros [= <-]; by left).
  intros Hr. right.
  apply rbind_err in Hr as [Hr|(k & _ & Hr)]; [|done].
  apply rbind_err in Hr as [Hr|(k & _ & Hr)]; by apply broadcast_shape_err in Hr.
Qed.

Lemma search2d_err {S : Scipy} a b ell_max t_ref lower upper cands e :
  Align2d.search a b ell_max t_ref lower upper cands = Err e -> ~ InvalidWindow e.
Proof.
  unfold Align2d.search, Align2d.brute_force. intros Hr.
  apply rbind_err in Hr as [Hr|(seed & _ & Hr)]; [|done].
  apply rbind_err in Hr as [Hr|(costs & _ & Hr)].
  - apply rmapM_err in Hr as (c & _ & Hr).
    apply cost2d_err in Hr as [-> | ->]; simpl; tauto.
  - apply rbind_err in Hr as [Hr|(i & _ & Hr)].
    + apply argmin_err in Hr as ->. simpl. tauto.
    + destruct (_ !! i); [done|]. injection Hr as <-. simpl. tauto.
Qed.

Lemma wa_prime_err {S : Scipy} w ell_max factor δt δϕ e :
  Align2d.wa_prime w ell_max factor δt δϕ = Err e -> e = ValueError CannotBroadcast.
Proof.
  unfold Align2d.wa_prime. intros Hr.
  apply rbind_err in Hr as [Hr|(k & _ & Hr)]; [by apply broadcast_shape_err in Hr | done].
Qed.

Lemma niw_ret {A} (a : A) : no_InvalidWindow (ret a).
Proof. by intros σ e. Qed.

Lemma niw_raise {A} e : ~ InvalidWindow e -> no_InvalidWindow (@raise A e).
Proof. intros He σ e'. simpl. by intros [= <-]. Qed.

Lemma niw_lift {A} (r : result A) :
  (forall e, r = Err e -> ~ InvalidWindow e) -> no_InvalidWindow (lift r).
Proof. intros Hr σ e. simpl. apply Hr. Qed.

Lemma niw_bind {A B} (m : M A) (k : A -> M B) :
  no_InvalidWindow m -> (forall a, no_InvalidWindow (k a)) -> no_InvalidWindow (bind m k).
Proof.
  intros Hm Hk σ e. specialize (Hm σ). unfold bind.
  destruct (m σ) as [[a|e'] σ'] eqn:Hrun; simpl in *; [apply Hk|].
  intros [= <-]. by apply Hm.
Qed.

Lemma niw_deref l : no_InvalidWindow (deref l).
Proof.
  intros σ e. unfold deref. destruct (heap σ !! l); simpl; [done|]. intros [= <-]. simpl. tauto.
Qed.

Lemma niw_get_time l i : no_InvalidWindow (get_time l i).
Proof.
  unfold get_time. apply niw_bind; [apply niw_deref|]. intros a.
  apply niw_bind; [by intros σ e|]. intros _.
  destruct (np.item_index _ _); [|apply niw_raise; simpl; tauto].
  destruct (t a !! _); [apply niw_ret | apply niw_raise; simpl; tauto].
Qed.

Lemma niw_read l : no_InvalidWindow (read l).
Proof.
  unfold read. apply niw_bind; [apply niw_deref|]. intros a.
  apply niw_bind; [by intros σ e|]. intros _. apply niw_ret.
Qed.

Lemma niw_zero_mode l col : no_InvalidWindow (zero_mode l col).
Proof.
  unfold zero_mode. apply niw_bind; [apply niw_deref|]. intros a.
  destruct (np.item_index _ _); [by intros σ e | apply niw_raise; simpl; tauto].
Qed.

Lemma niw_for_each {A} (l : list A) (body : A -> M unit) :
  (forall a, no_InvalidWindow (body a)) -> no_InvalidWindow (for_each l body).
Proof.
  intros Hbody. induction l as [|a l IH]; simpl; [apply niw_ret|].
  apply niw_bind; [apply Hbody | by intros _].
Qed.

Lemma niw_remove_modes la lb ell_max include_modes :
  no_InvalidWindow (Align2d.remove_modes la lb ell_max include_modes).
Proof.
  unfold Align2d.remove_modes. destruct include_modes as [modes|]; [|apply niw_ret].
  apply niw_for_each. intros lm. destruct (Align2d.mode_in lm modes); [apply niw_ret|].
  apply niw_bind; [apply niw_deref|]. intros a.
  apply niw_bind; [apply niw_zero_mode|]. intros _.
  apply niw_bind; [apply niw_deref|]. intros b. apply niw_zero_mode.
Qed.

Lemma niw_body1d {S : Scipy} wa wb t1 t2 n :
  no_InvalidWindow (Align1d.body wa wb t1 t2 n).
Proof.
  unfold Align1d.body.
  apply niw_bind; [apply niw_get_time|]. intros x.
  apply niw_bind; [apply niw_get_time|]. intros y.
  apply niw_bind; [apply niw_read|]. intros a.
  apply niw_bind; [apply niw_read|]. intros b.
  apply niw_lift. intros e. apply search1d_err.
Qed.

Lemma niw_body2d {S : Scipy} wa la lb t1 t2 n_δt n_δϕ include_modes :
  no_InvalidWindow (Align2d.body wa la lb t1 t2 n_δt n_δϕ include_modes).
Proof.
  unfold Align2d.body.
  apply niw_bind; [apply niw_get_time|]. intros x.
  apply niw_bind; [apply niw_get_time|]. intros y.
  apply niw_bind; [apply niw_read|]. intros a0.
  apply niw_bind; [apply niw_read|]. intros b0.
  apply niw_bind.
  { apply niw_lift. intros e He. apply t_reference2d_err in He as ->. simpl. tauto. }
  intros t_ref.
  apply niw_bind; [apply niw_remove_modes|]. intros _.
  apply niw_bind; [apply niw_read|]. intros a.
  apply niw_bind; [apply niw_read|]. intros b.
  apply niw_bind; [apply niw_lift; intros e; apply search2d_err|]. intros x_opt.
  apply niw_bind; [apply niw_read|]. intros original.
  destruct x_opt as [|δt [|δϕ rest]]; try (apply niw_raise; simpl; tauto).
  apply niw_bind.
  { apply niw_lift. intros e He. apply wa_prime_err in He as ->. simpl. tauto. }
  intros w. apply niw_bind; [by intros σ e|]. intros l'. apply niw_ret.
Qed.

(** ** The runs of the aligners up to the end of the window validation *)

Lemma run_copy σ l w :
  heap σ !! l = Some w ->
  copy l σ = (Ok (fresh (dom (heap σ))),
              {| heap := <[fresh (dom (heap σ)) := w]> (heap σ);
                 trace := trace σ ++ [EvCopy l (fresh (dom (heap σ)))] |}).
Proof. intros Hl. unfold copy. by rewrite (run_bind_ok _ _ _ _ _ (run_deref _ _ _ Hl)). Qed.

Lemma run_align1d {S : Scipy} σ wa wb a b a_first a_last b_first b_last t1 t2 n :
  spans σ wa a a_first a_last -> spans σ wb b b_first b_last ->
  exists evs, Forall (endpoint_read [wa; wb]) evs /\
    ((window_ok t1 t2 a_first a_last b_first b_last /\
      Align1d.align1d wa wb t1 t2 n σ = Align1d.body wa wb t1 t2 n (with_events σ evs)) \/
     (~ window_ok t1 t2 a_first a_last b_first b_last /\
      exists e, InvalidWindow e /\
        Align1d.align1d wa wb t1 t2 n σ = (Err e, with_events σ evs))).
Proof.
  intros Ha Hb.
  destruct (run_validate σ wa wb a b a_first a_last b_first b_last t1 t2 Ha Hb)
    as (evs & Hevs & [[Hok Hrun]|[Hbad (e & He & Hrun)]]); exists evs; (split; [done|]).
  - left. split; [done|]. unfold Align1d.align1d. by rewrite (run_bind_ok _ _ _ _ _ Hrun).
  - right. split; [done|]. exists e. split; [done|].
    unfold Align1d.align1d. by rewrite (run_bind_err _ _ _ _ _ Hrun).
Qed.

(** The store of [align2d] once both copies are made. *)
Lemma run_align2d {S : Scipy} σ wa wb a b a_first a_last b_first b_last t1 t2
    n_δt n_δϕ include_modes :
  spans σ wa a a_first a_last -> spans σ wb b b_first b_last ->
  exists (la lb : loc) (evs : list event),
    heap σ !! la = None /\ heap σ !! lb = None /\ la <> lb /\
    Forall (endpoint_read [la; lb]) evs /\
    let σ' := {| heap := <[lb := b]> (<[la := a]> (heap σ));
                 trace := trace σ ++ [EvCopy wa la; EvCopy wb lb] ++ evs |} in
    ((window_ok t1 t2 a_first a_last b_first b_last /\
      Align2d.align2d wa wb t1 t2 n_δt n_δϕ include_modes σ
      = Align2d.body wa la lb t1 t2 n_δt n_δϕ include_modes σ') \/
     (~ window_ok t1 t2 a_first a_last b_first b_last /\
      exists e, InvalidWindow e /\
        Align2d.align2d wa wb t1 t2 n_δt n_δϕ include_modes σ = (Err e, σ'))).
Proof.
  intros Ha Hb.
  set (la := fresh (dom (heap σ))).
  set (σ1 := {| heap := <[la := a]> (heap σ); trace := trace σ ++ [EvCopy wa la] |}).
  set (lb := fresh (dom (heap σ1))).
  set (σ2 := {| heap := <[lb := b]> (heap σ1); trace := trace σ1 ++ [EvCopy wb lb] |}).
  assert (heap σ !! la = None) as Hla by apply fresh_lookup.
  assert (heap σ1 !! lb = None) as Hlb1 by apply fresh_lookup.
  assert (la <> lb) as Hne.
  { intros Heq. rewrite <- Heq in Hlb1. simpl in Hlb1. by rewrite lookup_insert_eq in Hlb1. }
  assert (heap σ !! lb = None) as Hlb.
  { simpl in Hlb1. by rewrite lookup_insert_ne in Hlb1. }
  assert (heap σ1 !! wb = Some b) as Hwb1.
  { destruct Hb as (Hb & _). simpl. rewrite lookup_insert_ne; [done|]. congruence. }
  assert (spans σ2 la a a_first a_last) as Ha2.
  { destruct Ha as (_ & Hx & Hy). split; [|done]. simpl.
    rewrite lookup_insert_ne by done. by rewrite lookup_insert_eq. }
  assert (spans σ2 lb b b_first b_last) as Hb2.
  { destruct Hb as (_ & Hx & Hy). split; [|done]. simpl. by rewrite lookup_insert_eq. }
  destruct (run_validate σ2 la lb a b a_first a_last b_first b_last t1 t2 Ha2 Hb2)
    as (evs & Hevs & Hrun).
  exists la, lb, evs. split_and!; try done.
  intros σ'.
  assert (with_events σ2 evs = σ') as Hσ.
  { unfold with_events, σ'. simpl. f_equal. by rewrite <- !app_assoc. }
  clearbody σ'. subst σ'.
  unfold Align2d.align2d.
  rewrite (run_bind_ok _ _ _ _ _ (run_copy σ wa a (proj1 Ha))). fold la. fold σ1.
  rewrite (run_bind_ok _ _ _ _ _ (run_copy σ1 wb b Hwb1)). fold lb. fold σ2.
  destruct Hrun as [[Hok Hrun]|[Hbad (e & He & Hrun)]].
  - left. split; [done|]. by rewrite (run_bind_ok _ _ _ _ _ Hrun).
  - right. split; [done|]. exists e. split; [done|]. by rewrite (run_bind_err _ _ _ _ _ Hrun).
Qed.

(** ** The example inputs *)

Lemma example_spans_wa : spans example_world 0%nat example_wa 0 1.
Proof. split_and!; done. Qed.

Lemma example_spans_wb : spans example_world 1%nat example_wb (-1) 2.
Proof. split_and!; done. Qed.

Lemma example_window_ok : window_ok 0 1 0 1 (-1) 2.
Proof. unfold window_ok. lra. Qed.

(** ** The window validation of both aligners *)

Lemma window_not_ok t1 t2 a_first a_last b_first b_last :
  t2 <= t1 \/ a_first > t1 \/ a_last < t2 \/ b_first > t1 \/ b_last < t2 ->
  ~ window_ok t1 t2 a_first a_last b_first b_last.
Proof. unfold window_ok. lra. Qed.

(** C4, as amended: with a window that is out of order or not contained in
    the times of wa or of wb, align1d raises the validation error having read
    nothing but end times of the two waveforms, and align2d raises it after
    copying both waveforms, having read beyond the copies nothing but end times
    of the copies; with a window that passes the three checks neither aligner
    raises a validation error. *)
Theorem aligners_validate_window {S : Scipy}
    (σ : world) (wa wb : loc) (a b : WaveformModes)
    (a_first a_last b_first b_last t1 t2 : R)
    (n_brute_force n_brute_force_δt n_brute_force_δϕ : option nat)
    (include_modes : option (list (Z * Z))) :
  spans σ wa a a_first a_last -> spans σ wb b b_first b_last ->
  (t2 <= t1 \/ a_first > t1 \/ a_last < t2 \/ b_first > t1 \/ b_last < t2 ->
   (exists (e : exn) (evs : list event),
      InvalidWindow e /\
      Align1d.align1d wa wb t1 t2 n_brute_force σ = (Err e, with_events σ evs) /\
      Forall (endpoint_read [wa; wb]) evs) /\
   (exists (e : exn) (la lb : loc) (evs : list event),
      InvalidWindow e /\ heap σ !! la = None /\ heap σ !! lb = None /\
      Align2d.align2d wa wb t1 t2 n_brute_force_δt n_brute_force_δϕ include_modes σ
      = (Err e, {| heap := <[lb := b]> (<[la := a]> (heap σ));
                   trace := trace σ ++ [EvCopy wa la; EvCopy wb lb] ++ evs |}) /\
      Forall (endpoint_read [la; lb]) evs)) /\
  (window_ok t1 t2 a_first a_last b_first b_last ->
   (forall e : exn,
      (Align1d.align1d wa wb t1 t2 n_brute_force σ).1 = Err e -> ~ InvalidWindow e) /\
   (forall e : exn,
      (Align2d.align2d wa wb t1 t2 n_brute_force_δt n_brute_force_δϕ include_modes σ).1
      = Err e -> ~ InvalidWindow e)).
Proof.
  intros Ha Hb.
  destruct (run_align1d σ wa wb a b a_first a_last b_first b_last t1 t2 n_brute_force Ha Hb)
    as (evs1 & Hevs1 & Hrun1).
  destruct (run_align2d σ wa wb a b a_first a_last b_first b_last t1 t2
              n_brute_force_δt n_brute_force_δϕ include_modes Ha Hb)
    as (la & lb & evs2 & Hla & Hlb & Hne & Hevs2 & Hrun2).
  simpl in Hrun2. split.
  - intros Hbad. apply window_not_ok in Hbad.
    destruct Hrun1 as [[Hok _]|[_ (e1 & He1 & Hrun1)]]; [done|].
    destruct Hrun2 as [[Hok _]|[_ (e2 & He2 & Hrun2)]]; [done|].
    split; [exists e1, evs1; done | exists e2, la, lb, evs2; done].
  - intros Hok.
    destruct Hrun1 as [[_ Hrun1]|[Hbad _]]; [|done].
    destruct Hrun2 as [[_ Hrun2]|[Hbad _]]; [|done].
    rewrite Hrun1, Hrun2. split; intros e; [apply niw_body1d | apply niw_body2d].
Qed.

Lemma aligners_validate_window_witness :
  spans example_world 0%nat example_wa 0 1 /\
  spans example_world 1%nat example_wb (-1) 2 /\
  window_ok 0 1 0 1 (-1) 2 /\
  ~ (exists e : exn,
       (Align2d.align2d (S := reference_scipy) 0%nat 1%nat 0 1 None (Some 5%nat) None
          example_world).1 = Err e /\ InvalidWindow e).
Proof.
  split_and!; [apply example_spans_wa | apply example_spans_wb | apply example_window_ok |].
  intros (e & He & Hiw).
  exact (proj2 (proj2 (aligners_validate_window (S := reference_scipy)
           example_world 0%nat 1%nat example_wa example_wb 0 1 (-1) 2 0 1
           None None (Some 5%nat) None example_spans_wa example_spans_wb)
           example_window_ok) e He Hiw).
Defined.

(** C4 fails as stated: called with [t2 <= t1], align2d copies both
    waveforms, reading all of their data, before it raises. *)
Lemma align2d_reads_all_data_before_validation :
  exists (σ : world) (wa wb : loc) (t1 t2 : R),
    t2 <= t1 /\
    forall S : Scipy,
      exists (e : exn) (l : loc),
        (Align2d.align2d (S := S) wa wb t1 t2 None (Some 5%nat) None σ).1 = Err e /\
        InvalidWindow e /\
        EvCopy wa l ∈ trace (Align2d.align2d (S := S) wa wb t1 t2 None (Some 5%nat) None σ).2 /\
        ~ Forall (endpoint_read [wa; wb])
            (trace (Align2d.align2d (S := S) wa wb t1 t2 None (Some 5%nat) None σ).2).
Proof.
  exists example_world, 0%nat, 1%nat, 1, 0. split; [lra|]. intros S.
  destruct (run_align2d (S := S) example_world 0%nat 1%nat example_wa example_wb 0 1 (-1) 2
              1 0 None (Some 5%nat) None example_spans_wa example_spans_wb)
    as (la & lb & evs & _ & _ & _ & _ & [[Hok _]|[_ (e & He & Hrun)]]).
  { unfold window_ok in Hok. lra. }
  exists e, la. rewrite Hrun. simpl. split_and!; [done..| |].
  - apply elem_of_cons. by left.
  - intros Hall. apply Forall_cons in Hall as [Hbad _]. exact Hbad.
Qed.

(** ** align2d: the copies and the window validation *)

(** C8, as amended: align2d makes its two copies before the window
    validation.  A call that violates a window precondition raises the
    validation error with the store of the caller as it was, extended by the
    two copies, which are still equal to the originals: no working copy has
    been changed, and after the two copies only end times of the copies have
    been read. *)
Theorem align2d_fails_after_copying {S : Scipy}
    (σ : world) (wa wb : loc) (a b : WaveformModes)
    (a_first a_last b_first b_last t1 t2 : R)
    (n_brute_force_δt n_brute_force_δϕ : option nat)
    (include_modes : option (list (Z * Z))) :
  spans σ wa a a_first a_last -> spans σ wb b b_first b_last ->
  t2 <= t1 \/ a_first > t1 \/ a_last < t2 \/ b_first > t1 \/ b_last < t2 ->
  exists (e : exn) (la lb : loc) (evs : list event) (σ' : world),
    Align2d.align2d wa wb t1 t2 n_brute_force_δt n_brute_force_δϕ include_modes σ
    = (Err e, σ') /\
    InvalidWindow e /\
    heap σ !! la = None /\ heap σ !! lb = None /\ la <> lb /\
    heap σ' = <[lb := b]> (<[la := a]> (heap σ)) /\
    heap σ ⊆ heap σ' /\
    trace σ' = trace σ ++ [EvCopy wa la; EvCopy wb lb] ++ evs /\
    Forall (endpoint_read [la; lb]) evs.
Proof.
  intros Ha Hb Hbad. apply window_not_ok in Hbad.
  destruct (run_align2d σ wa wb a b a_first a_last b_first b_last t1 t2
              n_brute_force_δt n_brute_force_δϕ include_modes Ha Hb)
    as (la & lb & evs & Hla & Hlb & Hne & Hevs & [[Hok _]|[_ (e & He & Hrun)]]); [done|].
  eexists e, la, lb, evs, _. split; [exact Hrun|]. simpl. split_and!; try done.
  etrans; [apply (insert_subseteq (heap σ) la a Hla)|].
  apply insert_subseteq. by rewrite lookup_insert_ne.
Qed.

Lemma align2d_fails_after_copying_witness :
  exists (e : exn) (la lb : loc) (evs : list event) (σ' : world),
    Align2d.align2d (S := reference_scipy) 0%nat 1%nat 1 0 None (Some 5%nat) None
      example_world = (Err e, σ') /\
    InvalidWindow e /\
    heap example_world !! la = None /\ heap example_world !! lb = None /\ la <> lb /\
    heap σ' = <[lb := example_wb]> (<[la := example_wa]> (heap example_world)) /\
    heap example_world ⊆ heap σ' /\
    trace σ' = trace example_world ++ [EvCopy 0%nat la; EvCopy 1%nat lb] ++ evs /\
    Forall (endpoint_read [la; lb]) evs.
Proof.
  apply (align2d_fails_after_copying (S := reference_scipy) example_world 0%nat 1%nat
           example_wa example_wb 0 1 (-1) 2 1 0 None (Some 5%nat) None
           example_spans_wa example_spans_wb).
  left. lra.
Defined.

(** C8 fails as stated: called with [t2 <= t1], align2d has created a copy,
    a new object of the store, by the time it raises. *)
Lemma align2d_copies_before_validation :
  exists (σ : world) (wa wb : loc) (t1 t2 : R),
    t2 <= t1 /\
    forall S : Scipy,
      exists (l : loc) (w : WaveformModes),
        heap σ !! l = None /\
        heap (Align2d.align2d (S := S) wa wb t1 t2 None (Some 5%nat) None σ).2 !! l = Some w.
Proof.
  exists example_world, 0%nat, 1%nat, 1, 0. split; [lra|]. intros S.
  destruct (run_align2d (S := S) example_world 0%nat 1%nat example_wa example_wb 0 1 (-1) 2
              1 0 None (Some 5%nat) None example_spans_wa example_spans_wb)
    as (la & lb & evs & Hla & Hlb & Hne & _ & [[Hok _]|[_ (e & He & Hrun)]]).
  { unfold window_ok in Hok. lra. }
  exists la, example_wa. split; [done|]. rewrite Hrun. simpl.
  rewrite lookup_insert_ne by done. by rewrite lookup_insert_eq.
Qed.

Lemma align1d_cost_is_normalised_mismatch_witness :
  length (data example_wa) = length (t example_wa) /\
  Align1d.cost (S := reference_scipy) example_wa example_wb 0 1 0
  = Spec1d.cost (S := reference_scipy) example_wa example_wb 0 1 0.
Proof.
  split; [reflexivity|].
  apply (align1d_cost_is_normalised_mismatch (S := reference_scipy)
           example_wa example_wb 0 1 eq_refl).
Defined.

(** ** align2d: the reference times *)

Ltac decide_Rlt :=
  repeat match goal with
         | |- context [Rlt_dec ?a ?b] => destruct (Rlt_dec a b); try lra
         end.

Lemma Rabs_numeral_pos x : 0 <= x -> Rabs x = x.
Proof. intros. by apply Rabs_pos_eq. Qed.

Lemma Rabs_numeral_neg x : x <= 0 -> Rabs x = - x.
Proof. intros. destruct (Req_dec x 0) as [->|]; [rewrite Rabs_R0; lra|]. apply Rabs_left. lra. Qed.

Lemma slice_between {A} (l : list A) (i k : nat) :
  (i < length l)%nat -> (k < length l)%nat ->
  np.slice (Z.of_nat i) (Z.of_nat k + 1) l = take (k + 1 - i) (drop i l).
Proof.
  intros Hi Hk. unfold np.slice, np.slice_index.
  replace (Z.of_nat i <? 0)%Z with false by (symmetry; apply Z.ltb_ge; lia).
  replace (Z.of_nat k + 1 <? 0)%Z with false by (symmetry; apply Z.ltb_ge; lia).
  rewrite Nat2Z.id. replace (Z.to_nat (Z.of_nat k + 1)) with (k + 1)%nat by lia.
  rewrite !Nat.min_l by lia. done.
Qed.

Lemma t_reference2d_ok wa t1 t2 ts :
  Align2d.t_reference wa t1 t2 = Ok ts ->
  exists i1 i2 : nat,
    nearest (t wa) t1 i1 /\ nearest (t wa) t2 i2 /\
    ts = take (i2 + 1 - i1) (drop i1 (t wa)).
Proof.
  unfold Align2d.t_reference, Align2d.nearest_index. intros Hr.
  apply rbind_ok in Hr as (i1 & H1 & Hr). apply rbind_ok in Hr as (i2 & H2 & Hr).
  injection Hr as <-.
  apply argmin_first_minimum in H1, H2. exists i1, i2. split_and!; [done..|].
  apply slice_between.
  - destruct H1 as (v & Hv & _). apply lookup_lt_Some in Hv. by rewrite length_map in Hv.
  - destruct H2 as (v & Hv & _). apply lookup_lt_Some in Hv. by rewrite length_map in Hv.
Qed.

Lemma t_reference2d_total wa t1 t2 :
  t wa <> [] -> exists ts, Align2d.t_reference wa t1 t2 = Ok ts.
Proof.
  intros Hne. unfold Align2d.t_reference, Align2d.nearest_index.
  destruct (t wa) as [|x ts]; [done|]. simpl. eauto.
Qed.

Lemma example_wa4_increasing : strictly_increasing (t example_wa4).
Proof.
  intros i k a b Hi Hk Hlt. simpl in Hi, Hk.
  destruct i as [|[|[|[|i]]]]; simpl in Hi; try done; injection Hi as <-;
    destruct k as [|[|[|[|k]]]]; simpl in Hk; try done; injection Hk as <-; try lia; lra.
Qed.

Lemma example_wa4_t_reference :
  Align2d.t_reference example_wa4 (2 / 5) (13 / 5) = Ok [0; 1; 2; 3].
Proof.
  unfold Align2d.t_reference, Align2d.nearest_index.
  assert (map (fun u => Rabs (u - 2 / 5)) (t example_wa4) = [2 / 5; 3 / 5; 8 / 5; 13 / 5]) as ->.
  { simpl. rewrite (Rabs_numeral_neg (0 - 2 / 5)) by lra.
    rewrite !Rabs_numeral_pos by lra. repeat f_equal; lra. }
  assert (map (fun u => Rabs (u - 13 / 5)) (t example_wa4) = [13 / 5; 8 / 5; 3 / 5; 2 / 5]) as ->.
  { simpl. rewrite (Rabs_numeral_pos (3 - 13 / 5)) by lra.
    rewrite !Rabs_numeral_neg by lra. repeat f_equal; lra. }
  simpl. decide_Rlt. reflexivity.
Qed.

(** C10: the reference times of align2d are the contiguous slice of wa's
    times from the sample nearest to [t1] through the sample nearest to [t2];
    for some windows that pass the validation the first of them is strictly
    less than [t1] and the last strictly greater than [t2]; the reference times
    of align1d are exactly the samples of wa inside [[t1, t2]]. *)
Theorem align2d_reference_times_by_nearest_sample :
  (forall (wa : WaveformModes) (t1 t2 : R) (ts : list R),
     Align2d.t_reference wa t1 t2 = Ok ts ->
     exists i1 i2 : nat,
       nearest (t wa) t1 i1 /\ nearest (t wa) t2 i2 /\
       ts = take (i2 + 1 - i1) (drop i1 (t wa))) /\
  (forall (wa : WaveformModes) (t1 t2 : R),
     t wa <> [] -> exists ts : list R, Align2d.t_reference wa t1 t2 = Ok ts) /\
  (exists (wa : WaveformModes) (t1 t2 first_time last_time first_ref last_ref : R)
          (ts : list R),
     strictly_increasing (t wa) /\
     head (t wa) = Some first_time /\ last (t wa) = Some last_time /\
     t1 < t2 /\ first_time <= t1 /\ t2 <= last_time /\
     Align2d.t_reference wa t1 t2 = Ok ts /\
     head ts = Some first_ref /\ last ts = Some last_ref /\
     first_ref < t1 /\ t2 < last_ref /\
     Align1d.t_reference wa t1 t2 <> ts) /\
  (forall (wa : WaveformModes) (t1 t2 u : R),
     u ∈ Align1d.t_reference wa t1 t2 <-> u ∈ t wa /\ t1 <= u <= t2).
Proof.
  split_and!.
  - apply t_reference2d_ok.
  - apply t_reference2d_total.
  - exists example_wa4, (2 / 5), (13 / 5), 0, 3, 0, 3, [0; 1; 2; 3].
    split_and!; try done; try lra.
    + apply example_wa4_increasing.
    + apply example_wa4_t_reference.
    + intros Heq.
      assert (0 ∈ Align1d.t_reference example_wa4 (2 / 5) (13 / 5)) as Hin.
      { rewrite Heq. apply elem_of_cons. by left. }
      apply t_reference1d_elem in Hin as [_ Hin]. lra.
  - apply t_reference1d_elem.
Qed.

(** ** align2d: the brute-force grids *)

Lemma δϕ_brute_force_lookup n k :
  (k < n)%nat -> Align2d.δϕ_brute_force n !! k = Some (INR k * (2 * PI / INR n)).
Proof.
  intros Hk. unfold Align2d.δϕ_brute_force. rewrite linspace_lookup_open by done.
  f_equal. lra.
Qed.

Lemma δϕ_brute_force_range n x :
  x ∈ Align2d.δϕ_brute_force n -> 0 <= x < 2 * PI.
Proof.
  intros Hx. apply list_elem_of_lookup in Hx as [k Hk].
  assert (k < n)%nat as Hlt.
  { apply lookup_lt_Some in Hk. unfold Align2d.δϕ_brute_force in Hk.
    by rewrite length_linspace in Hk. }
  rewrite δϕ_brute_force_lookup in Hk by done. injection Hk as <-.
  pose proof PI_RGT_0 as Hpi.
  assert (0 < INR n) as Hn by (apply lt_0_INR; lia).
  assert (0 <= INR k) as Hk0 by apply pos_INR.
  assert (INR k < INR n) as Hkn by (apply lt_INR; lia).
  assert (0 < 2 * PI / INR n) as Hstep.
  { apply Rdiv_lt_0_compat; lra. }
  split; [nra|].
  replace (2 * PI) with (INR n * (2 * PI / INR n)) at 2 by (field; lra).
  nra.
Qed.

Lemma meshgrid_rows_elem (x y : list R) (u v : R) :
  (u, v) ∈ np.meshgrid_rows x y <-> u ∈ x /\ v ∈ y.
Proof.
  unfold np.meshgrid_rows. rewrite !list_elem_of_In, in_flat_map. split.
  - intros (xi & Hxi & Hin). apply in_map_iff in Hin as (yj & [= <- <-] & Hyj). done.
  - intros [Hu Hv]. exists u. split; [done|]. apply in_map_iff. eauto.
Qed.

Lemma meshgrid_rows_length (x y : list R) :
  length (np.meshgrid_rows x y) = (length x * length y)%nat.
Proof.
  unfold np.meshgrid_rows. induction x as [|xi x IH]; simpl; [done|].
  by rewrite length_app, length_map, IH.
Qed.

(** C7, as amended: the phase grid of align2d has [n_brute_force_δϕ] evenly
    spaced values [k * 2π / n] in [[0, 2π)], so that [2π] is never one of
    them; the count is 5 by default and, when the caller passes [None],
    [2 * wa.ell_max + 1] with the [ell_max] of wa itself; the candidates
    are all the pairs of a value of the time grid and a value of the phase
    grid. *)
Theorem align2d_brute_force_grid
    (a b : WaveformModes) (t1 t2 lower upper : R)
    (n_brute_force_δt n_brute_force_δϕ : option nat) :
  let n_δt := match n_brute_force_δt with
              | Some n => n
              | None => default_n_brute_force (t a) (t b) t1 t2
              end in
  let n_δϕ := match n_brute_force_δϕ with
              | Some n => n
              | None => (2 * ell_max a + 1)%nat
              end in
  Align2d.n_brute_force_δϕ_default = Some 5%nat /\
  length (Align2d.δϕ_brute_force n_δϕ) = n_δϕ /\
  (forall k : nat, (k < n_δϕ)%nat ->
     Align2d.δϕ_brute_force n_δϕ !! k = Some (INR k * (2 * PI / INR n_δϕ))) /\
  (forall x : R, x ∈ Align2d.δϕ_brute_force n_δϕ -> 0 <= x < 2 * PI) /\
  length (Align2d.candidates a b t1 t2 lower upper n_brute_force_δt n_brute_force_δϕ)
  = (n_δt * n_δϕ)%nat /\
  (forall δt δϕ : R,
     (δt, δϕ) ∈ Align2d.candidates a b t1 t2 lower upper n_brute_force_δt n_brute_force_δϕ
     <-> δt ∈ Align2d.δt_brute_force lower upper n_δt /\
         δϕ ∈ Align2d.δϕ_brute_force n_δϕ).
Proof.
  intros n_δt n_δϕ.
  assert (Align2d.candidates a b t1 t2 lower upper n_brute_force_δt n_brute_force_δϕ
          = np.meshgrid_rows (Align2d.δt_brute_force lower upper n_δt)
                             (Align2d.δϕ_brute_force n_δϕ)) as Hc.
  { unfold Align2d.candidates, Align2d.δt_δϕ_brute_force, n_δt, n_δϕ,
      Align2d.default_n_brute_force_δϕ.
    by destruct n_brute_force_δt, n_brute_force_δϕ. }
  split_and!.
  - reflexivity.
  - apply length_linspace.
  - intros k Hk. by apply δϕ_brute_force_lookup.
  - apply δϕ_brute_force_range.
  - rewrite Hc, meshgrid_rows_length. unfold Align2d.δt_brute_force, Align2d.δϕ_brute_force.
    by rewrite !length_linspace.
  - intros δt δϕ. rewrite Hc. apply meshgrid_rows_elem.
Qed.

(** C7 fails as stated: for a wa with modes up to ell = 3 and a wb with
    modes up to ell = 2, the default phase grid has 7 values, not
    [2 * min(3, 2) + 1 = 5]. *)
Lemma default_phase_grid_uses_wa_ell_max :
  exists wa wb : WaveformModes,
    length (Align2d.δϕ_brute_force (Align2d.default_n_brute_force_δϕ wa))
    <> (2 * Align2d.common_ell_max wa wb + 1)%nat.
Proof.
  exists example_wa3, example_wb.
  unfold Align2d.δϕ_brute_force. rewrite length_linspace.
  unfold Align2d.default_n_brute_force_δϕ, Align2d.common_ell_max. simpl. lia.
Qed.

(** ** The runs of the bodies *)

Lemma run_lift {A} (r : result A) σ : lift r σ = (r, σ).
Proof. done. Qed.

Ltac run_get_first H :=
  match goal with
  | |- context [bind (get_time ?l 0) _ ?s] =>
      rewrite (run_bind_ok _ _ s _ _ (run_get_time_first s l _ _ _ H))
  end.

Ltac run_get_last H :=
  match goal with
  | |- context [bind (get_time ?l (-1)) _ ?s] =>
      rewrite (run_bind_ok _ _ s _ _ (run_get_time_last s l _ _ _ H))
  end.

Ltac run_read_at l H :=
  match goal with
  | |- context [bind (read l) _ ?s] =>
      rewrite (run_bind_ok _ _ s _ _ (run_read s l _ H))
  end.

Lemma run_body1d {S : Scipy} σ wa wb a b a_first a_last b_first b_last t1 t2 n :
  spans σ wa a a_first a_last -> spans σ wb b b_first b_last ->
  Align1d.body wa wb t1 t2 n σ
  = (Align1d.search a b t1 t2 b_first b_last n,
     with_events σ [EvGetTime wb 0; EvGetTime wb (-1); EvRead wa; EvRead wb]).
Proof.
  intros Ha Hb. unfold Align1d.body.
  run_get_first Hb. run_get_last Hb.
  run_read_at wa (proj1 Ha). run_read_at wb (proj1 Hb).
  rewrite run_lift, !with_events_app. done.
Qed.

(** ** align1d: where the interpolant of wb's norm is evaluated *)

Lemma search1d_ok {S : Scipy} a b t1 t2 b_first b_last n x :
  Align1d.search a b t1 t2 b_first b_last (Some n) = Ok x ->
  exists (δ0 : R) (rest : list R),
    Align1d.brute_force a b t1 t2
      (Align1d.δt_brute_force (Align1d.δt_lower b_first t1 t2)
         (Align1d.δt_upper b_last t1 t2) n) = Ok δ0 /\
    Align1d.refine a b t1 t2 (Align1d.δt_lower b_first t1 t2)
      (Align1d.δt_upper b_last t1 t2) δ0 = x :: rest.
Proof.
  unfold Align1d.search. destruct (_ =? _)%nat; [|done]. intros Hr.
  apply rbind_ok in Hr as (δ0 & Hbf & Hr).
  destruct (Align1d.refine _ _ _ _ _ _ _) as [|x0 rest] eqn:Href; [done|].
  injection Hr as <-. eauto.
Qed.

(** C3, as amended: in align1d the shift bounds are
    [max(t1 - t2, wb.t[0] - t1)] and [min(t2 - t1, wb.t[-1] - t2)], and in
    exact arithmetic, over the real numbers, a reference time in [[t1, t2]]
    shifted by an offset within the bounds lies in [[wb.t[0], wb.t[-1]]].  So
    the times at which the interpolant of wb's norm is evaluated lie in wb's
    range for every offset of the brute-force grid and for every offset
    within the bounds; a call on waveforms of the store whose window passes
    the checks runs the search with the first and last time of wb, and a
    search that returns has handed the solver a seed within these bounds and
    the bounds themselves; and the cost does not depend on the interpolant
    outside wb's range.  The rounding of binary64 is left out. *)
Theorem align1d_interpolant_within_wb_range
    (wa wb : WaveformModes) (wb_first wb_last t1 t2 : R) :
  let lower := Align1d.δt_lower wb_first t1 t2 in
  let upper := Align1d.δt_upper wb_last t1 t2 in
  lower = Rmax (t1 - t2) (wb_first - t1) /\
  upper = Rmin (t2 - t1) (wb_last - t2) /\
  (forall δt u : R, lower <= δt <= upper -> t1 <= u <= t2 ->
     wb_first <= u + δt <= wb_last) /\
  (forall (n : nat) (δt x : R),
     t1 < t2 -> wb_first <= t1 -> t2 <= wb_last ->
     δt ∈ Align1d.δt_brute_force lower upper n ->
     x ∈ Align1d.evaluation_times wa t1 t2 δt -> wb_first <= x <= wb_last) /\
  (forall δt x : R, lower <= δt <= upper ->
     x ∈ Align1d.evaluation_times wa t1 t2 δt -> wb_first <= x <= wb_last) /\
  (forall (S : Scipy) (σ : world) (la lb : loc) (a_first a_last : R) (n : option nat),
     spans σ la wa a_first a_last -> spans σ lb wb wb_first wb_last ->
     window_ok t1 t2 a_first a_last wb_first wb_last ->
     (@Align1d.align1d S la lb t1 t2 n σ).1
     = @Align1d.search S wa wb t1 t2 wb_first wb_last n) /\
  (forall (S : Scipy) (n : nat) (x : R),
     t1 < t2 -> wb_first <= t1 -> t2 <= wb_last ->
     @Align1d.search S wa wb t1 t2 wb_first wb_last (Some n) = Ok x ->
     exists (δ0 : R) (rest : list R),
       @Align1d.brute_force S wa wb t1 t2 (Align1d.δt_brute_force lower upper n) = Ok δ0 /\
       lower <= δ0 <= upper /\
       least_squares (fun y => @Align1d.cost S wa wb t1 t2 (nth 0 y 0))
         [δ0] [lower] [upper] = x :: rest) /\
  (forall (S S' : Scipy) (δt : R), lower <= δt <= upper ->
     (forall x : R, wb_first <= x <= wb_last ->
        @Align1d.norm_b S wb x = @Align1d.norm_b S' wb x) ->
     @Align1d.cost S wa wb t1 t2 δt = @Align1d.cost S' wa wb t1 t2 δt).
Proof.
  intros lower upper. split_and!; try reflexivity.
  - intros. by eapply δt_bounds_shift.
  - intros n δt x Ht H1 H2 Hδ Hx.
    eapply evaluation_times_inside; [|exact Hx].
    eapply linspace_bounds; [|exact Hδ].
    pose proof (δt_bounds_ordered wb_first wb_last t1 t2 Ht H1 H2) as Ho.
    subst lower upper. lra.
  - intros. by eapply evaluation_times_inside.
  - intros S σ la lb a_first a_last n Ha Hb Hok.
    destruct (run_align1d σ la lb wa wb a_first a_last wb_first wb_last t1 t2 n Ha Hb)
      as (evs & _ & [[_ Hrun]|[Hbad _]]); [|done].
    rewrite Hrun.
    by rewrite (run_body1d (with_events σ evs) la lb wa wb a_first a_last wb_first wb_last
                  t1 t2 n (spans_with_events _ _ _ _ _ _ Ha) (spans_with_events _ _ _ _ _ _ Hb)).
  - intros S n x Ht H1 H2 Hs.
    apply search1d_ok in Hs as (δ0 & rest & Hbf & Href).
    exists δ0, rest. split; [exact Hbf|]. split; [|exact Href].
    apply brute_force1d_minimises in Hbf as [Hin _].
    eapply linspace_bounds; [|exact Hin].
    pose proof (δt_bounds_ordered wb_first wb_last t1 t2 Ht H1 H2) as Ho.
    subst lower upper. lra.
  - intros S S' δt Hδ Hagree. apply cost1d_reads_evaluation_times.
    intros x Hx. apply Hagree. by eapply evaluation_times_inside.
Qed.

(** C3 fails as stated on the numbers that align1d computes with.  In
    binary64, for the window from -0.5 to 0.03, which passes the three checks,
    wa with a sample at each end of the window and wb from -0.5 to 0.29, the
    upper bound is [0.29 - 0.03], rounded, and the grid of two offsets ends
    with it; it lies within the bounds, the reference time [t2 = 0.03] lies
    in the window, and their sum, rounded, is greater than [wb.t[-1] = 0.29]:
    the cost of that offset evaluates the interpolant of wb's norm after the
    last sample of wb. *)
Lemma align1d_binary64_evaluates_beyond_wb_range :
  let t1 := Float64.example_t1 in
  let t2 := Float64.example_t2 in
  let lower := Float64.δt_lower Float64.example_wb_first t1 t2 in
  let upper := Float64.δt_upper Float64.example_wb_last t1 t2 in
  Float64.window_ok t1 t2 t1 t2 Float64.example_wb_first Float64.example_wb_last = true /\
  exists δt u : PrimFloat.float,
    δt ∈ Float64.δt_brute_force lower upper 2 /\
    PrimFloat.leb lower δt = true /\ PrimFloat.leb δt upper = true /\
    u ∈ Float64.t_reference Float64.example_wa_t t1 t2 /\
    PrimFloat.leb t1 u = true /\ PrimFloat.leb u t2 = true /\
    PrimFloat.add u δt ∈ Float64.evaluation_times Float64.example_wa_t t1 t2 δt /\
    PrimFloat.ltb Float64.example_wb_last (PrimFloat.add u δt) = true.
Proof.
  intros t1 t2 lower upper. split; [by vm_compute|].
  exists upper, t2. split_and!; try (by vm_compute).
  - apply list_elem_of_In. vm_compute. right. left. reflexivity.
  - apply list_elem_of_In. vm_compute. right. left. reflexivity.
  - apply list_elem_of_In. vm_compute. right. left. reflexivity.
Qed.

(** ** align2d: errors of the search in the run of the body *)

Lemma run_body2d_search_error {S : Scipy} σ wa la lb a b a_first a_last t1 t2
    n_δt n_δϕ t_ref e :
  spans σ la a a_first a_last -> heap σ !! lb = Some b ->
  Align2d.t_reference a t1 t2 = Ok t_ref ->
  Align2d.search a b (Align2d.common_ell_max a b) t_ref
    (Align2d.δt_lower a_first t1 t2) (Align2d.δt_upper a_last t1 t2)
    (Align2d.candidates a b t1 t2 (Align2d.δt_lower a_first t1 t2)
       (Align2d.δt_upper a_last t1 t2) n_δt n_δϕ) = Err e ->
  (Align2d.body wa la lb t1 t2 n_δt n_δϕ None σ).1 = Err e.
Proof.
  intros Ha Hb Ht Hs. unfold Align2d.body.
  run_get_first Ha. run_get_last Ha.
  run_read_at la (proj1 Ha). run_read_at lb Hb.
  rewrite Ht.
  rewrite (run_bind_ok _ _ _ _ _ (run_lift _ _)).
  unfold Align2d.remove_modes.
  rewrite (run_bind_ok (ret tt) _ _ tt _ eq_refl).
  run_read_at la (proj1 Ha). run_read_at lb Hb.
  rewrite Hs. done.
Qed.

Lemma search2d_shape_error {S : Scipy} a b ell_max t_ref lower upper cands e :
  Align2d.cost_shape a b ell_max = Err e -> cands <> [] ->
  Align2d.search a b ell_max t_ref lower upper cands = Err e.
Proof.
  intros He Hne. destruct cands as [|c cands]; [done|].
  unfold Align2d.search, Align2d.brute_force. simpl. by rewrite He.
Qed.

Lemma candidates_nonempty a b t1 t2 lower upper n m :
  (0 < n)%nat -> (0 < m)%nat ->
  Align2d.candidates a b t1 t2 lower upper (Some n) (Some m) <> [].
Proof.
  intros Hn Hm Hnil. apply (f_equal length) in Hnil.
  unfold Align2d.candidates, Align2d.δt_δϕ_brute_force, Align2d.δt_brute_force,
    Align2d.δϕ_brute_force in Hnil.
  rewrite meshgrid_rows_length, !length_linspace in Hnil. simpl in Hnil. nia.
Qed.

(** ** align2d: the phase factors *)

Lemma example3_spans_wa : spans example_world3 0%nat example_wa3 0 1.
Proof. split_and!; done. Qed.

Lemma example3_spans_wb : spans example_world3 1%nat example_wb (-1) 2.
Proof. split_and!; done. Qed.

Lemma example_wa3_t_reference : Align2d.t_reference example_wa3 0 1 = Ok [0; 1].
Proof.
  unfold Align2d.t_reference, Align2d.nearest_index.
  assert (map (fun u => Rabs (u - 0)) (t example_wa3) = [0; 1]) as ->.
  { simpl. rewrite !Rabs_numeral_pos by lra. repeat f_equal; lra. }
  assert (map (fun u => Rabs (u - 1)) (t example_wa3) = [1; 0]) as ->.
  { simpl. rewrite (Rabs_numeral_neg (0 - 1)) by lra.
    rewrite !Rabs_numeral_pos by lra. repeat f_equal; lra. }
  simpl. decide_Rlt. reflexivity.
Qed.

(** C2, at two failing inputs.  First, wa has the modes of ell = 2 and 3 and
    wb those of ell = 2: the retained modes are the five modes of ell = 2, and
    the slice of wa has their five columns, but [δϕ_factor] lists the twelve
    values of m of all the modes of wa.  Second, wa has the modes of ell = 0,
    1 and 2: the slice again has the five columns of ell = 2, and [δϕ_factor]
    the nine values of m from ell = 0 on.  In both cases the phase factors
    cannot be combined with the columns: every evaluation of the cost raises,
    and so does the construction of [wa_prime]. *)
Theorem phase_exponents_cover_all_modes_of_wa :
  let ell_max := Align2d.common_ell_max example_wa3 example_wb in
  map snd (Align2d.retained_modes ell_max) = [-2; -1; 0; 1; 2]%Z /\
  np.ncols (data (Align2d.modes_slice example_wa3 ell_max)) = 5%nat /\
  Align2d.δϕ_factor example_wa3 = [-2; -1; 0; 1; 2; -3; -2; -1; 0; 1; 2; 3]%Z /\
  np.ncols (data (Align2d.modes_slice example_wa_from0 ell_max)) = 5%nat /\
  Align2d.δϕ_factor example_wa_from0 = [0; -1; 0; 1; -2; -1; 0; 1; 2]%Z /\
  forall (S : Scipy) (t_ref : list R) (δt δϕ : R),
    Align2d.cost (S := S) example_wa3 example_wb ell_max t_ref [δt; δϕ]
    = Err (ValueError CannotBroadcast) /\
    Align2d.wa_prime (S := S) example_wa3 ell_max (Align2d.δϕ_factor example_wa3) δt δϕ
    = Err (ValueError CannotBroadcast) /\
    Align2d.cost (S := S) example_wa_from0 example_wb ell_max t_ref [δt; δϕ]
    = Err (ValueError CannotBroadcast) /\
    Align2d.wa_prime (S := S) example_wa_from0 ell_max
      (Align2d.δϕ_factor example_wa_from0) δt δϕ
    = Err (ValueError CannotBroadcast).
Proof. split_and!; try reflexivity. intros S t_ref δt δϕ. split_and!; reflexivity. Qed.

(** C5, at the failing input: for the same two waveforms and the window
    [[0, 1]], which passes the validation, align2d raises on the first
    evaluation of the cost and constructs no [wa_prime]. *)
Theorem align2d_raises_for_wa_with_more_modes :
  spans example_world3 0%nat example_wa3 0 1 /\
  spans example_world3 1%nat example_wb (-1) 2 /\
  window_ok 0 1 0 1 (-1) 2 /\
  forall S : Scipy,
    (Align2d.align2d (S := S) 0%nat 1%nat 0 1 (Some 2%nat) (Some 5%nat) None
       example_world3).1 = Err (ValueError CannotBroadcast).
Proof.
  split_and!; [apply example3_spans_wa | apply example3_spans_wb | apply example_window_ok |].
  intros S.
  destruct (run_align2d (S := S) example_world3 0%nat 1%nat example_wa3 example_wb 0 1 (-1) 2
              0 1 (Some 2%nat) (Some 5%nat) None example3_spans_wa example3_spans_wb)
    as (la & lb & evs & Hla & Hlb & Hne & _ & [[_ Hrun]|[Hbad _]]);
    [|by destruct Hbad; apply example_window_ok].
  rewrite Hrun.
  apply (run_body2d_search_error _ 0%nat la lb example_wa3 example_wb 0 1 0 1 _ _ [0; 1]).
  - split_and!; [|done..]. simpl. rewrite lookup_insert_ne by done. by rewrite lookup_insert_eq.
  - simpl. by rewrite lookup_insert_eq.
  - apply example_wa3_t_reference.
  - apply search2d_shape_error; [reflexivity|]. apply candidates_nonempty; lia.
Qed.

(** ** The reference interpolant and solver *)

Lemma strictly_increasing_cons x xs :
  strictly_increasing (x :: xs) ->
  (forall y, y ∈ xs -> x < y) /\ strictly_increasing xs.
Proof.
  intros Hinc. split.
  - intros y Hy. apply list_elem_of_lookup in Hy as [i Hi].
    apply (Hinc 0%nat (S i) x y); [done | done | lia].
  - intros i k a b Hi Hk Hlt. apply (Hinc (S i) (S k) a b); [done | done | lia].
Qed.



(** ** Nested grids *)



(** ** Bounds as boxes, and the brute-force minimum of align2d *)

Lemma in_box_1 lower upper δ : lower <= δ <= upper -> in_box [lower] [upper] [δ].
Proof. intros [? ?]. split; (apply Forall2_cons; split; [done | by apply Forall2_nil]). Qed.

Lemma in_box_2 l1 u1 l2 u2 x y :
  l1 <= x <= u1 -> l2 <= y <= u2 -> in_box [l1; l2] [u1; u2] [x; y].
Proof.
  intros [? ?] [? ?].
  split; (apply Forall2_cons; split; [done|]; apply Forall2_cons; split; [done|];
          by apply Forall2_nil).
Qed.

Lemma brute_force2d_minimises {S : Scipy} a b ell_max t_ref cands seed :
  Align2d.brute_force a b ell_max t_ref cands = Ok seed ->
  seed ∈ cands /\
  forall c, c ∈ cands ->
    Align2d.cost_value a b ell_max t_ref (fst seed) (snd seed)
    <= Align2d.cost_value a b ell_max t_ref (fst c) (snd c).
Proof.
  unfold Align2d.brute_force. intros Hbf.
  apply rbind_ok in Hbf as (costs & Hcosts & Hbf).
  apply rbind_ok in Hbf as (i & Hi & Hbf).
  destruct (cands !! i) as [c0|] eqn:Hc0; [|done]. injection Hbf as ->.
  apply rmapM_ok in Hcosts.
  assert (costs = map (fun c => Align2d.cost_value a b ell_max t_ref (fst c) (snd c)) cands) as ->.
  { clear -Hcosts. induction Hcosts as [|c v cands costs Hc _ IH]; simpl; [done|].
    f_equal; [|done]. unfold Align2d.cost in Hc.
    destruct (Align2d.cost_shape a b ell_max); simpl in Hc; congruence. }
  apply argmin_first_minimum in Hi as (v & Hv & Hle & _).
  rewrite list_lookup_fmap, Hc0 in Hv. injection Hv as <-.
  split; [by eapply list_elem_of_lookup_2|].
  intros c Hin. apply Hle.
  apply list_elem_of_fmap. exists c. done.
Qed.

(** ** The norms of the example waveforms *)

Lemma abs_sq_real n : Cx.abs (n, 0) ^ 2 = n * n.
Proof.
  unfold Cx.abs. simpl. rewrite Rmult_1_r, sqrt_sqrt; [lra|]. nra.
Qed.

Lemma abs_sq_zero : Cx.abs Cx.zero ^ 2 = 0.
Proof. unfold Cx.zero. rewrite abs_sq_real. lra. Qed.

Lemma sum_cons x l : np.sum (x :: l) = x + np.sum l.
Proof. reflexivity. Qed.

Lemma sum_abs_sq_zeros k :
  np.sum (map (fun z => Cx.abs z ^ 2) (replicate k Cx.zero)) = 0.
Proof.
  induction k as [|k IH]; [done|].
  change (replicate (S k) Cx.zero) with (Cx.zero :: replicate k Cx.zero).
  rewrite map_cons, sum_cons, IH, abs_sq_zero. lra.
Qed.

Lemma norm_waveform_of_norms ts ns ell_max :
  Forall (fun n => 0 <= n) ns -> norm (waveform_of_norms ts ns ell_max) = ns.
Proof.
  unfold norm, waveform_of_norms. cbn [data]. intros Hpos.
  induction Hpos as [|n ns Hn _ IH]; [done|].
  rewrite !map_cons. f_equal; [|exact IH].
  rewrite sum_cons, sum_abs_sq_zeros, abs_sq_real, Rplus_0_r. by apply sqrt_square.
Qed.

Lemma example_wa_norm : norm example_wa = [7; 7].
Proof. apply norm_waveform_of_norms. repeat constructor; lra. Qed.

Lemma example_t_reference : Align1d.t_reference example_wa 0 1 = [0; 1].
Proof.
  rewrite t_reference1d_filter. simpl.
  assert (in_window 0 1 0 = true) as -> by (apply in_window_spec; lra).
  assert (in_window 0 1 1 = true) as -> by (apply in_window_spec; lra).
  done.
Qed.

Lemma example_norm_a : Align1d.norm_a example_wa 0 1 = [7; 7].
Proof.
  unfold Align1d.norm_a. rewrite example_wa_norm. unfold window_mask. simpl.
  assert (in_window 0 1 0 = true) as -> by (apply in_window_spec; lra).
  assert (in_window 0 1 1 = true) as -> by (apply in_window_spec; lra).
  done.
Qed.

(** ** The brute-force minimum on nested grids *)


(** ** The example of a finer grid with a worse result *)




Lemma example_finer_wb_increasing : strictly_increasing (t example_wb_finer).
Proof.
  intros i k a b Hi Hk Hlt. simpl in Hi, Hk.
  destruct i as [|[|[|[|i]]]]; simpl in Hi; try done; injection Hi as <-;
    destruct k as [|[|[|[|k]]]]; simpl in Hk; try done; injection Hk as <-; try lia; lra.
Qed.






















(** ** align2d: the transformed waveform *)

Lemma run_bind_ok_inv {A B} (m : M A) (k : A -> M B) σ b σ' :
  bind m k σ = (Ok b, σ') ->
  exists a σ1, m σ = (Ok a, σ1) /\ k a σ1 = (Ok b, σ').
Proof.
  unfold bind. destruct (m σ) as [[a|e] σ1]; [eauto | done].
Qed.

Lemma kf_ret {A} (a : A) : keeps_frame (ret a).
Proof. intros σ l w Hl. exists w. done. Qed.

Lemma kf_raise {A} e : keeps_frame (@raise A e).
Proof. intros σ l w Hl. exists w. done. Qed.

Lemma kf_deref l0 : keeps_frame (deref l0).
Proof. intros σ l w Hl. exists w. unfold deref. by destruct (heap σ !! l0). Qed.

Lemma kf_bind {A B} (m : M A) (k : A -> M B) :
  keeps_frame m -> (forall a, keeps_frame (k a)) -> keeps_frame (bind m k).
Proof.
  intros Hm Hk σ l w Hl. destruct (Hm σ l w Hl) as (w1 & Hl1 & H1 & H2 & H3).
  unfold bind. destruct (m σ) as [[a|e] σ1]; simpl in *; [|exists w1; done].
  destruct (Hk a σ1 l w1 Hl1) as (w2 & Hl2 & H1' & H2' & H3').
  exists w2. split; [done|]. split_and!; congruence.
Qed.

Lemma kf_zero_mode l0 col : keeps_frame (zero_mode l0 col).
Proof.
  intros σ l w Hl. unfold zero_mode, bind, deref.
  destruct (heap σ !! l0) as [a|] eqn:Ha; [|exists w; done].
  destruct (np.item_index _ _); [|exists w; done]. simpl.
  destruct (decide (l = l0)) as [->|Hne].
  - rewrite lookup_insert_eq. eexists. split; [done|].
    assert (a = w) as -> by congruence. done.
  - rewrite lookup_insert_ne by done. exists w. done.
Qed.

Lemma kf_for_each {A} (l : list A) (body : A -> M unit) :
  (forall a, keeps_frame (body a)) -> keeps_frame (for_each l body).
Proof.
  intros Hbody. induction l as [|a l IH]; simpl; [apply kf_ret|].
  apply kf_bind; [apply Hbody | by intros _].
Qed.

Lemma kf_remove_modes la lb ell_max include_modes :
  keeps_frame (Align2d.remove_modes la lb ell_max include_modes).
Proof.
  unfold Align2d.remove_modes. destruct include_modes as [modes|]; [|apply kf_ret].
  apply kf_for_each. intros lm. destruct (Align2d.mode_in lm modes); [apply kf_ret|].
  apply kf_bind; [apply kf_deref|]. intros a.
  apply kf_bind; [apply kf_zero_mode|]. intros _.
  apply kf_bind; [apply kf_deref|]. intros b. apply kf_zero_mode.
Qed.

Lemma δϕ_factor_same_frame w w' :
  same_frame w w' -> Align2d.δϕ_factor w' = Align2d.δϕ_factor w.
Proof. intros (_ & Hmin & Hmax). unfold Align2d.δϕ_factor. by rewrite Hmin, Hmax. Qed.

Lemma get_time_heap l i σ : heap (get_time l i σ).2 = heap σ.
Proof.
  unfold get_time, bind, deref, emit.
  destruct (heap σ !! l) as [w|]; [|done]. simpl.
  destruct (np.item_index _ _); [|done]. by destruct (t w !! _).
Qed.

Lemma run_read_inv σ l w σ' :
  read l σ = (Ok w, σ') -> heap σ !! l = Some w /\ heap σ' = heap σ.
Proof.
  unfold read, bind, deref. destruct (heap σ !! l) as [w0|]; [|done].
  simpl. by intros [= <- <-].
Qed.

Lemma run_new_waveform_inv σ w l σ' :
  new_waveform w σ = (Ok l, σ') ->
  heap σ !! l = None /\ heap σ' !! l = Some w.
Proof.
  unfold new_waveform. intros [= <- <-]. simpl.
  split; [apply fresh_lookup | by rewrite lookup_insert_eq].
Qed.

(** The waveform returned by the body of align2d is built by [wa_prime]
    from the content that the caller's wa has in the store on entry, with the
    phase exponents and the common [ell_max] of the copies on entry. *)
Lemma run_body2d_ok {S : Scipy} σ wa la lb a t1 t2 n_δt n_δϕ include_modes x l σ' :
  heap σ !! wa = Some a -> wa <> la -> wa <> lb ->
  Align2d.body wa la lb t1 t2 n_δt n_δϕ include_modes σ = (Ok (x, l), σ') ->
  exists (a_copy b_copy : WaveformModes) (δt δϕ : R) (rest : list R) (w' : WaveformModes),
    heap σ !! la = Some a_copy /\ heap σ !! lb = Some b_copy /\
    x = δt :: δϕ :: rest /\
    Align2d.wa_prime a (Align2d.common_ell_max a_copy b_copy)
      (Align2d.δϕ_factor a_copy) δt δϕ = Ok w' /\
    heap σ' !! l = Some w' /\
    (forall l0 w0, heap σ !! l0 = Some w0 -> l0 <> l).
Proof.
  intros Hwa Hnea Hneb Hrun. unfold Align2d.body in Hrun.
  apply run_bind_ok_inv in Hrun as (x1 & σ1 & Hg1 & Hrun).
  apply run_bind_ok_inv in Hrun as (x2 & σ2 & Hg2 & Hrun).
  apply run_bind_ok_inv in Hrun as (a0 & σ3 & Hr1 & Hrun).
  apply run_bind_ok_inv in Hrun as (b0 & σ4 & Hr2 & Hrun).
  apply run_bind_ok_inv in Hrun as (t_ref & σ5 & Ht & Hrun).
  apply run_bind_ok_inv in Hrun as ([] & σ6 & Hrm & Hrun).
  apply run_bind_ok_inv in Hrun as (a' & σ7 & Hr3 & Hrun).
  apply run_bind_ok_inv in Hrun as (b' & σ8 & Hr4 & Hrun).
  apply run_bind_ok_inv in Hrun as (x_opt & σ9 & Hs & Hrun).
  apply run_bind_ok_inv in Hrun as (orig & σ10 & Hr5 & Hrun).
  destruct x_opt as [|δt [|δϕ rest]]; try done.
  apply run_bind_ok_inv in Hrun as (w' & σ11 & Hw & Hrun).
  apply run_bind_ok_inv in Hrun as (l' & σ12 & Hnew & Hrun).
  injection Hrun as <- <- <-.
  assert (heap σ1 = heap σ) as H1 by (rewrite <- (get_time_heap la 0 σ); by rewrite Hg1).
  assert (heap σ2 = heap σ1) as H2 by (rewrite <- (get_time_heap la (-1) σ1); by rewrite Hg2).
  apply run_read_inv in Hr1 as [Ha0 H3]. apply run_read_inv in Hr2 as [Hb0 H4].
  injection Ht as Ht <-.
  apply run_read_inv in Hr3 as [Ha' H7]. apply run_read_inv in Hr4 as [Hb' H8].
  injection Hs as Hs <-.
  apply run_read_inv in Hr5 as [Horig H10].
  injection Hw as Hw <-.
  apply run_new_waveform_inv in Hnew as [Hfresh Hl'].
  assert (heap σ4 = heap σ) as H04 by congruence.
  assert (σ6 = (Align2d.remove_modes la lb (Align2d.common_ell_max a0 b0) include_modes σ4).2)
    as Hσ6 by (by rewrite Hrm).
  assert (heap σ6 !! wa = Some a) as Hwa6.
  { rewrite Hσ6. apply (pe_remove_modes la lb); [by rewrite H04|].
    rewrite !elem_of_cons, elem_of_nil. intros [?|[?|[]]]; done. }
  assert (same_frame a0 a') as Hframe.
  { destruct (kf_remove_modes la lb (Align2d.common_ell_max a0 b0) include_modes σ4 la a0)
      as (w & Hw6 & Hsame); [congruence|].
    rewrite <- Hσ6 in Hw6. congruence. }
  assert (orig = a) as -> by congruence.
  rewrite (δϕ_factor_same_frame _ _ Hframe) in Hw.
  exists a0, b0, δt, δϕ, rest, w'. split_and!; try congruence.
  intros l0 w0 Hl0 ->.
  destruct (kf_remove_modes la lb (Align2d.common_ell_max a0 b0) include_modes σ4 l' w0)
    as (w & Hw6 & _); [congruence|].
  rewrite <- Hσ6 in Hw6. congruence.
Qed.

(** When align2d returns, the returned waveform is a new object built from
    the content that wa has on entry: resampled at the times of wa shifted
    by the optimal offset, its columns multiplied by the phase factors, with
    the range of ell from 2 to the common [ell_max]; the modes left out of
    [include_modes] are not zeroed in it. *)
Theorem align2d_returns_transformed_original {S : Scipy}
    (σ σ' : world) (wa wb : loc) (a b : WaveformModes)
    (a_first a_last b_first b_last t1 t2 : R)
    (n_brute_force_δt n_brute_force_δϕ : option nat)
    (include_modes : option (list (Z * Z))) (x : list R) (l : loc) :
  spans σ wa a a_first a_last -> spans σ wb b b_first b_last ->
  Align2d.align2d wa wb t1 t2 n_brute_force_δt n_brute_force_δϕ include_modes σ
  = (Ok (x, l), σ') ->
  exists (δt δϕ : R) (rest : list R) (w' : WaveformModes),
    x = δt :: δϕ :: rest /\
    heap σ !! l = None /\ heap σ' !! l = Some w' /\
    Align2d.wa_prime a (Align2d.common_ell_max a b) (Align2d.δϕ_factor a) δt δϕ = Ok w' /\
    t w' = map (fun u => u + δt) (t a) /\
    ell_min w' = 2%nat /\ ell_max w' = Nat.min (ell_max a) (ell_max b) /\
    data w'
    = map (fun u =>
             np.broadcast Cx.mul
               (Align2d.CubicSpline_modes (t a)
                  (data (Align2d.modes_slice a (Nat.min (ell_max a) (ell_max b)))) (u + δt))
               (Align2d.phase_factors δϕ (Align2d.δϕ_factor a)))
          (t a).
Proof.
  intros Ha Hb Hrun.
  destruct (run_align2d σ wa wb a b a_first a_last b_first b_last t1 t2
              n_brute_force_δt n_brute_force_δϕ include_modes Ha Hb)
    as (la & lb & evs & Hla & Hlb & Hne & _ & [[_ Hbody]|[_ (e & _ & Herr)]]);
    [|congruence].
  simpl in Hbody. rewrite Hbody in Hrun.
  assert (wa <> la) as Hwa_la by (destruct Ha as (Ha & _); congruence).
  assert (wa <> lb) as Hwa_lb by (destruct Ha as (Ha & _); congruence).
  apply run_body2d_ok with (a := a) in Hrun
      as (a_copy & b_copy & δt & δϕ & rest & w' & Hac & Hbc & -> & Hw & Hl & Hnew);
    [|simpl; rewrite !lookup_insert_ne by done; apply Ha|done..].
  simpl in Hac, Hbc.
  rewrite lookup_insert_ne, lookup_insert_eq in Hac by done.
  rewrite lookup_insert_eq in Hbc. injection Hac as <-. injection Hbc as <-.
  exists δt, δϕ, rest, w'. split_and!; try done.
  - destruct (heap σ !! l) as [w0|] eqn:Hl0; [|done]. exfalso.
    apply (Hnew l w0); [|done]. simpl.
    assert (l <> la) by congruence. assert (l <> lb) by congruence.
    by rewrite !lookup_insert_ne.
  - unfold Align2d.wa_prime in Hw. apply rbind_ok in Hw as (k & _ & [= <-]). done.
  - unfold Align2d.wa_prime in Hw. apply rbind_ok in Hw as (k & _ & [= <-]). done.
  - unfold Align2d.wa_prime in Hw. apply rbind_ok in Hw as (k & _ & [= <-]). done.
  - unfold Align2d.wa_prime in Hw. apply rbind_ok in Hw as (k & _ & [= <-]). done.
Qed.

Lemma rmapM_total {A B} (f : A -> result B) (g : A -> B) (l : list A) :
  (forall a, a ∈ l -> f a = Ok (g a)) -> rmapM f l = Ok (map g l).
Proof.
  induction l as [|a l IH]; intros Hf; simpl; [done|].
  rewrite (Hf a) by (apply elem_of_cons; by left). simpl.
  rewrite IH; [done|]. intros a' Ha'. apply Hf. apply elem_of_cons. by right.
Qed.

Lemma brute_force2d_total {S : Scipy} a b ell_max t_ref cands k :
  Align2d.cost_shape a b ell_max = Ok k -> cands <> [] ->
  exists seed, Align2d.brute_force a b ell_max t_ref cands = Ok seed.
Proof.
  intros Hshape Hne. unfold Align2d.brute_force.
  rewrite (rmapM_total _ (fun c => Align2d.cost_value a b ell_max t_ref (fst c) (snd c))).
  2:{ intros c _. unfold Align2d.cost. by rewrite Hshape. }
  simpl.
  destruct (argmin_nonempty
              (map (fun c => Align2d.cost_value a b ell_max t_ref (fst c) (snd c)) cands))
    as [i Hi].
  { by destruct cands. }
  rewrite Hi. simpl. apply argmin_first_minimum in Hi as (v & Hv & _).
  rewrite list_lookup_fmap in Hv. destruct (cands !! i) as [c|]; [eauto | done].
Qed.

Lemma example_wa_t_reference : Align2d.t_reference example_wa 0 1 = Ok [0; 1].
Proof. exact example_wa3_t_reference. Qed.

(** With waveforms of the same range of ell, align2d returns. *)
Lemma example_align2d_returns :
  exists (x : list R) (l : loc) (σ' : world),
    Align2d.align2d (S := reference_scipy) 0%nat 1%nat 0 1 (Some 2%nat) (Some 5%nat) None
      example_world = (Ok (x, l), σ').
Proof.
  destruct (run_align2d (S := reference_scipy) example_world 0%nat 1%nat example_wa example_wb
              0 1 (-1) 2 0 1 (Some 2%nat) (Some 5%nat) None example_spans_wa example_spans_wb)
    as (la & lb & evs & Hla & Hlb & Hne & _ & [[_ Hrun]|[Hbad _]]);
    [|by destruct Hbad; apply example_window_ok].
  rewrite Hrun. clear Hrun.
  set (σ := {| heap := <[lb:=example_wb]> (<[la:=example_wa]> (heap example_world));
               trace := trace example_world ++ [EvCopy 0%nat la; EvCopy 1%nat lb] ++ evs |}).
  assert (la <> 0%nat) as Hla0 by (intros ->; done).
  assert (lb <> 0%nat) as Hlb0 by (intros ->; done).
  assert (spans σ la example_wa 0 1) as Hsa.
  { split_and!; [|done..]. simpl. rewrite lookup_insert_ne by done. by rewrite lookup_insert_eq. }
  assert (heap σ !! lb = Some example_wb) as Hsb by (simpl; by rewrite lookup_insert_eq).
  assert (heap σ !! 0%nat = Some example_wa) as Hs0.
  { simpl. by rewrite !lookup_insert_ne by done. }
  unfold Align2d.body.
  run_get_first Hsa. run_get_last Hsa.
  run_read_at la (proj1 Hsa). run_read_at lb Hsb.
  rewrite example_wa_t_reference.
  rewrite (run_bind_ok _ _ _ _ _ (run_lift _ _)).
  unfold Align2d.remove_modes.
  rewrite (run_bind_ok (ret tt) _ _ tt _ eq_refl).
  run_read_at la (proj1 Hsa). run_read_at lb Hsb.
  destruct (brute_force2d_total (S := reference_scipy) example_wa example_wb
              (Align2d.common_ell_max example_wa example_wb) [0; 1]
              (Align2d.candidates example_wa example_wb 0 1 (Align2d.δt_lower 0 0 1)
                 (Align2d.δt_upper 1 0 1) (Some 2%nat) (Some 5%nat)) 5%nat)
    as [[δt δϕ] Hseed]; [reflexivity | apply candidates_nonempty; lia |].
  unfold Align2d.search. rewrite Hseed. simpl rbind.
  rewrite (run_bind_ok _ _ _ _ _ (run_lift _ _)).
  run_read_at 0%nat Hs0.
  unfold Align2d.refine. simpl least_squares. simpl fst. simpl snd.
  unfold Align2d.wa_prime.
  replace (np.broadcast_shape _ _) with (@Ok nat 5%nat) by reflexivity.
  simpl rbind.
  rewrite (run_bind_ok _ _ _ _ _ (run_lift _ _)).
  unfold bind, new_waveform, ret. eauto.
Qed.

Lemma align2d_returns_transformed_original_witness :
  exists (x : list R) (l : loc) (σ' : world) (δt δϕ : R) (rest : list R) (w' : WaveformModes),
    Align2d.align2d (S := reference_scipy) 0%nat 1%nat 0 1 (Some 2%nat) (Some 5%nat) None
      example_world = (Ok (x, l), σ') /\
    x = δt :: δϕ :: rest /\
    heap example_world !! l = None /\ heap σ' !! l = Some w' /\
    t w' = map (fun u => u + δt) (t example_wa) /\
    ell_min w' = 2%nat /\ ell_max w' = 2%nat.
Proof.
  destruct example_align2d_returns as (x & l & σ' & Hrun).
  destruct (align2d_returns_transformed_original (S := reference_scipy)
              example_world σ' 0%nat 1%nat example_wa example_wb 0 1 (-1) 2 0 1
              (Some 2%nat) (Some 5%nat) None x l example_spans_wa example_spans_wb Hrun)
    as (δt & δϕ & rest & w' & Hx & Hnew & Hl & _ & Ht & Hmin & Hmax & _).
  exists x, l, σ', δt, δϕ, rest, w'. split_and!; done.
Defined.

(** ** align2d: the phase exponents and the columns *)

Lemma length_range lo hi : length (range lo hi) = Z.to_nat (hi - lo).
Proof. unfold range. by rewrite length_map, length_seq. Qed.

Lemma range_lookup lo hi (k : nat) :
  (k < Z.to_nat (hi - lo))%nat -> range lo hi !! k = Some (lo + Z.of_nat k)%Z.
Proof.
  intros Hk. unfold range. rewrite list_lookup_fmap, lookup_seq_lt by done. done.
Qed.

Lemma range_cons lo hi : (lo < hi)%Z -> range lo hi = lo :: range (lo + 1) hi.
Proof.
  intros Hlt. unfold range.
  replace (Z.to_nat (hi - lo)) with (S (Z.to_nat (hi - (lo + 1)))) by lia.
  simpl. f_equal; [lia|]. rewrite <- fmap_S_seq, <- list_fmap_compose.
  apply list_fmap_ext. intros i x _. simpl. lia.
Qed.

(** The modes [(L, M)] for [L] from [lo], [n] values of [L], in the order of
    the arrays: the mode [(ell, m)] stands at the index [LM ell m lo]. *)
Lemma modes_lookup {A} (g : Z -> Z -> A) (n : nat) (lo ell m : Z) :
  (0 <= lo)%Z -> (lo <= ell < lo + Z.of_nat n)%Z -> (- ell <= m <= ell)%Z ->
  flat_map (fun L => map (g L) (range (- L) (L + 1))) (range lo (lo + Z.of_nat n))
    !! Z.to_nat (LM ell m lo) = Some (g ell m).
Proof.
  revert lo. induction n as [|n IH]; intros lo Hlo Hell Hm; [lia|].
  rewrite range_cons by lia. simpl.
  assert (length (map (g lo) (range (- lo) (lo + 1))) = Z.to_nat (2 * lo + 1)) as Hlen.
  { rewrite length_map, length_range. f_equal. lia. }
  unfold LM. destruct (decide (ell = lo)) as [->|Hne].
  - rewrite lookup_app_l by (rewrite Hlen; nia).
    rewrite list_lookup_fmap, range_lookup by nia. simpl. f_equal. f_equal. nia.
  - rewrite lookup_app_r by (rewrite Hlen; nia). rewrite Hlen.
    replace (lo + Z.of_nat (S n))%Z with (lo + 1 + Z.of_nat n)%Z by lia.
    replace (Z.to_nat (ell * (ell + 1) - lo ^ 2 + m) - Z.to_nat (2 * lo + 1))%nat
      with (Z.to_nat (LM ell m (lo + 1))) by (unfold LM; nia).
    apply IH; lia.
Qed.

Lemma modes_length {A} (g : Z -> Z -> A) (n : nat) (lo : Z) :
  (0 <= lo)%Z ->
  length (flat_map (fun L => map (g L) (range (- L) (L + 1))) (range lo (lo + Z.of_nat n)))
  = Z.to_nat ((lo + Z.of_nat n) ^ 2 - lo ^ 2).
Proof.
  revert lo. induction n as [|n IH]; intros lo Hlo.
  - replace (lo + Z.of_nat 0)%Z with lo by lia. unfold range.
    replace (Z.to_nat (lo - lo)) with 0%nat by lia. simpl. lia.
  - rewrite range_cons by lia. simpl. rewrite length_app, length_map, length_range.
    replace (lo + Z.of_nat (S n))%Z with (lo + 1 + Z.of_nat n)%Z by lia.
    rewrite IH by lia. nia.
Qed.

(** The phase exponents follow the columns of the whole mode array of wa:
    the exponent at the index of mode [(ell, m)] is [m]. *)
Lemma δϕ_factor_lookup (w : WaveformModes) (ell m : Z) :
  (Z.of_nat (ell_min w) <= ell <= Z.of_nat (ell_max w))%Z -> (- ell <= m <= ell)%Z ->
  Align2d.δϕ_factor w !! Z.to_nat (LM ell m (Z.of_nat (ell_min w))) = Some m.
Proof.
  intros Hell Hm. unfold Align2d.δϕ_factor.
  replace (Z.of_nat (ell_max w) + 1)%Z
    with (Z.of_nat (ell_min w) + Z.of_nat (ell_max w + 1 - ell_min w))%Z by lia.
  rewrite (flat_map_ext _ (fun L => map (fun M => M) (range (- L) (L + 1))))
    by (intros L; by rewrite map_id).
  apply (modes_lookup (fun _ M => M)); lia.
Qed.

Lemma retained_modes_lookup (ell_max : nat) (ell m : Z) :
  (2 <= ell <= Z.of_nat ell_max)%Z -> (- ell <= m <= ell)%Z ->
  Align2d.retained_modes ell_max !! Z.to_nat (LM ell m 2) = Some (ell, m).
Proof.
  intros Hell Hm. unfold Align2d.retained_modes.
  replace (Z.of_nat ell_max + 1)%Z with (2 + Z.of_nat (ell_max - 1))%Z by lia.
  apply (modes_lookup (fun L M => (L, M))); lia.
Qed.

(** For a wa whose modes start at ell = 2 and go no further than those of
    wb, the phase exponents are paired with the retained modes: the mode
    [(ell, m)] stands in column [LM(ell, m, 2) - LM(2, -2, 2)] of the slice, the
    exponent at that index is its [m], and there are as many exponents as
    retained modes. *)
Theorem phase_exponents_match_retained_modes (a b : WaveformModes) (ell m : Z) :
  ell_min a = 2%nat -> (ell_max a <= ell_max b)%nat ->
  (2 <= ell <= Z.of_nat (ell_max a))%Z -> (- ell <= m <= ell)%Z ->
  let k := Z.to_nat (LM ell m 2 - LM 2 (-2) 2) in
  Align2d.retained_modes (Align2d.common_ell_max a b) !! k = Some (ell, m) /\
  Align2d.δϕ_factor a !! k = Some m /\
  length (Align2d.δϕ_factor a) = length (Align2d.retained_modes (Align2d.common_ell_max a b)).
Proof.
  intros Hmin Hmax Hell Hm k.
  assert (Align2d.common_ell_max a b = ell_max a) as ->.
  { unfold Align2d.common_ell_max. lia. }
  assert (k = Z.to_nat (LM ell m 2)) as -> by (unfold k, LM; lia).
  split_and!.
  - by apply retained_modes_lookup.
  - pose proof (δϕ_factor_lookup a ell m) as H. rewrite Hmin in H. apply H; lia.
  - unfold Align2d.δϕ_factor, Align2d.retained_modes. rewrite Hmin.
    replace (Z.of_nat (ell_max a) + 1)%Z with (2 + Z.of_nat (ell_max a - 1))%Z by lia.
    rewrite (flat_map_ext _ (fun L => map (fun M => M) (range (- L) (L + 1))))
      by (intros L; by rewrite map_id).
    change (Z.of_nat 2) with 2%Z.
    by rewrite (modes_length (fun _ M => M)), (modes_length (fun L M => (L, M))) by lia.
Qed.

Lemma phase_exponents_match_retained_modes_witness :
  Align2d.retained_modes (Align2d.common_ell_max example_wa example_wb) !! 3%nat
  = Some (2, 1)%Z /\
  Align2d.δϕ_factor example_wa !! 3%nat = Some 1%Z.
Proof.
  destruct (phase_exponents_match_retained_modes example_wa example_wb 2 1)
    as (H1 & H2 & _); [reflexivity | simpl; lia | simpl; lia | lia |].
  split; [exact H1 | exact H2].
Defined.

(** The phase exponents are laid out by the columns of the whole mode array
    of wa, from its own [ell_min] to its own [ell_max]: the exponent at the
    index [LM(ell, m, wa.ell_min)] is [m], and there are
    [(wa.ell_max + 1)^2 - wa.ell_min^2] of them. *)
Theorem phase_exponents_follow_columns_of_wa (w : WaveformModes) (ell m : Z) :
  (Z.of_nat (ell_min w) <= ell <= Z.of_nat (ell_max w))%Z -> (- ell <= m <= ell)%Z ->
  Align2d.δϕ_factor w !! Z.to_nat (LM ell m (Z.of_nat (ell_min w))) = Some m /\
  length (Align2d.δϕ_factor w)
  = Z.to_nat ((Z.of_nat (ell_max w) + 1) ^ 2 - Z.of_nat (ell_min w) ^ 2).
Proof.
  intros Hell Hm. split; [by apply δϕ_factor_lookup|].
  unfold Align2d.δϕ_factor.
  replace (Z.of_nat (ell_max w) + 1)%Z
    with (Z.of_nat (ell_min w) + Z.of_nat (ell_max w + 1 - ell_min w))%Z by lia.
  rewrite (flat_map_ext _ (fun L => map (fun M => M) (range (- L) (L + 1))))
    by (intros L; by rewrite map_id).
  by rewrite (modes_length (fun _ M => M)) by lia.
Qed.

Lemma phase_exponents_follow_columns_of_wa_witness :
  Align2d.δϕ_factor example_wa3 !! 5%nat = Some (-3)%Z /\
  length (Align2d.δϕ_factor example_wa3) = 12%nat.
Proof.
  apply (phase_exponents_follow_columns_of_wa example_wa3 3 (-3)); simpl; lia.
Defined.
(** ** The shift bounds and the brute-force seed *)

Lemma δt_bounds_window first last_ t1 t2 :
  t1 < t2 -> first <= t1 -> t2 <= last_ ->
  - (t2 - t1) <= Align1d.δt_lower first t1 t2 <= 0 /\
  0 <= Align1d.δt_upper last_ t1 t2 <= t2 - t1 /\
  (Align1d.δt_lower first t1 t2 = Align1d.δt_upper last_ t1 t2 <-> first = t1 /\ last_ = t2).
Proof.
  unfold Align1d.δt_lower, Align1d.δt_upper. intros Ht H1 H2.
  pose proof (Rmax_l (t1 - t2) (first - t1)).
  pose proof (Rmax_r (t1 - t2) (first - t1)).
  pose proof (Rmin_l (t2 - t1) (last_ - t2)).
  pose proof (Rmin_r (t2 - t1) (last_ - t2)).
  assert (Rmax (t1 - t2) (first - t1) <= 0) by (apply Rmax_lub; lra).
  assert (0 <= Rmin (t2 - t1) (last_ - t2)) by (apply Rmin_glb; lra).
  split; [lra|]. split; [lra|]. split.
  - intros Heq. unfold Rmax, Rmin in *.
    destruct (Rle_dec (t1 - t2) (first - t1)), (Rle_dec (t2 - t1) (last_ - t2)); split; lra.
  - intros [-> ->]. rewrite Rmax_right, Rmin_right by lra. lra.
Qed.

(** For a window that passes the validation, the zero shift lies within the
    bounds of both aligners, no admissible shift is longer than the window,
    and the bounds coincide exactly when the waveform they are measured
    against (wb for align1d, wa for align2d) spans the window and no more. *)
Theorem shift_bounds_of_a_valid_window (first last_ t1 t2 : R) :
  t1 < t2 -> first <= t1 -> t2 <= last_ ->
  (- (t2 - t1) <= Align1d.δt_lower first t1 t2 <= 0 /\
   0 <= Align1d.δt_upper last_ t1 t2 <= t2 - t1 /\
   (Align1d.δt_lower first t1 t2 = Align1d.δt_upper last_ t1 t2
    <-> first = t1 /\ last_ = t2)) /\
  (- (t2 - t1) <= Align2d.δt_lower first t1 t2 <= 0 /\
   0 <= Align2d.δt_upper last_ t1 t2 <= t2 - t1 /\
   (Align2d.δt_lower first t1 t2 = Align2d.δt_upper last_ t1 t2
    <-> first = t1 /\ last_ = t2)).
Proof. intros Ht H1 H2. split; by apply δt_bounds_window. Qed.

Lemma shift_bounds_of_a_valid_window_witness :
  (- (1 - 0) <= Align1d.δt_lower (-1) 0 1 <= 0 /\
   0 <= Align1d.δt_upper 2 0 1 <= 1 - 0 /\
   (Align1d.δt_lower (-1) 0 1 = Align1d.δt_upper 2 0 1 <-> -1 = 0 /\ 2 = 1)) /\
  (- (1 - 0) <= Align2d.δt_lower (-1) 0 1 <= 0 /\
   0 <= Align2d.δt_upper 2 0 1 <= 1 - 0 /\
   (Align2d.δt_lower (-1) 0 1 = Align2d.δt_upper 2 0 1 <-> -1 = 0 /\ 2 = 1)).
Proof. apply (shift_bounds_of_a_valid_window (-1) 2 0 1); lra. Defined.

(** The brute-force seed handed to the solver lies within the bounds handed
    to it: for a window that passes the validation, the seed of align1d is
    between [δt_lower] and [δt_upper], and that of align2d has its time
    offset between them and its phase offset in [[0, 2π)]. *)
Theorem brute_force_seed_within_solver_bounds {S : Scipy}
    (a b : WaveformModes) (t1 t2 first last_ : R) (n : nat) :
  t1 < t2 -> first <= t1 -> t2 <= last_ ->
  (forall δ0 : R,
     Align1d.brute_force a b t1 t2
       (Align1d.δt_brute_force (Align1d.δt_lower first t1 t2)
          (Align1d.δt_upper last_ t1 t2) n) = Ok δ0 ->
     in_box [Align1d.δt_lower first t1 t2] [Align1d.δt_upper last_ t1 t2] [δ0]) /\
  (forall (ell_max : nat) (t_ref : list R) (n_δϕ : nat) (seed : R * R),
     Align2d.brute_force a b ell_max t_ref
       (Align2d.δt_δϕ_brute_force
          (Align2d.δt_brute_force (Align2d.δt_lower first t1 t2)
             (Align2d.δt_upper last_ t1 t2) n)
          (Align2d.δϕ_brute_force n_δϕ)) = Ok seed ->
     in_box [Align2d.δt_lower first t1 t2; 0] [Align2d.δt_upper last_ t1 t2; 2 * PI]
       [fst seed; snd seed] /\
     snd seed < 2 * PI).
Proof.
  intros Ht H1 H2.
  pose proof (δt_bounds_ordered first last_ t1 t2 Ht H1 H2) as Hord.
  split.
  - intros δ0 Hbf. apply brute_force1d_minimises in Hbf as [Hin _].
    apply in_box_1. eapply linspace_bounds; [|exact Hin]. lra.
  - intros ell_max t_ref n_δϕ [δt0 δϕ0] Hbf.
    apply brute_force2d_minimises in Hbf as [Hin _]. simpl.
    apply meshgrid_rows_elem in Hin as [Hδt Hδϕ].
    apply δϕ_brute_force_range in Hδϕ.
    split; [|lra]. apply in_box_2; [|lra].
    eapply linspace_bounds; [|exact Hδt].
    unfold Align2d.δt_lower, Align2d.δt_upper.
    unfold Align1d.δt_lower, Align1d.δt_upper in Hord. lra.
Qed.

Lemma brute_force_seed_within_solver_bounds_witness :
  (forall δ0 : R,
     Align1d.brute_force (S := reference_scipy) example_wa example_wb 0 1
       (Align1d.δt_brute_force (Align1d.δt_lower (-1) 0 1)
          (Align1d.δt_upper 2 0 1) 3) = Ok δ0 ->
     in_box [Align1d.δt_lower (-1) 0 1] [Align1d.δt_upper 2 0 1] [δ0]) /\
  (forall (ell_max : nat) (t_ref : list R) (n_δϕ : nat) (seed : R * R),
     Align2d.brute_force (S := reference_scipy) example_wa example_wb ell_max t_ref
       (Align2d.δt_δϕ_brute_force
          (Align2d.δt_brute_force (Align2d.δt_lower (-1) 0 1)
             (Align2d.δt_upper 2 0 1) 3)
          (Align2d.δϕ_brute_force n_δϕ)) = Ok seed ->
     in_box [Align2d.δt_lower (-1) 0 1; 0] [Align2d.δt_upper 2 0 1; 2 * PI]
       [fst seed; snd seed] /\
     snd seed < 2 * PI).
Proof.
  apply (brute_force_seed_within_solver_bounds (S := reference_scipy)
           example_wa example_wb 0 1 (-1) 2 3); lra.
Defined.

(** ** The order of the candidates and ties of the brute-force search *)

Lemma meshgrid_rows_lookup (x y : list R) (i k : nat) (u v : R) :
  x !! i = Some u -> y !! k = Some v ->
  np.meshgrid_rows x y !! (i * length y + k)%nat = Some (u, v).
Proof.
  unfold np.meshgrid_rows. revert i. induction x as [|xi x IH]; intros i Hu Hv; [done|].
  simpl. destruct i as [|i]; simpl in *.
  - injection Hu as ->. rewrite lookup_app_l.
    + by rewrite list_lookup_fmap, Hv.
    + rewrite length_map. by eapply lookup_lt_Some.
  - rewrite lookup_app_r by (rewrite length_map; lia).
    rewrite length_map. replace (length y + i * length y + k - length y)%nat
      with (i * length y + k)%nat by lia.
    by apply IH.
Qed.

Lemma meshgrid_rows_lookup_inv (x y : list R) (n : nat) (c : R * R) :
  np.meshgrid_rows x y !! n = Some c ->
  exists i k : nat, n = (i * length y + k)%nat /\ x !! i = Some (fst c) /\ y !! k = Some (snd c).
Proof.
  unfold np.meshgrid_rows. revert n. induction x as [|xi x IH]; intros n Hn; [done|].
  simpl in Hn. destruct (decide (n < length y)%nat) as [Hlt|Hge].
  - rewrite lookup_app_l in Hn by (by rewrite length_map).
    rewrite list_lookup_fmap in Hn. destruct (y !! n) as [v|] eqn:Hv; [|done].
    injection Hn as <-. exists 0%nat, n. done.
  - rewrite lookup_app_r in Hn by (rewrite length_map; lia). rewrite length_map in Hn.
    apply IH in Hn as (i & k & Heq & Hi & Hk).
    exists (S i), k. split_and!; [simpl; lia|done..].
Qed.

Lemma brute_force1d_first {S : Scipy} a b t1 t2 grid δ0 :
  Align1d.brute_force a b t1 t2 grid = Ok δ0 ->
  exists i : nat, grid !! i = Some δ0 /\
    first_minimum (map (Align1d.cost a b t1 t2) grid) i.
Proof.
  unfold Align1d.brute_force. intros Hbf.
  destruct (np.argmin _) as [k|] eqn:Hk; simpl in Hbf; [|done].
  destruct (grid !! k) as [δ|] eqn:Hδ; [|done]. injection Hbf as ->.
  exists k. split; [done|]. by apply argmin_first_minimum.
Qed.

Lemma brute_force2d_costs {S : Scipy} a b ell_max t_ref cands costs :
  rmapM (fun c => Align2d.cost a b ell_max t_ref [fst c; snd c]) cands = Ok costs ->
  costs = map (fun c => Align2d.cost_value a b ell_max t_ref (fst c) (snd c)) cands.
Proof.
  intros Hcosts. apply rmapM_ok in Hcosts.
  induction Hcosts as [|c v cands costs Hc _ IH]; simpl; [done|].
  f_equal; [|done]. unfold Align2d.cost in Hc.
  destruct (Align2d.cost_shape a b ell_max); simpl in Hc; congruence.
Qed.

Lemma brute_force2d_first {S : Scipy} a b ell_max t_ref cands seed :
  Align2d.brute_force a b ell_max t_ref cands = Ok seed ->
  exists i : nat, cands !! i = Some seed /\
    first_minimum
      (map (fun c => Align2d.cost_value a b ell_max t_ref (fst c) (snd c)) cands) i.
Proof.
  unfold Align2d.brute_force. intros Hbf.
  apply rbind_ok in Hbf as (costs & Hcosts & Hbf).
  apply rbind_ok in Hbf as (i & Hi & Hbf).
  destruct (cands !! i) as [c0|] eqn:Hc0; [|done]. injection Hbf as ->.
  apply brute_force2d_costs in Hcosts as ->.
  exists i. split; [done|]. by apply argmin_first_minimum.
Qed.

(** Among the grid points of least cost the brute-force search takes the
    first one in the order of the grid.  For align1d every earlier offset of
    the grid has a strictly larger cost than the seed.  For align2d the
    candidates are ordered by the index of the time offset and then by that of
    the phase offset, and every candidate before the seed in that order has a
    strictly larger cost. *)
Theorem brute_force_takes_the_first_minimum {S : Scipy} :
  (forall (a b : WaveformModes) (t1 t2 : R) (grid : list R) (δ0 : R),
     Align1d.brute_force a b t1 t2 grid = Ok δ0 ->
     exists i : nat, grid !! i = Some δ0 /\
       forall (k : nat) (δ : R), grid !! k = Some δ ->
         Align1d.cost a b t1 t2 δ0 <= Align1d.cost a b t1 t2 δ /\
         ((k < i)%nat -> Align1d.cost a b t1 t2 δ0 < Align1d.cost a b t1 t2 δ)) /\
  (forall (a b : WaveformModes) (ell_max : nat) (t_ref δts δϕs : list R) (seed : R * R),
     Align2d.brute_force a b ell_max t_ref (Align2d.δt_δϕ_brute_force δts δϕs) = Ok seed ->
     exists i k : nat, δts !! i = Some (fst seed) /\ δϕs !! k = Some (snd seed) /\
       forall (i' k' : nat) (δt δϕ : R), δts !! i' = Some δt -> δϕs !! k' = Some δϕ ->
         Align2d.cost_value a b ell_max t_ref (fst seed) (snd seed)
         <= Align2d.cost_value a b ell_max t_ref δt δϕ /\
         ((i' < i)%nat \/ (i' = i /\ (k' < k)%nat) ->
          Align2d.cost_value a b ell_max t_ref (fst seed) (snd seed)
          < Align2d.cost_value a b ell_max t_ref δt δϕ)).
Proof.
  split.
  - intros a b t1 t2 grid δ0 Hbf.
    apply brute_force1d_first in Hbf as (i & Hi & v & Hv & Hle & Hfirst).
    rewrite list_lookup_fmap, Hi in Hv. injection Hv as <-.
    exists i. split; [done|]. intros k δ Hk. split.
    + apply Hle. apply list_elem_of_fmap. exists δ. split; [done|].
      by eapply list_elem_of_lookup_2.
    + intros Hlt. apply (Hfirst k); [done|]. by rewrite list_lookup_fmap, Hk.
  - intros a b ell_max t_ref δts δϕs seed Hbf.
    apply brute_force2d_first in Hbf as (n & Hn & v & Hv & Hle & Hfirst).
    rewrite list_lookup_fmap, Hn in Hv. injection Hv as <-.
    unfold Align2d.δt_δϕ_brute_force in *.
    pose proof Hn as Hn'.
    apply meshgrid_rows_lookup_inv in Hn' as (i & k & -> & Hi & Hk).
    exists i, k. split_and!; [done..|].
    intros i' k' δt δϕ Hi' Hk'.
    pose proof (meshgrid_rows_lookup δts δϕs i' k' δt δϕ Hi' Hk') as Hc.
    split.
    + apply Hle. apply list_elem_of_fmap. exists (δt, δϕ). split; [done|].
      by eapply list_elem_of_lookup_2.
    + intros Hlt. apply (Hfirst (i' * length δϕs + k')%nat).
      * apply lookup_lt_Some in Hk. apply lookup_lt_Some in Hk'.
        destruct Hlt as [Hlt|[-> Hlt]]; nia.
      * by rewrite list_lookup_fmap, Hc.
Qed.

(** ** A brute-force grid without points *)

Lemma count_true_window_mask_0 ts t1 t2 :
  (forall u : R, u ∈ ts -> ~ (t1 <= u <= t2)) ->
  np.count_true (window_mask ts t1 t2) = 0%nat.
Proof.
  unfold np.count_true, window_mask. induction ts as [|u ts IH]; intros Hout; [done|].
  simpl. destruct (in_window t1 t2 u) eqn:Hu.
  - apply in_window_spec in Hu. exfalso. apply (Hout u); [left|done].
  - apply IH. intros v Hv. apply Hout. by right.
Qed.

Lemma linspace_0 a b e : np.linspace a b 0 e = [].
Proof. unfold np.linspace. simpl. by destruct e. Qed.

Lemma search1d_empty_grid {S : Scipy} a b t1 t2 x y n :
  length (data a) = length (t a) ->
  match n with
  | Some k => k = 0%nat
  | None => default_n_brute_force (t a) (t b) t1 t2 = 0%nat
  end ->
  Align1d.search a b t1 t2 x y n = Err (ValueError EmptyArgmin).
Proof.
  intros Hlen Hn. unfold Align1d.search.
  assert (length (norm a) = length (t a)) as -> by (unfold norm; by rewrite length_map).
  rewrite Nat.eqb_refl.
  destruct n as [k|]; rewrite Hn; unfold Align1d.δt_brute_force; by rewrite linspace_0.
Qed.

Lemma search2d_empty_grid {S : Scipy} a b ell_max t_ref lower upper :
  Align2d.search a b ell_max t_ref lower upper [] = Err (ValueError EmptyArgmin).
Proof. done. Qed.

Lemma meshgrid_rows_nil_r (x : list R) : np.meshgrid_rows x [] = [].
Proof. unfold np.meshgrid_rows. induction x as [|xi x IH]; simpl; done. Qed.

Lemma candidates_empty a b t1 t2 lower upper n_δt n_δϕ :
  match n_δt with
  | Some k => k = 0%nat
  | None => default_n_brute_force (t a) (t b) t1 t2 = 0%nat
  end \/ n_δϕ = Some 0%nat ->
  Align2d.candidates a b t1 t2 lower upper n_δt n_δϕ = [].
Proof.
  unfold Align2d.candidates, Align2d.δt_δϕ_brute_force, Align2d.δt_brute_force,
    Align2d.δϕ_brute_force.
  intros [Hn| ->].
  - destruct n_δt as [k|]; rewrite Hn; by rewrite linspace_0.
  - rewrite linspace_0. apply meshgrid_rows_nil_r.
Qed.

Lemma spans_nonempty σ l w x y : spans σ l w x y -> t w <> [].
Proof. intros (_ & Hx & _) Hnil. by rewrite Hnil in Hx. Qed.

(** A call with a window that passes the validation and a brute-force grid
    without points raises numpy's [ValueError] for the argmin of an empty
    sequence, for both aligners (align2d called without [include_modes]).  The
    grid is empty when the count passed is 0, and when no count is passed for
    the time offsets and no sample of wa and none of wb has its time in the
    window; for align2d also when the count of phase offsets is 0. *)
Theorem aligners_raise_on_an_empty_grid {S : Scipy}
    (σ : world) (wa wb : loc) (a b : WaveformModes)
    (a_first a_last b_first b_last t1 t2 : R) (n n_δϕ : option nat) :
  spans σ wa a a_first a_last -> spans σ wb b b_first b_last ->
  window_ok t1 t2 a_first a_last b_first b_last ->
  length (data a) = length (t a) ->
  (n = Some 0%nat \/
   (n = None /\ forall u : R, u ∈ t a ++ t b -> ~ (t1 <= u <= t2))) ->
  (Align1d.align1d wa wb t1 t2 n σ).1 = Err (ValueError EmptyArgmin) /\
  (Align2d.align2d wa wb t1 t2 n n_δϕ None σ).1 = Err (ValueError EmptyArgmin) /\
  (forall n_δt : option nat,
     (Align2d.align2d wa wb t1 t2 n_δt (Some 0%nat) None σ).1
     = Err (ValueError EmptyArgmin)).
Proof.
  intros Ha Hb Hok Hlen Hn.
  assert (match n with
          | Some k => k = 0%nat
          | None => default_n_brute_force (t a) (t b) t1 t2 = 0%nat
          end) as Hn'.
  { destruct Hn as [->|[-> Hout]]; [done|]. unfold default_n_brute_force.
    rewrite !count_true_window_mask_0; [done|..];
      intros u Hu; apply Hout; apply elem_of_app; auto. }
  assert (forall n_δt n_δϕ',
            Align2d.candidates a b t1 t2 (Align2d.δt_lower a_first t1 t2)
              (Align2d.δt_upper a_last t1 t2) n_δt n_δϕ' = [] ->
            (Align2d.align2d wa wb t1 t2 n_δt n_δϕ' None σ).1
            = Err (ValueError EmptyArgmin)) as H2d.
  { intros n_δt n_δϕ' Hc.
    destruct (run_align2d σ wa wb a b a_first a_last b_first b_last t1 t2 n_δt n_δϕ' None
                Ha Hb) as (la & lb & evs & Hla & Hlb & Hne & _ & Hrun).
    simpl in Hrun. destruct Hrun as [[_ ->]|[Hbad _]]; [|done].
    destruct (t_reference2d_total a t1 t2 (spans_nonempty _ _ _ _ _ Ha)) as [t_ref Ht].
    eapply run_body2d_search_error; [| |exact Ht|].
    - destruct Ha as (_ & Hx & Hy). split; [|done]. simpl.
      rewrite lookup_insert_ne by done. by rewrite lookup_insert_eq.
    - simpl. by rewrite lookup_insert_eq.
    - by rewrite Hc. }
  split_and!.
  - destruct (run_align1d σ wa wb a b a_first a_last b_first b_last t1 t2 n Ha Hb)
      as (evs & _ & [[_ ->]|[Hbad _]]); [|done].
    erewrite run_body1d; [|by apply spans_with_events..]. simpl.
    by apply search1d_empty_grid.
  - apply H2d. apply candidates_empty. by left.
  - intros n_δt. apply H2d. apply candidates_empty. by right.
Qed.

Lemma aligners_raise_on_an_empty_grid_witness :
  (Align1d.align1d (S := reference_scipy) 0%nat 1%nat (1 / 4) (3 / 4) None example_world).1
  = Err (ValueError EmptyArgmin) /\
  (Align2d.align2d (S := reference_scipy) 0%nat 1%nat (1 / 4) (3 / 4) None (Some 5%nat) None
     example_world).1
  = Err (ValueError EmptyArgmin) /\
  (forall n_δt : option nat,
     (Align2d.align2d (S := reference_scipy) 0%nat 1%nat (1 / 4) (3 / 4) n_δt (Some 0%nat) None
        example_world).1
     = Err (ValueError EmptyArgmin)).
Proof.
  apply (aligners_raise_on_an_empty_grid (S := reference_scipy) example_world 0%nat 1%nat
           example_wa example_wb 0 1 (-1) 2 (1 / 4) (3 / 4) None (Some 5%nat)).
  - exact example_spans_wa.
  - exact example_spans_wb.
  - unfold window_ok. lra.
  - reflexivity.
  - right. split; [reflexivity|]. intros u Hu. simpl in Hu.
    repeat (apply elem_of_cons in Hu as [->|Hu]); try lra.
    by apply elem_of_nil in Hu.
Defined.

(** ** The phase factors *)

Lemma exp_j_real x : Cx.exp (Cx.mul Cx.j (Cx.of_real x)) = (cos x, sin x).
Proof.
  unfold Cx.exp, Cx.mul, Cx.j, Cx.of_real. simpl.
  replace (0 * x - 1 * 0) with 0 by ring. replace (0 * 0 + 1 * x) with x by ring.
  rewrite exp_0. f_equal; ring.
Qed.

Lemma exp_j_period x (k : Z) :
  Cx.exp (Cx.mul Cx.j (Cx.of_real (x + 2 * IZR k * PI)))
  = Cx.exp (Cx.mul Cx.j (Cx.of_real x)).
Proof.
  rewrite !exp_j_real.
  assert (forall (y : R) (n : nat), cos (y + 2 * IZR (Z.of_nat n) * PI) = cos y /\
                                    sin (y + 2 * IZR (Z.of_nat n) * PI) = sin y) as Hnat.
  { intros y n. rewrite <- INR_IZR_INZ. split; [apply cos_period | apply sin_period]. }
  destruct (Z_le_gt_dec 0 k) as [Hk|Hk].
  - destruct (Hnat x (Z.to_nat k)) as [Hc Hs]. rewrite Z2Nat.id in Hc, Hs by done.
    by rewrite Hc, Hs.
  - destruct (Hnat (x + 2 * IZR k * PI) (Z.to_nat (- k))) as [Hc Hs].
    rewrite Z2Nat.id in Hc, Hs by lia. rewrite opp_IZR in Hc, Hs.
    replace (x + 2 * IZR k * PI + 2 * - IZR k * PI) with x in Hc, Hs by ring.
    by rewrite <- Hc, <- Hs.
Qed.

Lemma phase_factors_period δϕ (k : Z) factor :
  Align2d.phase_factors (δϕ + 2 * IZR k * PI) factor = Align2d.phase_factors δϕ factor.
Proof. unfold Align2d.phase_factors. by rewrite exp_j_period. Qed.

(** The cost of align2d and the transformed waveform are periodic in the
    phase offset: adding a whole multiple of 2π to the phase changes neither
    the cost of a candidate nor the waveform constructed from it. *)
Theorem align2d_is_periodic_in_the_phase {S : Scipy}
    (a b : WaveformModes) (ell_max : nat) (t_ref : list R) (δt δϕ : R) (k : Z) :
  Align2d.cost a b ell_max t_ref [δt; δϕ + 2 * IZR k * PI]
  = Align2d.cost a b ell_max t_ref [δt; δϕ] /\
  Align2d.wa_prime a ell_max (Align2d.δϕ_factor a) δt (δϕ + 2 * IZR k * PI)
  = Align2d.wa_prime a ell_max (Align2d.δϕ_factor a) δt δϕ.
Proof.
  split.
  - unfold Align2d.cost, Align2d.cost_value. by rewrite phase_factors_period.
  - unfold Align2d.wa_prime. by rewrite phase_factors_period.
Qed.

Lemma abs_mul z w : Cx.abs (Cx.mul z w) = Cx.abs z * Cx.abs w.
Proof.
  destruct z as [a b], w as [c d]. unfold Cx.abs, Cx.mul. simpl.
  rewrite <- sqrt_mult by nra. f_equal. ring.
Qed.

Lemma abs_one : Cx.abs Cx.one = 1.
Proof. unfold Cx.abs, Cx.one. simpl. replace (1 * 1 + 0 * 0) with 1 by ring. apply sqrt_1. Qed.

Lemma abs_exp_j x : Cx.abs (Cx.exp (Cx.mul Cx.j (Cx.of_real x))) = 1.
Proof.
  rewrite exp_j_real. unfold Cx.abs. simpl.
  replace (cos x * cos x + sin x * sin x) with 1; [apply sqrt_1|].
  pose proof (sin2_cos2 x) as H. unfold Rsqr in H. lra.
Qed.

Lemma abs_pow_nat z n : Cx.abs z = 1 -> Cx.abs (Cx.pow_nat z n) = 1.
Proof.
  intros Hz. induction n as [|n IH]; simpl; [apply abs_one|].
  rewrite abs_mul, Hz, IH. ring.
Qed.

Lemma abs_inv z : Cx.abs z = 1 -> Cx.abs (Cx.inv z) = 1.
Proof.
  destruct z as [a b]. unfold Cx.abs, Cx.inv. simpl. intros Hz.
  assert (a * a + b * b = 1) as Hd.
  { apply sqrt_lem_0 in Hz; [lra|nra|lra]. }
  rewrite Hd. replace (a / 1 * (a / 1) + - b / 1 * (- b / 1)) with (a * a + b * b) by field.
  by rewrite Hd, sqrt_1.
Qed.

Lemma abs_pow z m : Cx.abs z = 1 -> Cx.abs (Cx.pow z m) = 1.
Proof.
  intros Hz. destruct m as [|p|p]; simpl.
  - apply abs_one.
  - by apply abs_pow_nat.
  - apply abs_inv. by apply abs_pow_nat.
Qed.

Lemma phase_factors_unit δϕ factor u :
  u ∈ Align2d.phase_factors δϕ factor -> Cx.abs u = 1.
Proof.
  unfold Align2d.phase_factors. intros Hu.
  apply list_elem_of_fmap in Hu as (m & -> & _). apply abs_pow, abs_exp_j.
Qed.

Lemma broadcast_same_length {A B D} (f : A -> B -> D) xs ys :
  length xs = length ys -> np.broadcast f xs ys = zip_with f xs ys.
Proof.
  intros Hlen. unfold np.broadcast.
  destruct xs as [|x [|x' xs]], ys as [|y [|y' ys]]; simpl in *; try done; lia.
Qed.

Lemma abs_rotated row us :
  length row = length us -> (forall u, u ∈ us -> Cx.abs u = 1) ->
  map Cx.abs (np.broadcast Cx.mul row us) = map Cx.abs row.
Proof.
  intros Hlen Hus. rewrite broadcast_same_length by done.
  revert us Hlen Hus. induction row as [|z row IH]; intros [|u us] Hlen Hus;
    simpl in *; try done.
  f_equal.
  - rewrite abs_mul, (Hus u) by left. ring.
  - apply IH; [lia|]. intros v Hv. apply Hus. by right.
Qed.

Lemma length_CubicSpline_modes {S : Scipy} x y u :
  length (Align2d.CubicSpline_modes x y u) = np.ncols y.
Proof. unfold Align2d.CubicSpline_modes. by rewrite length_map, length_seq. Qed.

Lemma wa_prime_ok {S : Scipy} w ell_max factor δt δϕ w' :
  Align2d.wa_prime w ell_max factor δt δϕ = Ok w' ->
  w' = {| t := map (fun u => u + δt) (t w);
          data := map (fun u =>
                         np.broadcast Cx.mul
                           (Align2d.CubicSpline_modes (t w)
                              (data (Align2d.modes_slice w ell_max)) (u + δt))
                           (Align2d.phase_factors δϕ factor))
                      (t w);
          ell_min := 2;
          ell_max := ell_max |}.
Proof.
  unfold Align2d.wa_prime. intros Hr. apply rbind_ok in Hr as (k & _ & Hr). congruence.
Qed.

(** The rotation by the phase offset changes no modulus: when there is one
    phase exponent per retained column, every value of the transformed
    waveform has the modulus of the value of wa interpolated at the shifted
    time, whatever the phase offset. *)
Theorem phase_rotation_preserves_moduli {S : Scipy}
    (w w' : WaveformModes) (ell_max : nat) (factor : list Z) (δt δϕ : R) :
  length factor = np.ncols (data (Align2d.modes_slice w ell_max)) ->
  Align2d.wa_prime w ell_max factor δt δϕ = Ok w' ->
  map (map Cx.abs) (data w')
  = map (fun u => map Cx.abs
                    (Align2d.CubicSpline_modes (t w)
                       (data (Align2d.modes_slice w ell_max)) (u + δt)))
        (t w).
Proof.
  intros Hlen Hw. apply wa_prime_ok in Hw as ->. simpl.
  rewrite <- list_fmap_compose. apply list_fmap_ext. intros i u _. simpl.
  apply abs_rotated.
  - rewrite length_CubicSpline_modes. unfold Align2d.phase_factors.
    by rewrite length_map.
  - apply phase_factors_unit.
Qed.

Lemma phase_rotation_preserves_moduli_witness :
  exists w' : WaveformModes,
    Align2d.wa_prime (S := reference_scipy) example_wa 2 (Align2d.δϕ_factor example_wa) 0 1
    = Ok w' /\
    map (map Cx.abs) (data w')
    = map (fun u => map Cx.abs
                      (Align2d.CubicSpline_modes (S := reference_scipy) (t example_wa)
                         (data (Align2d.modes_slice example_wa 2)) (u + 0)))
          (t example_wa).
Proof.
  eexists. split; [reflexivity|].
  apply (phase_rotation_preserves_moduli (S := reference_scipy) example_wa _ 2
           (Align2d.δϕ_factor example_wa) 0 1); reflexivity.
Defined.

Lemma mul_one z : Cx.mul z Cx.one = z.
Proof. destruct z as [a b]. unfold Cx.mul, Cx.one. simpl. f_equal; ring. Qed.

Lemma pow_nat_one n : Cx.pow_nat Cx.one n = Cx.one.
Proof.
  induction n as [|n IH]; simpl; [done|]. rewrite IH. unfold Cx.mul, Cx.one. simpl.
  f_equal; ring.
Qed.

Lemma pow_one m : Cx.pow Cx.one m = Cx.one.
Proof.
  destruct m as [|p|p]; simpl; [done|apply pow_nat_one|].
  rewrite pow_nat_one. unfold Cx.inv, Cx.one. simpl. f_equal; field.
Qed.

Lemma phase_factors_lookup δϕ factor k m :
  factor !! k = Some m ->
  Align2d.phase_factors δϕ factor !! k
  = Some (Cx.pow (Cx.exp (Cx.mul Cx.j (Cx.of_real δϕ))) m).
Proof. intros Hk. unfold Align2d.phase_factors. by rewrite list_lookup_fmap, Hk. Qed.

Lemma phase_factor_trivial δϕ m :
  δϕ = 0 \/ m = 0%Z -> Cx.pow (Cx.exp (Cx.mul Cx.j (Cx.of_real δϕ))) m = Cx.one.
Proof.
  intros [-> | ->]; [|done].
  rewrite exp_j_real, cos_0, sin_0. apply pow_one.
Qed.

(** The rotation leaves the modes with m = 0 as they are, and a phase offset
    of zero leaves every mode as it is: when there is one phase exponent per
    retained column, the value of the transformed waveform in a column whose
    exponent is 0, and in every column when the phase offset is 0, is the
    value of wa interpolated at the shifted time. *)
Theorem rotation_fixes_m0_modes_and_zero_phase {S : Scipy}
    (w w' : WaveformModes) (ell_max : nat) (factor : list Z) (δt δϕ : R)
    (i k : nat) (u : R) (m : Z) :
  length factor = np.ncols (data (Align2d.modes_slice w ell_max)) ->
  Align2d.wa_prime w ell_max factor δt δϕ = Ok w' ->
  t w !! i = Some u -> factor !! k = Some m ->
  δϕ = 0 \/ m = 0%Z ->
  exists row : list C,
    data w' !! i = Some row /\
    row !! k
    = Align2d.CubicSpline_modes (t w) (data (Align2d.modes_slice w ell_max)) (u + δt) !! k /\
    (k < length row)%nat.
Proof.
  intros Hlen Hw Hu Hm Htriv. apply wa_prime_ok in Hw as ->.
  remember (data (Align2d.modes_slice w ell_max)) as y eqn:Hy. simpl.
  rewrite list_lookup_fmap, Hu. simpl. eexists. split; [done|].
  assert (length (Align2d.CubicSpline_modes (t w) y (u + δt))
          = length (Align2d.phase_factors δϕ factor)) as Hl.
  { rewrite length_CubicSpline_modes. unfold Align2d.phase_factors. by rewrite length_map. }
  rewrite broadcast_same_length by done.
  assert (k < length factor)%nat as Hk by (by eapply lookup_lt_Some).
  destruct (lookup_lt_is_Some_2 (Align2d.CubicSpline_modes (t w) y (u + δt)) k) as [z Hz].
  { rewrite length_CubicSpline_modes. lia. }
  split.
  - rewrite lookup_zip_with, Hz. simpl.
    rewrite (phase_factors_lookup _ _ _ _ Hm), phase_factor_trivial by done. simpl.
    by rewrite mul_one.
  - rewrite length_zip_with, <- Hl, Nat.min_id, length_CubicSpline_modes. lia.
Qed.

Lemma rotation_fixes_m0_modes_and_zero_phase_witness :
  exists (w' : WaveformModes) (row : list C),
    Align2d.wa_prime (S := reference_scipy) example_wa 2 (Align2d.δϕ_factor example_wa) 0 1
    = Ok w' /\
    data w' !! 0%nat = Some row /\
    row !! 2%nat
    = Align2d.CubicSpline_modes (S := reference_scipy) (t example_wa)
        (data (Align2d.modes_slice example_wa 2)) (0 + 0) !! 2%nat.
Proof.
  assert (exists w' : WaveformModes,
            Align2d.wa_prime (S := reference_scipy) example_wa 2
              (Align2d.δϕ_factor example_wa) 0 1 = Ok w') as [w' Hw]
    by (eexists; reflexivity).
  destruct (rotation_fixes_m0_modes_and_zero_phase (S := reference_scipy) example_wa w' 2
              (Align2d.δϕ_factor example_wa) 0 1 0%nat 2%nat 0 0%Z)
    as (row & Hrow & Hk & _); [reflexivity | exact Hw | reflexivity | reflexivity | by right |].
  exists w', row. split_and!; [exact Hw | exact Hrow | exact Hk].
Defined.

(** ** align2d: the reference times of strictly increasing samples *)

Lemma nearest_lookup ts x i :
  nearest ts x i -> exists v, ts !! i = Some v /\
    forall u, u ∈ ts -> Rabs (v - x) <= Rabs (u - x).
Proof.
  intros (d & Hd & Hle & _). rewrite list_lookup_fmap in Hd.
  destruct (ts !! i) as [v|] eqn:Hv; [|done]. injection Hd as <-.
  exists v. split; [done|]. intros u Hu. apply Hle.
  apply list_elem_of_fmap. by exists u.
Qed.

(** A sample strictly between the nearest sample and [x] would be nearer. *)
Lemma nearer_between v u x :
  (v < u /\ u <= x) \/ (x <= u /\ u < v) -> Rabs (u - x) < Rabs (v - x).
Proof.
  intros [[? ?]|[? ?]].
  - rewrite !Rabs_numeral_neg by lra. lra.
  - rewrite !Rabs_numeral_pos by lra. lra.
Qed.

Lemma nearest_index_of_later ts x i k u :
  strictly_increasing ts -> nearest ts x i -> ts !! k = Some u -> x <= u -> (i <= k)%nat.
Proof.
  intros Hinc Hi Hk Hu. apply nearest_lookup in Hi as (v & Hv & Hle).
  destruct (decide (i <= k)%nat) as [|Hlt]; [done|]. exfalso.
  assert (u < v) by (apply (Hinc k i); [done..|lia]).
  pose proof (Hle u (list_elem_of_lookup_2 _ _ _ Hk)).
  pose proof (nearer_between v u x). lra.
Qed.

Lemma nearest_index_of_earlier ts x i k u :
  strictly_increasing ts -> nearest ts x i -> ts !! k = Some u -> u <= x -> (k <= i)%nat.
Proof.
  intros Hinc Hi Hk Hu. apply nearest_lookup in Hi as (v & Hv & Hle).
  destruct (decide (k <= i)%nat) as [|Hlt]; [done|]. exfalso.
  assert (v < u) by (apply (Hinc i k); [done..|lia]).
  pose proof (Hle u (list_elem_of_lookup_2 _ _ _ Hk)).
  pose proof (nearer_between v u x). lra.
Qed.

Lemma after_nearest ts x i k u :
  strictly_increasing ts -> nearest ts x i -> ts !! k = Some u -> (i < k)%nat -> x < u.
Proof.
  intros Hinc Hi Hk Hlt.
  destruct (Rlt_dec x u) as [|Hge]; [done|]. exfalso.
  assert (k <= i)%nat by (apply (nearest_index_of_earlier ts x i k u Hinc Hi Hk); lra). lia.
Qed.

Lemma before_nearest ts x i k u :
  strictly_increasing ts -> nearest ts x i -> ts !! k = Some u -> (k < i)%nat -> u < x.
Proof.
  intros Hinc Hi Hk Hlt.
  destruct (Rlt_dec u x) as [|Hge]; [done|]. exfalso.
  assert (i <= k)%nat by (apply (nearest_index_of_later ts x i k u Hinc Hi Hk); lra). lia.
Qed.

Lemma lookup_take_drop {A} (l : list A) (i n k : nat) :
  take n (drop i l) !! k = if decide (k < n)%nat then l !! (i + k)%nat else None.
Proof.
  case_decide.
  - rewrite lookup_take_lt by done. by rewrite lookup_drop.
  - apply lookup_take_ge. lia.
Qed.

(** For strictly increasing sample times, the reference times of align2d
    contain every sample of wa with a time in the window; every reference
    time is a sample of wa, all but the first are later than [t1], and all
    but the last are earlier than [t2]: at most one sample before the window
    and one after it are taken. *)
Theorem align2d_reference_times_cover_the_window
    (wa : WaveformModes) (t1 t2 : R) (ts : list R) :
  strictly_increasing (t wa) ->
  Align2d.t_reference wa t1 t2 = Ok ts ->
  (forall u : R, u ∈ t wa -> t1 <= u <= t2 -> u ∈ ts) /\
  (forall (k : nat) (u : R), ts !! k = Some u ->
     u ∈ t wa /\ ((0 < k)%nat -> t1 < u) /\ ((S k < length ts)%nat -> u < t2)).
Proof.
  intros Hinc Hts. apply t_reference2d_ok in Hts as (i1 & i2 & H1 & H2 & ->).
  split.
  - intros u Hu [Hu1 Hu2]. apply list_elem_of_lookup in Hu as [k Hk].
    pose proof (nearest_index_of_later _ _ _ _ _ Hinc H1 Hk Hu1).
    pose proof (nearest_index_of_earlier _ _ _ _ _ Hinc H2 Hk Hu2).
    apply list_elem_of_lookup. exists (k - i1)%nat.
    rewrite lookup_take_drop. rewrite decide_True by lia.
    by replace (i1 + (k - i1))%nat with k by lia.
  - intros k u Hk. rewrite lookup_take_drop in Hk. case_decide as Hlt; [|done].
    split_and!.
    + by eapply list_elem_of_lookup_2.
    + intros Hpos. apply (after_nearest _ _ _ _ _ Hinc H1 Hk). lia.
    + intros Hlast. apply (before_nearest _ _ _ _ _ Hinc H2 Hk).
      rewrite length_take in Hlast. lia.
Qed.

Lemma align2d_reference_times_cover_the_window_witness :
  (forall u : R, u ∈ t example_wa4 -> 2 / 5 <= u <= 13 / 5 -> u ∈ [0; 1; 2; 3]) /\
  (forall (k : nat) (u : R), [0; 1; 2; 3] !! k = Some u ->
     u ∈ t example_wa4 /\ ((0 < k)%nat -> 2 / 5 < u) /\
     ((S k < length [0; 1; 2; 3])%nat -> u < 13 / 5)).
Proof.
  apply (align2d_reference_times_cover_the_window example_wa4 (2 / 5) (13 / 5) [0; 1; 2; 3]).
  - exact example_wa4_increasing.
  - exact example_wa4_t_reference.
Defined.

Lemma filter_all {A} (f : A -> bool) (l : list A) :
  (forall x, x ∈ l -> f x = true) -> List.filter f l = l.
Proof.
  induction l as [|x l IH]; intros Hall; simpl; [done|].
  rewrite (Hall x) by left. f_equal. apply IH. intros y Hy. apply Hall. by right.
Qed.

Lemma filter_none {A} (f : A -> bool) (l : list A) :
  (forall x, x ∈ l -> f x = false) -> List.filter f l = [].
Proof.
  induction l as [|x l IH]; intros Hall; simpl; [done|].
  rewrite (Hall x) by left. apply IH. intros y Hy. apply Hall. by right.
Qed.

Lemma in_window_false t1 t2 x : ~ (t1 <= x <= t2) -> in_window t1 t2 x = false.
Proof.
  intros Hout. destruct (in_window t1 t2 x) eqn:Hx; [|done].
  by apply in_window_spec in Hx.
Qed.

Lemma nearest_sample ts x i :
  x ∈ ts -> nearest ts x i -> ts !! i = Some x.
Proof.
  intros Hx Hi. apply nearest_lookup in Hi as (v & Hv & Hle).
  specialize (Hle x Hx). replace (x - x) with 0 in Hle by ring. rewrite Rabs_R0 in Hle.
  pose proof (Rabs_pos (v - x)).
  assert (v - x = 0) as Hz.
  { destruct (Req_dec (v - x) 0) as [|Hne]; [done|]. apply Rabs_pos_lt in Hne. lra. }
  rewrite Hv. f_equal. lra.
Qed.

Lemma reference_times_between_samples ts t1 t2 i1 i2 :
  strictly_increasing ts -> ts !! i1 = Some t1 -> ts !! i2 = Some t2 ->
  take (i2 + 1 - i1) (drop i1 ts) = List.filter (in_window t1 t2) ts.
Proof.
  intros Hinc H1 H2.
  rewrite <- (take_drop i1 ts) at 2.
  rewrite <- (take_drop (i2 + 1 - i1) (drop i1 ts)) at 2.
  rewrite !List.filter_app.
  rewrite (filter_none _ (take i1 ts)), (filter_all _ (take _ (drop i1 ts))),
    (filter_none _ (drop _ (drop i1 ts))); [by rewrite app_nil_r|..].
  - intros u Hu. apply list_elem_of_lookup in Hu as [k Hk].
    rewrite !lookup_drop in Hk. apply in_window_false. intros [_ Hu2].
    assert (t2 < u); [|lra].
    apply (Hinc i2 (i1 + (i2 + 1 - i1 + k))%nat); [done..|lia].
  - intros u Hu. apply list_elem_of_lookup in Hu as [k Hk].
    rewrite lookup_take_drop in Hk. case_decide; [|done].
    apply in_window_spec. split.
    + destruct k as [|k].
      * rewrite Nat.add_0_r in Hk. assert (u = t1) by congruence. lra.
      * left. apply (Hinc i1 (i1 + S k)%nat); [done..|lia].
    + destruct (decide (i1 + k = i2)%nat) as [Heq|Hne].
      * rewrite Heq in Hk. assert (u = t2) by congruence. lra.
      * left. apply (Hinc (i1 + k)%nat i2); [done..|lia].
  - intros u Hu. apply list_elem_of_lookup in Hu as [k Hk].
    assert (k < i1)%nat.
    { apply lookup_lt_Some in Hk. rewrite length_take in Hk. lia. }
    rewrite lookup_take_lt in Hk by done. apply in_window_false. intros [Hu1 _].
    assert (u < t1); [|lra]. by apply (Hinc k i1).
Qed.

(** When the two ends of the window are sample times of wa, and the sample
    times are strictly increasing, align2d and align1d take the same
    reference times: the samples of wa in the window. *)
Theorem aligners_share_reference_times_at_sample_ends
    (wa : WaveformModes) (t1 t2 : R) :
  strictly_increasing (t wa) -> t1 ∈ t wa -> t2 ∈ t wa ->
  Align2d.t_reference wa t1 t2 = Ok (Align1d.t_reference wa t1 t2).
Proof.
  intros Hinc H1 H2.
  destruct (t_reference2d_total wa t1 t2) as [ts Hts].
  { intros Hnil. rewrite Hnil in H1. by apply elem_of_nil in H1. }
  rewrite Hts. f_equal.
  apply t_reference2d_ok in Hts as (i1 & i2 & Hi1 & Hi2 & ->).
  rewrite t_reference1d_filter.
  apply reference_times_between_samples; [done|by apply nearest_sample..].
Qed.

Lemma aligners_share_reference_times_at_sample_ends_witness :
  Align2d.t_reference example_wa4 1 2 = Ok (Align1d.t_reference example_wa4 1 2).
Proof.
  apply (aligners_share_reference_times_at_sample_ends example_wa4 1 2).
  - exact example_wa4_increasing.
  - simpl. right. left.
  - simpl. right. right. left.
Defined.

(** ** align2d: interpolation of wa outside its range *)

Lemma linspace_head a b n : (1 <= n)%nat -> head (np.linspace a b n true) = Some a.
Proof.
  intros Hn. rewrite head_lookup. destruct (decide (n = 1%nat)) as [->|Hne].
  - by rewrite linspace_one.
  - rewrite linspace_lookup_endpoint by lia. f_equal. simpl. lra.
Qed.

Lemma linspace_last a b n : (2 <= n)%nat -> last (np.linspace a b n true) = Some b.
Proof.
  intros Hn. rewrite last_lookup, length_linspace.
  rewrite linspace_lookup_endpoint by lia. f_equal.
  replace (Init.Nat.pred n) with (n - 1)%nat by lia.
  assert (INR (n - 1) <> 0) by (apply not_0_INR; lia). field. done.
Qed.

Lemma nearest_index_lookup ts x i :
  Align2d.nearest_index ts x = Ok i -> nearest ts x i /\ (i < length ts)%nat.
Proof.
  unfold Align2d.nearest_index. intros Hi. apply argmin_first_minimum in Hi.
  split; [done|]. destruct Hi as (v & Hv & _). apply lookup_lt_Some in Hv.
  by rewrite length_map in Hv.
Qed.

Lemma t_reference2d_indices wa t1 t2 ts :
  Align2d.t_reference wa t1 t2 = Ok ts ->
  exists i1 i2 : nat,
    Align2d.nearest_index (t wa) t1 = Ok i1 /\ Align2d.nearest_index (t wa) t2 = Ok i2 /\
    ts = take (i2 + 1 - i1) (drop i1 (t wa)).
Proof.
  unfold Align2d.t_reference. intros Hr.
  apply rbind_ok in Hr as (i1 & H1 & Hr). apply rbind_ok in Hr as (i2 & H2 & Hr).
  injection Hr as <-. exists i1, i2. split_and!; [done..|].
  apply nearest_index_lookup in H1 as [_ H1]. apply nearest_index_lookup in H2 as [_ H2].
  by apply slice_between.
Qed.

(** align2d can interpolate wa outside the range of its times.  When the
    sample of wa nearest to [t1] is its first sample and lies before [t1],
    the first time offset of the brute-force grid is [δt_lower], the first
    reference time is that first sample, and the cost of that candidate
    evaluates the interpolant of wa before the first time of wa.  When the
    sample nearest to [t2] is the last sample and lies after [t2], the last
    time offset of a grid of two or more is [δt_upper] and the interpolant is
    evaluated after the last time of wa. *)
Theorem align2d_interpolates_wa_outside_its_range
    (wa : WaveformModes) (t1 t2 first last_ : R) (ts : list R) (n : nat) :
  head (t wa) = Some first -> last (t wa) = Some last_ ->
  t1 < t2 -> (2 <= n)%nat ->
  Align2d.t_reference wa t1 t2 = Ok ts ->
  let lower := Align2d.δt_lower first t1 t2 in
  let upper := Align2d.δt_upper last_ t1 t2 in
  (Align2d.nearest_index (t wa) t1 = Ok 0%nat -> first < t1 ->
     head (Align2d.δt_brute_force lower upper n) = Some lower /\
     head ts = Some first /\ first + lower < first) /\
  (Align2d.nearest_index (t wa) t2 = Ok (length (t wa) - 1)%nat -> t2 < last_ ->
     last (Align2d.δt_brute_force lower upper n) = Some upper /\
     last ts = Some last_ /\ last_ < last_ + upper).
Proof.
  intros Hfirst Hlast Ht Hn Hts lower upper.
  apply t_reference2d_indices in Hts as (i1 & i2 & H1 & H2 & ->).
  split.
  - intros H0 Hlt. rewrite H0 in H1. injection H1 as <-. split_and!.
    + apply linspace_head. lia.
    + rewrite drop_0. destruct (t wa) as [|u us]; [done|].
      by replace (i2 + 1 - 0)%nat with (S i2) by lia.
    + unfold lower, Align2d.δt_lower.
      assert (Rmax (t1 - t2) (first - t1) < 0) by (apply Rmax_lub_lt; lra). lra.
  - intros Hl Hlt. rewrite Hl in H2. injection H2 as <-. split_and!.
    + by apply linspace_last.
    + apply nearest_index_lookup in H1 as [_ H1].
      rewrite take_ge by (rewrite length_drop; lia).
      rewrite last_lookup, length_drop, lookup_drop.
      rewrite last_lookup in Hlast. rewrite <- Hlast. f_equal. lia.
    + unfold upper, Align2d.δt_upper.
      assert (0 < Rmin (t2 - t1) (last_ - t2)) by (apply Rmin_glb_lt; lra). lra.
Qed.

Lemma example_wa4_nearest_ends :
  Align2d.nearest_index (t example_wa4) (2 / 5) = Ok 0%nat /\
  Align2d.nearest_index (t example_wa4) (13 / 5) = Ok (length (t example_wa4) - 1)%nat.
Proof.
  unfold Align2d.nearest_index.
  assert (map (fun u => Rabs (u - 2 / 5)) (t example_wa4) = [2 / 5; 3 / 5; 8 / 5; 13 / 5]) as ->.
  { simpl. rewrite (Rabs_numeral_neg (0 - 2 / 5)) by lra.
    rewrite !Rabs_numeral_pos by lra. repeat f_equal; lra. }
  assert (map (fun u => Rabs (u - 13 / 5)) (t example_wa4) = [13 / 5; 8 / 5; 3 / 5; 2 / 5]) as ->.
  { simpl. rewrite (Rabs_numeral_pos (3 - 13 / 5)) by lra.
    rewrite !Rabs_numeral_neg by lra. repeat f_equal; lra. }
  simpl. decide_Rlt. done.
Qed.

Lemma align2d_interpolates_wa_outside_its_range_witness :
  (head (Align2d.δt_brute_force (Align2d.δt_lower 0 (2 / 5) (13 / 5))
           (Align2d.δt_upper 3 (2 / 5) (13 / 5)) 2)
   = Some (Align2d.δt_lower 0 (2 / 5) (13 / 5)) /\
   head [0; 1; 2; 3] = Some 0 /\
   0 + Align2d.δt_lower 0 (2 / 5) (13 / 5) < 0) /\
  (last (Align2d.δt_brute_force (Align2d.δt_lower 0 (2 / 5) (13 / 5))
           (Align2d.δt_upper 3 (2 / 5) (13 / 5)) 2)
   = Some (Align2d.δt_upper 3 (2 / 5) (13 / 5)) /\
   last [0; 1; 2; 3] = Some 3 /\
   3 < 3 + Align2d.δt_upper 3 (2 / 5) (13 / 5)).
Proof.
  destruct (align2d_interpolates_wa_outside_its_range example_wa4 (2 / 5) (13 / 5) 0 3
              [0; 1; 2; 3] 2) as [Hfirst Hlast];
    [reflexivity | reflexivity | lra | lia | exact example_wa4_t_reference |].
  split.
  - apply Hfirst; [apply example_wa4_nearest_ends | lra].
  - apply Hlast; [apply example_wa4_nearest_ends | lra].
Defined.

(** ** align2d: the modes requested by the caller *)

Lemma bind_ext_run {A B} (m : M A) (k1 k2 : A -> M B) σ :
  (forall x σ', m σ = (Ok x, σ') -> k1 x σ' = k2 x σ') ->
  bind m k1 σ = bind m k2 σ.
Proof. intros Hk. unfold bind. destruct (m σ) as [[x|e] σ']; [by apply Hk | done]. Qed.

Lemma bind_run_eq {A B} (m m' : M A) (k : A -> M B) σ :
  m σ = m' σ -> bind m k σ = bind m' k σ.
Proof. intros Hm. unfold bind. by rewrite Hm. Qed.

Lemma for_each_kept la lb (lms : list (Z * Z)) include_modes σ :
  (forall lm, lm ∈ lms -> kept include_modes lm = true) ->
  for_each lms (fun lm =>
    if kept include_modes lm then ret tt
    else
      a <- deref la ;;
      zero_mode la (LM (fst lm) (snd lm) (Z.of_nat (ell_min a))) ;;;
      b <- deref lb ;;
      zero_mode lb (LM (fst lm) (snd lm) (Z.of_nat (ell_min b)))) σ
  = (Ok tt, σ).
Proof.
  induction lms as [|lm lms IH]; intros Hall; simpl; [done|].
  rewrite (Hall lm) by left. unfold bind at 1. simpl. apply IH.
  intros lm' Hlm'. apply Hall. by right.
Qed.

Lemma remove_modes_kept la lb ell_max include_modes include_modes' σ :
  (forall lm, lm ∈ Align2d.retained_modes ell_max ->
     kept include_modes lm = kept include_modes' lm) ->
  Align2d.remove_modes la lb ell_max include_modes σ
  = Align2d.remove_modes la lb ell_max include_modes' σ.
Proof.
  intros Hagree. unfold Align2d.remove_modes.
  destruct include_modes as [modes|], include_modes' as [modes'|]; simpl in *.
  - induction (Align2d.retained_modes ell_max) as [|lm lms IH] in σ, Hagree |- *; [done|].
    simpl. rewrite (Hagree lm) by left.
    apply bind_ext_run. intros _ σ' _. apply IH. intros lm' Hlm'. apply Hagree. by right.
  - apply (for_each_kept la lb _ (Some modes)). done.
  - symmetry. apply (for_each_kept la lb _ (Some modes')). intros lm Hlm.
    symmetry. by apply Hagree.
  - done.
Qed.

Lemma validate_heap wa wb t1 t2 σ : heap (validate wa wb t1 t2 σ).2 = heap σ.
Proof.
  assert (forall name l σ0, heap (check_contained name l t1 t2 σ0).2 = heap σ0) as Hc.
  { intros name l σ0. unfold check_contained.
    unfold bind at 1. pose proof (get_time_heap l 0 σ0) as H0.
    destruct (get_time l 0 σ0) as [[x|e] σ1]; simpl in *; [|done].
    destruct (Rgt_dec x t1).
    - unfold bind. pose proof (get_time_heap l 0 σ1) as H1.
      destruct (get_time l 0 σ1) as [[x1|e] σ2]; simpl in *; [|congruence].
      pose proof (get_time_heap l (-1) σ2) as H2.
      destruct (get_time l (-1) σ2) as [[x2|e] σ3]; simpl in *; congruence.
    - unfold bind at 1. pose proof (get_time_heap l (-1) σ1) as H1.
      destruct (get_time l (-1) σ1) as [[y|e] σ2]; simpl in *; [|congruence].
      destruct (Rlt_dec y t2); [|simpl; congruence].
      unfold bind. pose proof (get_time_heap l 0 σ2) as H2.
      destruct (get_time l 0 σ2) as [[x1|e] σ3]; simpl in *; [|congruence].
      pose proof (get_time_heap l (-1) σ3) as H3.
      destruct (get_time l (-1) σ3) as [[x2|e] σ4]; simpl in *; congruence. }
  unfold validate. unfold bind at 1.
  destruct (Rle_dec t2 t1); [done|]. simpl.
  unfold bind. pose proof (Hc Wa wa σ) as Ha.
  destruct (check_contained Wa wa t1 t2 σ) as [[u|e] σ1]; simpl in *; [|done].
  rewrite <- Ha. apply Hc.
Qed.

Lemma body2d_kept {S : Scipy} wa la lb a b t1 t2 n_δt n_δϕ include_modes include_modes' σ :
  heap σ !! la = Some a -> heap σ !! lb = Some b ->
  (forall lm, lm ∈ Align2d.retained_modes (Align2d.common_ell_max a b) ->
     kept include_modes lm = kept include_modes' lm) ->
  Align2d.body wa la lb t1 t2 n_δt n_δϕ include_modes σ
  = Align2d.body wa la lb t1 t2 n_δt n_δϕ include_modes' σ.
Proof.
  intros Ha Hb Hagree. unfold Align2d.body.
  apply bind_ext_run. intros x σ1 H1.
  apply bind_ext_run. intros y σ2 H2.
  apply bind_ext_run. intros a0 σ3 H3.
  apply bind_ext_run. intros b0 σ4 H4.
  apply bind_ext_run. intros t_ref σ5 H5.
  assert (heap σ1 = heap σ) as Hh1 by (rewrite <- (get_time_heap la 0 σ); by rewrite H1).
  assert (heap σ2 = heap σ1) as Hh2 by (rewrite <- (get_time_heap la (-1) σ1); by rewrite H2).
  apply run_read_inv in H3 as [Ha0 Hh3]. apply run_read_inv in H4 as [Hb0 Hh4].
  assert (a0 = a) as -> by congruence.
  assert (b0 = b) as -> by congruence.
  apply bind_run_eq. by apply remove_modes_kept.
Qed.

Lemma align2d_kept {S : Scipy} σ wa wb a b t1 t2 n_δt n_δϕ include_modes include_modes' :
  heap σ !! wa = Some a -> heap σ !! wb = Some b ->
  (forall lm, lm ∈ Align2d.retained_modes (Align2d.common_ell_max a b) ->
     kept include_modes lm = kept include_modes' lm) ->
  Align2d.align2d wa wb t1 t2 n_δt n_δϕ include_modes σ
  = Align2d.align2d wa wb t1 t2 n_δt n_δϕ include_modes' σ.
Proof.
  intros Ha Hb Hagree. unfold Align2d.align2d.
  apply bind_ext_run. intros la σ1 H1.
  rewrite (run_copy σ wa a Ha) in H1. injection H1 as <- <-.
  apply bind_ext_run. intros lb σ2 H2.
  assert (wb <> fresh (dom (heap σ))) as Hne.
  { intros ->. by rewrite fresh_lookup in Hb. }
  rewrite (run_copy _ wb b) in H2 by (simpl; by rewrite lookup_insert_ne).
  injection H2 as <- <-. simpl in *.
  apply bind_ext_run. intros u σ3 H3.
  assert (heap σ3 = <[fresh (dom (<[fresh (dom (heap σ)):=a]> (heap σ))) := b]>
                      (<[fresh (dom (heap σ)) := a]> (heap σ))) as Hh.
  { match type of H3 with
    | validate ?x ?y _ _ ?s = _ => pose proof (validate_heap x y t1 t2 s) as Hv
    end.
    rewrite H3 in Hv. exact Hv. }
  apply (body2d_kept _ _ _ a b); [| |done].
  - rewrite Hh. rewrite lookup_insert_ne; [by rewrite lookup_insert_eq|].
    intros Heq.
    pose proof (fresh_lookup (<[fresh (dom (heap σ)):=a]> (heap σ))) as Hf.
    rewrite Heq in Hf. by rewrite lookup_insert_eq in Hf.
  - rewrite Hh. by rewrite lookup_insert_eq.
Qed.

(** align2d looks at [include_modes] only for the modes with ell from 2 to
    the smaller [ell_max] of the two waveforms: two lists that agree on those
    modes give the same run, and a list that names all of them gives the run
    of a call without [include_modes]. *)
Theorem include_modes_matter_only_for_the_retained_modes {S : Scipy}
    (σ : world) (wa wb : loc) (a b : WaveformModes) (t1 t2 : R)
    (n_δt n_δϕ : option nat) (modes modes' : list (Z * Z)) :
  heap σ !! wa = Some a -> heap σ !! wb = Some b ->
  ((forall lm, lm ∈ Align2d.retained_modes (Align2d.common_ell_max a b) ->
      Align2d.mode_in lm modes = Align2d.mode_in lm modes') ->
   Align2d.align2d wa wb t1 t2 n_δt n_δϕ (Some modes) σ
   = Align2d.align2d wa wb t1 t2 n_δt n_δϕ (Some modes') σ) /\
  ((forall lm, lm ∈ Align2d.retained_modes (Align2d.common_ell_max a b) ->
      Align2d.mode_in lm modes = true) ->
   Align2d.align2d wa wb t1 t2 n_δt n_δϕ (Some modes) σ
   = Align2d.align2d wa wb t1 t2 n_δt n_δϕ None σ).
Proof.
  intros Ha Hb. split; intros Hagree; by apply (align2d_kept σ wa wb a b).
Qed.

Lemma include_modes_matter_only_for_the_retained_modes_witness :
  Align2d.align2d (S := reference_scipy) 0%nat 1%nat 0 1 (Some 2%nat) (Some 5%nat)
    (Some [(2, -2); (2, -1); (2, 0); (2, 1); (2, 2)]%Z) example_world
  = Align2d.align2d (S := reference_scipy) 0%nat 1%nat 0 1 (Some 2%nat) (Some 5%nat)
      None example_world.
Proof.
  destruct (include_modes_matter_only_for_the_retained_modes (S := reference_scipy)
              example_world 0%nat 1%nat example_wa example_wb 0 1 (Some 2%nat) (Some 5%nat)
              [(2, -2); (2, -1); (2, 0); (2, 1); (2, 2)]%Z []) as [_ Hall];
    [reflexivity | reflexivity |].
  apply Hall. intros lm Hlm. vm_compute in Hlm.
  repeat (apply elem_of_cons in Hlm as [->|Hlm]); try reflexivity.
  by apply elem_of_nil in Hlm.
Defined.

(** ** align2d: the shapes combined by the cost *)

Lemma length_δϕ_factor (w : WaveformModes) :
  (ell_min w <= ell_max w)%nat ->
  length (Align2d.δϕ_factor w) = ((ell_max w + 1) ^ 2 - ell_min w ^ 2)%nat.
Proof.
  intros Hle. unfold Align2d.δϕ_factor.
  replace (Z.of_nat (ell_max w) + 1)%Z
    with (Z.of_nat (ell_min w) + Z.of_nat (ell_max w + 1 - ell_min w))%Z by lia.
  rewrite (flat_map_ext _ (fun L => map (fun M => M) (range (- L) (L + 1))))
    by (intros L; by rewrite map_id).
  rewrite (modes_length (fun _ M => M)) by lia.
  replace (Z.of_nat (ell_min w) + Z.of_nat (ell_max w + 1 - ell_min w))%Z
    with (Z.of_nat (ell_max w + 1)) by lia.
  rewrite <- (Nat2Z.id ((ell_max w + 1) ^ 2 - ell_min w ^ 2)). f_equal.
  rewrite Nat2Z.inj_sub by (apply Nat.pow_le_mono_l; lia).
  by rewrite !Nat2Z.inj_pow.
Qed.

Lemma length_modes_slice_row (e A L : nat) (row : list C) :
  length row = ((A + 1) ^ 2 - e ^ 2)%nat ->
  (e <= 2)%nat -> (2 <= L <= A)%nat ->
  length (np.slice (LM 2 (-2) (Z.of_nat e))
            (LM (Z.of_nat L + 1) (- (Z.of_nat L + 1)) (Z.of_nat e)) row)
  = ((L + 1) ^ 2 - 4)%nat.
Proof.
  intros Hlen He HL.
  assert (LM 2 (-2) (Z.of_nat e) = Z.of_nat (4 - e * e)) as ->.
  { unfold LM. rewrite Z.pow_2_r. nia. }
  assert (LM (Z.of_nat L + 1) (- (Z.of_nat L + 1)) (Z.of_nat e)
          = Z.of_nat ((L + 1) * (L + 1) - e * e)) as ->.
  { unfold LM. rewrite Z.pow_2_r. nia. }
  rewrite !Nat.pow_2_r in *.
  unfold np.slice, np.slice_index. rewrite Hlen.
  assert (forall k : nat, (Z.of_nat k <? 0)%Z = false) as Hk by (intros k; apply Z.ltb_ge; lia).
  rewrite !Hk, !Nat2Z.id.
  rewrite length_take, length_drop, Hlen. nia.
Qed.

Lemma ncols_modes_slice (w : WaveformModes) (L : nat) :
  well_shaped w -> t w <> [] -> (ell_min w <= 2)%nat -> (2 <= L <= ell_max w)%nat ->
  np.ncols (data (Align2d.modes_slice w L)) = ((L + 1) ^ 2 - 4)%nat.
Proof.
  intros [Hrows Hcols] Hne He HL. unfold Align2d.modes_slice, getitem_modes. simpl.
  destruct (data w) as [|row rows] eqn:Hd.
  { destruct (t w); [done|]. simpl in Hrows. lia. }
  simpl. apply Forall_cons in Hcols as [Hrow _].
  by apply (length_modes_slice_row _ (ell_max w)).
Qed.

Lemma cost_shape_matching (a b : WaveformModes) :
  well_shaped a -> well_shaped b -> t a <> [] -> t b <> [] ->
  (ell_min a <= 2)%nat -> (ell_min b <= 2)%nat ->
  (2 <= ell_max a)%nat -> (2 <= ell_max b)%nat ->
  let L := Align2d.common_ell_max a b in
  (ell_min a = 2%nat /\ (ell_max a <= ell_max b)%nat ->
     np.broadcast_shape (np.ncols (data (Align2d.modes_slice a L)))
       (length (Align2d.δϕ_factor a)) = Ok ((L + 1) ^ 2 - 4)%nat /\
     Align2d.cost_shape a b L = Ok ((L + 1) ^ 2 - 4)%nat) /\
  (~ (ell_min a = 2%nat /\ (ell_max a <= ell_max b)%nat) ->
     np.broadcast_shape (np.ncols (data (Align2d.modes_slice a L)))
       (length (Align2d.δϕ_factor a)) = Err (ValueError CannotBroadcast) /\
     Align2d.cost_shape a b L = Err (ValueError CannotBroadcast)).
Proof.
  intros Ha Hb Hta Htb Hea Heb HA HB L.
  assert (2 <= L <= ell_max a)%nat as HLa by (unfold L, Align2d.common_ell_max; lia).
  assert (2 <= L <= ell_max b)%nat as HLb by (unfold L, Align2d.common_ell_max; lia).
  unfold Align2d.cost_shape.
  rewrite (ncols_modes_slice a L), (ncols_modes_slice b L) by done.
  rewrite length_δϕ_factor by lia.
  split.
  - intros [He Hle]. assert (L = ell_max a) as HL by (unfold L, Align2d.common_ell_max; lia).
    rewrite He, <- HL. change (2 ^ 2)%nat with 4%nat.
    unfold np.broadcast_shape. rewrite Nat.eqb_refl. simpl.
    by rewrite Nat.eqb_refl.
  - intros Hno.
    assert (np.broadcast_shape ((L + 1) ^ 2 - 4) ((ell_max a + 1) ^ 2 - ell_min a ^ 2)
            = Err (ValueError CannotBroadcast)) as ->; [|done].
    unfold np.broadcast_shape.
    assert (L = ell_max a \/ L < ell_max a)%nat as HL by lia.
    assert (ell_min a = 0 \/ ell_min a = 1 \/ ell_min a = 2)%nat as He by lia.
    rewrite !Nat.pow_2_r.
    assert (9 <= (L + 1) * (L + 1))%nat as H9 by nia.
    assert ((L + 1) * (L + 1) <= (ell_max a + 1) * (ell_max a + 1))%nat as Hmono by nia.
    assert (L < ell_max a -> (L + 1) * (L + 1) < (ell_max a + 1) * (ell_max a + 1))%nat
      as Hstrict by nia.
    assert (L = ell_max a -> ell_min a <> 2%nat) as He2.
    { intros HL' He2. apply Hno. split; [done|].
      unfold L, Align2d.common_ell_max in HL'. lia. }
    assert (ell_min a * ell_min a = 0 \/ ell_min a * ell_min a = 1 \/
            (ell_min a * ell_min a = 4 /\ ell_min a = 2))%nat as Hsq.
    { destruct He as [-> | [-> | ->]]; simpl; lia. }
    assert (L = ell_max a -> (L + 1) * (L + 1) = (ell_max a + 1) * (ell_max a + 1))%nat
      as Heq by (by intros ->).
    generalize dependent ((L + 1) * (L + 1))%nat. intros p.
    generalize dependent ((ell_max a + 1) * (ell_max a + 1))%nat. intros q.
    generalize dependent (ell_min a * ell_min a)%nat. intros r. intros.
    assert ((p - 4 =? q - r)%nat = false) as -> by (apply Nat.eqb_neq; lia).
    assert ((p - 4 =? 1)%nat = false) as -> by (apply Nat.eqb_neq; lia).
    assert ((q - r =? 1)%nat = false) as -> by (apply Nat.eqb_neq; lia).
    done.
Qed.

(** For waveforms that have one column per mode, with [ell_min] at most 2
    and [ell_max] at least 2, the cost of align2d and the construction of the
    transformed waveform are defined exactly when the modes of wa start at
    ell = 2 and go no further than those of wb; otherwise both raise numpy's
    [ValueError] for operands that cannot be broadcast together. *)
Theorem align2d_cost_defined_exactly_for_matching_modes {S : Scipy}
    (a b : WaveformModes) (t_ref : list R) (δt δϕ : R) :
  well_shaped a -> well_shaped b -> t a <> [] -> t b <> [] ->
  (ell_min a <= 2)%nat -> (ell_min b <= 2)%nat ->
  (2 <= ell_max a)%nat -> (2 <= ell_max b)%nat ->
  let L := Align2d.common_ell_max a b in
  (ell_min a = 2%nat /\ (ell_max a <= ell_max b)%nat ->
     Align2d.cost a b L t_ref [δt; δϕ] = Ok (Align2d.cost_value a b L t_ref δt δϕ) /\
     exists w' : WaveformModes,
       Align2d.wa_prime a L (Align2d.δϕ_factor a) δt δϕ = Ok w') /\
  (~ (ell_min a = 2%nat /\ (ell_max a <= ell_max b)%nat) ->
     Align2d.cost a b L t_ref [δt; δϕ] = Err (ValueError CannotBroadcast) /\
     Align2d.wa_prime a L (Align2d.δϕ_factor a) δt δϕ = Err (ValueError CannotBroadcast)).
Proof.
  intros Ha Hb Hta Htb Hea Heb HA HB L.
  destruct (cost_shape_matching a b Ha Hb Hta Htb Hea Heb HA HB) as [Hyes Hno].
  fold L in Hyes, Hno. unfold Align2d.cost, Align2d.wa_prime. split.
  - intros Hc. destruct (Hyes Hc) as [-> ->]. simpl. split; [done|]. eauto.
  - intros Hc. destruct (Hno Hc) as [-> ->]. done.
Qed.

Lemma example_well_shaped : well_shaped example_wa /\ well_shaped example_wb.
Proof.
  split; (split; [reflexivity|]); unfold example_wa, example_wb, waveform_of_norms;
    cbn [data map]; repeat (apply Forall_cons; split; [reflexivity|]); by apply Forall_nil.
Qed.

Lemma align2d_cost_defined_exactly_for_matching_modes_witness :
  Align2d.cost (S := reference_scipy) example_wa example_wb
    (Align2d.common_ell_max example_wa example_wb) [0; 1] [0; 0]
  = Ok (Align2d.cost_value (S := reference_scipy) example_wa example_wb
          (Align2d.common_ell_max example_wa example_wb) [0; 1] 0 0) /\
  exists w' : WaveformModes,
    Align2d.wa_prime (S := reference_scipy) example_wa
      (Align2d.common_ell_max example_wa example_wb) (Align2d.δϕ_factor example_wa) 0 0
    = Ok w'.
Proof.
  destruct (align2d_cost_defined_exactly_for_matching_modes (S := reference_scipy)
              example_wa example_wb [0; 1] 0 0) as [Hyes _];
    [apply example_well_shaped | apply example_well_shaped | done | done
    | simpl; lia | simpl; lia | simpl; lia | simpl; lia |].
  apply Hyes. split; [reflexivity | simpl; lia].
Defined.

(** ** align1d: where the cost vanishes *)

Lemma strictly_increasing_cons_inv x xs :
  (forall y, y ∈ xs -> x < y) -> strictly_increasing xs -> strictly_increasing (x :: xs).
Proof.
  intros Hx Hinc i k a b Hi Hk Hlt. destruct k as [|k]; [lia|]. simpl in Hk.
  destruct i as [|i]; simpl in Hi.
  - injection Hi as <-. apply Hx. by eapply list_elem_of_lookup_2.
  - apply (Hinc i k); [done..|lia].
Qed.

Lemma strictly_increasing_filter (f : R -> bool) (l : list R) :
  strictly_increasing l -> strictly_increasing (List.filter f l).
Proof.
  induction l as [|x l IH]; intros Hinc; simpl; [done|].
  apply strictly_increasing_cons in Hinc as [Hx Hinc].
  destruct (f x); [|by apply IH].
  apply strictly_increasing_cons_inv; [|by apply IH].
  intros y Hy. apply Hx. apply list_elem_of_In in Hy. apply filter_In in Hy as [Hy _].
  by apply list_elem_of_In.
Qed.

Lemma trapezoid_short (y x : list R) : (length x < 2)%nat -> np.trapezoid y x = 0.
Proof.
  intros Hlen. destruct x as [|a [|b x]]; simpl in Hlen; try lia.
  - unfold np.trapezoid, np.diff. simpl. by destruct (zip_with Rplus (tail y) y).
  - unfold np.trapezoid, np.diff. simpl. by destruct (zip_with Rplus (tail y) y).
Qed.

Lemma trapezoid_nonneg (y x : list R) :
  strictly_increasing x -> Forall (fun v => 0 <= v) y -> 0 <= np.trapezoid y x.
Proof.
  revert y. induction x as [|a x IH]; intros y Hinc Hy.
  { rewrite trapezoid_short by (simpl; lia). lra. }
  destruct x as [|b x].
  { rewrite trapezoid_short by (simpl; lia). lra. }
  destruct y as [|fa [|fb y]].
  - unfold np.trapezoid, np.diff. simpl. lra.
  - unfold np.trapezoid, np.diff. simpl. lra.
  - rewrite trapezoid_cons2.
    apply strictly_increasing_cons in Hinc as [Hab Hinc].
    apply Forall_cons in Hy as [Hfa Hy]. pose proof Hy as Hy'.
    apply Forall_cons in Hy' as [Hfb _].
    specialize (IH (fb :: y) Hinc Hy).
    assert (a < b) by (apply Hab; left). nra.
Qed.

Lemma trapezoid_zero (y x : list R) :
  strictly_increasing x -> Forall (fun v => 0 <= v) y ->
  length y = length x -> (2 <= length x)%nat ->
  np.trapezoid y x = 0 -> Forall (fun v => v = 0) y.
Proof.
  revert y. induction x as [|a x IH]; intros y Hinc Hy Hlen H2 Hz; [simpl in H2; lia|].
  destruct x as [|b x]; [simpl in H2; lia|].
  destruct y as [|fa [|fb y]]; simpl in Hlen; try lia.
  rewrite trapezoid_cons2 in Hz.
  apply strictly_increasing_cons in Hinc as [Hab Hinc].
  apply Forall_cons in Hy as [Hfa Hy]. pose proof Hy as Hy'.
  apply Forall_cons in Hy' as [Hfb _].
  pose proof (trapezoid_nonneg (fb :: y) (b :: x) Hinc Hy) as Hrest.
  assert (a < b) by (apply Hab; left).
  assert (fa = 0 /\ fb = 0 /\ np.trapezoid (fb :: y) (b :: x) = 0) as (-> & -> & Hz').
  { split_and!; nra. }
  apply Forall_cons. split; [done|].
  destruct x as [|c x].
  - destruct y; [|simpl in Hlen; lia]. by apply Forall_cons.
  - apply IH; [done|done|simpl in *; lia|simpl; lia|done].
Qed.

Lemma trapezoid_of_zeros (y x : list R) :
  Forall (fun v => v = 0) y -> np.trapezoid y x = 0.
Proof.
  revert y. induction x as [|a x IH]; intros y Hy.
  { apply trapezoid_short. simpl. lia. }
  destruct x as [|b x]; [apply trapezoid_short; simpl; lia|].
  destruct y as [|fa [|fb y]].
  - unfold np.trapezoid, np.diff. simpl. lra.
  - unfold np.trapezoid, np.diff. simpl. lra.
  - rewrite trapezoid_cons2. apply Forall_cons in Hy as [-> Hy].
    rewrite (IH _ Hy). apply Forall_cons in Hy as [-> _]. lra.
Qed.

Lemma length_boolean_index {A B} (a : list A) (b : list B) (mask : list bool) :
  length a = length b -> length (np.boolean_index a mask) = length (np.boolean_index b mask).
Proof.
  revert b mask. induction a as [|x a IH]; intros [|y b] [|m mask] Hlen; simpl in *;
    try done; try lia.
  destruct m; simpl; rewrite (IH b mask) by lia; done.
Qed.

Lemma squares_zero (xs ys : list R) :
  length xs = length ys ->
  (Forall (fun v => v = 0) (zip_with (fun a b => (a - b) ^ 2) xs ys) <-> ys = xs).
Proof.
  revert ys. induction xs as [|x xs IH]; intros [|y ys] Hlen; simpl in *; try done.
  rewrite Forall_cons, IH by lia. split.
  - intros [Hxy ->]. f_equal. nra.
  - intros [= -> ->]. split; [ring|done].
Qed.

(** The cost of align1d vanishes exactly on a perfect match: for strictly
    increasing sample times of wa and a normalisation that is not zero, the
    cost of an offset is 0 if and only if the interpolated norm of wb at every
    shifted reference time equals the norm of wa at that reference time. *)
Theorem align1d_cost_vanishes_exactly_on_a_match {S : Scipy}
    (wa wb : WaveformModes) (t1 t2 δt : R) :
  strictly_increasing (t wa) ->
  length (data wa) = length (t wa) ->
  0 < Align1d.normalization wa t1 t2 ->
  (Align1d.cost wa wb t1 t2 δt = 0
   <-> map (Align1d.norm_b wb) (Align1d.evaluation_times wa t1 t2 δt)
       = Align1d.norm_a wa t1 t2).
Proof.
  intros Hinc Hrows Hnorm.
  assert (length (Align1d.norm_a wa t1 t2) = length (Align1d.t_reference wa t1 t2)) as Hlen.
  { apply length_boolean_index. unfold norm. by rewrite length_map. }
  assert (strictly_increasing (Align1d.t_reference wa t1 t2)) as Hinc'.
  { rewrite t_reference1d_filter. by apply strictly_increasing_filter. }
  assert (2 <= length (Align1d.t_reference wa t1 t2))%nat as H2.
  { destruct (decide (2 <= length (Align1d.t_reference wa t1 t2))%nat); [done|].
    unfold Align1d.normalization in Hnorm. rewrite trapezoid_short in Hnorm by lia. lra. }
  set (ys := map (Align1d.norm_b wb) (Align1d.evaluation_times wa t1 t2 δt)).
  assert (length (Align1d.norm_a wa t1 t2) = length ys) as Hlen'.
  { unfold ys, Align1d.evaluation_times. by rewrite !length_map. }
  set (e := zip_with (fun a b => (a - b) ^ 2) (Align1d.norm_a wa t1 t2) ys).
  assert (Forall (fun v => 0 <= v) e) as Hpos.
  { apply Forall_forall. intros v Hv. apply list_elem_of_lookup in Hv as [k Hk].
    unfold e in Hk. apply lookup_zip_with_Some in Hk as (a & b & -> & _). apply pow2_ge_0. }
  assert (Align1d.cost wa wb t1 t2 δt
          = sqrt (np.trapezoid e (Align1d.t_reference wa t1 t2)
                  / Align1d.normalization wa t1 t2)) as -> by reflexivity.
  rewrite <- (squares_zero _ ys Hlen'). fold e.
  pose proof (trapezoid_nonneg e _ Hinc' Hpos) as Hnn.
  split.
  - intros Hz. apply sqrt_eq_0 in Hz.
    + apply trapezoid_zero with (Align1d.t_reference wa t1 t2); try done.
      * unfold e. rewrite length_zip_with. lia.
      * apply Rmult_integral in Hz as [Hz|Hz]; [done|].
        apply Rinv_neq_0_compat in Hz; [done|lra].
    + apply Rmult_le_pos; [done|]. left. by apply Rinv_0_lt_compat.
  - intros Hz. rewrite trapezoid_of_zeros by done.
    unfold Rdiv. rewrite Rmult_0_l. apply sqrt_0.
Qed.

Lemma example_wa_increasing : strictly_increasing (t example_wa).
Proof.
  intros i k a b Hi Hk Hlt. simpl in Hi, Hk.
  destruct i as [|[|i]]; simpl in Hi; try done; injection Hi as <-;
    destruct k as [|[|k]]; simpl in Hk; try done; injection Hk as <-; try lia; lra.
Qed.

Lemma align1d_cost_vanishes_exactly_on_a_match_witness :
  Align1d.cost (S := reference_scipy) example_wa example_wb 0 1 0 = 0
  <-> map (Align1d.norm_b (S := reference_scipy) example_wb)
          (Align1d.evaluation_times example_wa 0 1 0)
      = Align1d.norm_a example_wa 0 1.
Proof.
  apply (align1d_cost_vanishes_exactly_on_a_match (S := reference_scipy)
           example_wa example_wb 0 1 0).
  - exact example_wa_increasing.
  - reflexivity.
  - unfold Align1d.normalization. rewrite example_norm_a, example_t_reference.
    unfold np.trapezoid, np.diff. simpl. lra.
Defined.

(** ** align2d: the modes that are removed *)

Lemma mul_zero_r z : Cx.mul z (Cx.of_real 0) = Cx.zero.
Proof. destruct z as [x y]. unfold Cx.mul, Cx.of_real, Cx.zero. simpl. f_equal; ring. Qed.

Lemma ncols_zero_column k d : np.ncols (zero_column k d) = np.ncols d.
Proof. destruct d as [|r d]; [done|]. simpl. by rewrite length_alter. Qed.

Lemma zero_columns_rows cols d :
  zero_columns cols d
  = map (fun row => foldl (fun r k => alter (fun z => Cx.mul z (Cx.of_real 0)) k r) row cols) d.
Proof.
  unfold zero_columns. revert d. induction cols as [|k cols IH]; intros d; simpl.
  - by rewrite map_id.
  - rewrite IH. unfold zero_column. by rewrite <- list_fmap_compose.
Qed.

Lemma length_zeroed_row cols (row : list C) :
  length (foldl (fun r k => alter (fun z => Cx.mul z (Cx.of_real 0)) k r) row cols)
  = length row.
Proof.
  revert row. induction cols as [|k cols IH]; intros row; simpl; [done|].
  by rewrite IH, length_alter.
Qed.

Lemma lookup_zeroed_row cols (row : list C) (c : nat) (z : C) :
  row !! c = Some z ->
  foldl (fun r k => alter (fun z => Cx.mul z (Cx.of_real 0)) k r) row cols !! c
  = Some (if bool_decide (c ∈ cols) then Cx.zero else z).
Proof.
  revert row z. induction cols as [|k cols IH]; intros row z Hc; cbn [foldl].
  - by rewrite bool_decide_eq_false_2 by apply not_elem_of_nil.
  - destruct (decide (c = k)) as [->|Hne].
    + rewrite (IH _ (Cx.mul z (Cx.of_real 0))).
      * rewrite (bool_decide_eq_true_2 (k ∈ k :: cols)) by left.
        rewrite mul_zero_r. by destruct (bool_decide (k ∈ cols)).
      * rewrite list_lookup_alter_eq, Hc. done.
    + rewrite (IH _ z) by (by rewrite list_lookup_alter_ne).
      f_equal. rewrite (bool_decide_ext (c ∈ k :: cols) (c ∈ cols)); [done|].
      rewrite elem_of_cons. split; [intros [Heq|Hin]; done | intros Hin; by right].
Qed.

Lemma ncols_zero_columns cols d : np.ncols (zero_columns cols d) = np.ncols d.
Proof.
  unfold zero_columns. revert d. induction cols as [|k cols IH]; intros d; simpl; [done|].
  by rewrite IH, ncols_zero_column.
Qed.

Lemma with_data_id w : with_data w (data w) = w.
Proof. by destruct w. Qed.

Lemma item_index_in_range (len : nat) (i : Z) :
  (0 <= i < Z.of_nat len)%Z -> np.item_index len i = Some (Z.to_nat i).
Proof.
  intros Hi. unfold np.item_index.
  assert ((i <? 0)%Z = false) as -> by (apply Z.ltb_ge; lia).
  by assert ((i <? Z.of_nat len)%Z = true) as -> by (apply Z.ltb_lt; lia).
Qed.

Lemma run_zero_mode σ l w col :
  heap σ !! l = Some w -> (0 <= col < Z.of_nat (np.ncols (data w)))%Z ->
  zero_mode l col σ
  = (Ok tt, {| heap := <[l := with_data w (zero_column (Z.to_nat col) (data w))]> (heap σ);
               trace := trace σ ++ [EvZeroColumn l col] |}).
Proof.
  intros Hl Hcol. unfold zero_mode.
  rewrite (run_bind_ok _ _ _ _ _ (run_deref _ _ _ Hl)).
  by rewrite item_index_in_range.
Qed.

Lemma run_remove_loop la lb modes lms σ a b :
  la <> lb -> heap σ !! la = Some a -> heap σ !! lb = Some b ->
  (forall lm, lm ∈ lms -> Align2d.mode_in lm modes = false ->
     (0 <= LM (fst lm) (snd lm) (Z.of_nat (ell_min a)) < Z.of_nat (np.ncols (data a)))%Z /\
     (0 <= LM (fst lm) (snd lm) (Z.of_nat (ell_min b)) < Z.of_nat (np.ncols (data b)))%Z) ->
  exists σ',
    for_each lms (fun lm =>
      if Align2d.mode_in lm modes then ret tt
      else
        a <- deref la ;;
        zero_mode la (LM (fst lm) (snd lm) (Z.of_nat (ell_min a))) ;;;
        b <- deref lb ;;
        zero_mode lb (LM (fst lm) (snd lm) (Z.of_nat (ell_min b)))) σ = (Ok tt, σ') /\
    heap σ' !! la
    = Some (with_data a (zero_columns (removed_columns (Some modes) lms (ell_min a)) (data a))) /\
    heap σ' !! lb
    = Some (with_data b (zero_columns (removed_columns (Some modes) lms (ell_min b)) (data b))).
Proof.
  intros Hne. revert σ a b. induction lms as [|lm lms IH]; intros σ a b Ha Hb Hcols.
  - exists σ. unfold removed_columns, zero_columns. simpl. by rewrite !with_data_id.
  - simpl. unfold removed_columns. simpl.
    destruct (Align2d.mode_in lm modes) eqn:Hin; simpl.
    + rewrite (run_bind_ok (ret tt) _ σ tt σ eq_refl).
      apply IH; [done..|]. intros lm' Hlm'. apply Hcols. by right.
    + destruct (Hcols lm) as [Hca Hcb]; [left|done|].
      set (a1 := with_data a (zero_column
                   (Z.to_nat (LM (fst lm) (snd lm) (Z.of_nat (ell_min a)))) (data a))).
      set (b1 := with_data b (zero_column
                   (Z.to_nat (LM (fst lm) (snd lm) (Z.of_nat (ell_min b)))) (data b))).
      set (σ1 := {| heap := <[la := a1]> (heap σ);
                    trace := trace σ ++ [EvZeroColumn la
                               (LM (fst lm) (snd lm) (Z.of_nat (ell_min a)))] |}).
      set (σ2 := {| heap := <[lb := b1]> (heap σ1);
                    trace := trace σ1 ++ [EvZeroColumn lb
                               (LM (fst lm) (snd lm) (Z.of_nat (ell_min b)))] |}).
      assert (heap σ1 !! lb = Some b) as Hb1.
      { simpl. by rewrite lookup_insert_ne. }
      assert ((a0 <- deref la ;;
               zero_mode la (LM (fst lm) (snd lm) (Z.of_nat (ell_min a0))) ;;;
               b0 <- deref lb ;;
               zero_mode lb (LM (fst lm) (snd lm) (Z.of_nat (ell_min b0)))) σ
              = (Ok tt, σ2)) as Hstep.
      { rewrite (run_bind_ok _ _ _ _ _ (run_deref _ _ _ Ha)).
        rewrite (run_bind_ok _ _ _ _ _ (run_zero_mode σ la a _ Ha Hca)). fold a1. fold σ1.
        rewrite (run_bind_ok _ _ _ _ _ (run_deref _ _ _ Hb1)).
        by rewrite (run_zero_mode σ1 lb b _ Hb1 Hcb). }
      rewrite (run_bind_ok _ _ _ _ _ Hstep).
      destruct (IH σ2 a1 b1) as (σ' & Hrun & Hla & Hlb).
      * simpl. rewrite lookup_insert_ne by done. by rewrite lookup_insert_eq.
      * simpl. by rewrite lookup_insert_eq.
      * intros lm' Hlm' Hin'. unfold a1, b1, with_data. simpl.
        rewrite !ncols_zero_column. apply Hcols; [by right|done].
      * exists σ'. split; [done|]. by split.
Qed.

Lemma elem_of_range lo hi x : x ∈ range lo hi <-> (lo <= x < hi)%Z.
Proof.
  unfold range. rewrite list_elem_of_fmap. split.
  - intros (i & -> & Hi). apply elem_of_seq in Hi. lia.
  - intros Hx. exists (Z.to_nat (x - lo)). split; [lia|]. apply elem_of_seq. lia.
Qed.

Lemma elem_of_retained_modes (L : nat) (ell m : Z) :
  (ell, m) ∈ Align2d.retained_modes L
  <-> (2 <= ell <= Z.of_nat L)%Z /\ (- ell <= m <= ell)%Z.
Proof.
  unfold Align2d.retained_modes. rewrite list_elem_of_In, in_flat_map. split.
  - intros (l & Hl & Hin). apply in_map_iff in Hin as (m' & [= <- <-] & Hm).
    apply list_elem_of_In, elem_of_range in Hl. apply list_elem_of_In, elem_of_range in Hm. lia.
  - intros [Hl Hm]. exists ell. split.
    + apply list_elem_of_In, elem_of_range. lia.
    + apply in_map_iff. exists m. split; [done|]. apply list_elem_of_In, elem_of_range. lia.
Qed.

Lemma LM_inj (ell m ell' m' e : Z) :
  (0 <= ell)%Z -> (0 <= ell')%Z -> (- ell <= m <= ell)%Z -> (- ell' <= m' <= ell')%Z ->
  LM ell m e = LM ell' m' e -> ell = ell' /\ m = m'.
Proof.
  unfold LM. intros Hl Hl' Hm Hm' Heq.
  assert (ell = ell') as ->; [|lia].
  destruct (Z.lt_trichotomy ell ell') as [Hlt|[Heq'|Hlt]]; [|done|]; nia.
Qed.

Lemma LM_range (ell m : Z) (e A : nat) :
  (Z.of_nat e <= ell <= Z.of_nat A)%Z -> (- ell <= m <= ell)%Z ->
  (0 <= LM ell m (Z.of_nat e) < Z.of_nat ((A + 1) ^ 2 - e ^ 2))%Z.
Proof.
  intros Hl Hm. unfold LM. rewrite !Nat.pow_2_r, Z.pow_2_r.
  assert (e * e <= (A + 1) * (A + 1))%nat by nia.
  rewrite Nat2Z.inj_sub by done. nia.
Qed.

Lemma removed_column (include_modes : option (list (Z * Z))) (L e : nat) (ell m : Z) :
  (e <= 2)%nat -> (Z.of_nat e <= ell)%Z -> (- ell <= m <= ell)%Z ->
  bool_decide (Z.to_nat (LM ell m (Z.of_nat e))
               ∈ removed_columns include_modes (Align2d.retained_modes L) e)
  = (2 <=? ell)%Z && (ell <=? Z.of_nat L)%Z && negb (kept include_modes (ell, m)).
Proof.
  intros He Hl Hm.
  destruct ((2 <=? ell)%Z && (ell <=? Z.of_nat L)%Z && negb (kept include_modes (ell, m)))
    eqn:Hcond.
  - apply bool_decide_eq_true_2.
    apply andb_prop in Hcond as [Hcond Hk]. apply andb_prop in Hcond as [H2 HL].
    apply Z.leb_le in H2, HL.
    unfold removed_columns. apply list_elem_of_fmap. exists (ell, m). split; [done|].
    apply list_elem_of_In, filter_In. split; [|done].
    apply list_elem_of_In, elem_of_retained_modes. lia.
  - apply bool_decide_eq_false_2. intros Hin.
    unfold removed_columns in Hin. apply list_elem_of_fmap in Hin as ([ell' m'] & Heq & Hin).
    apply list_elem_of_In, filter_In in Hin as [Hin Hk].
    apply list_elem_of_In, elem_of_retained_modes in Hin as [Hl' Hm']. simpl in Heq.
    assert (LM ell m (Z.of_nat e) = LM ell' m' (Z.of_nat e)) as Heq'.
    { pose proof (LM_range ell m e (Z.to_nat ell)) as H1.
      pose proof (LM_range ell' m' e (Z.to_nat ell')) as H1'. lia. }
    apply LM_inj in Heq' as [<- <-]; [|lia..].
    rewrite Hk in Hcond.
    assert ((2 <=? ell)%Z = true) as H2 by (apply Z.leb_le; lia).
    assert ((ell <=? Z.of_nat L)%Z = true) as HL by (apply Z.leb_le; lia).
    by rewrite H2, HL in Hcond.
Qed.

Lemma with_data_removed (include_modes : option (list (Z * Z))) (L : nat) (w : WaveformModes) :
  (ell_min w <= 2)%nat ->
  modes_removed include_modes L w
    (with_data w (zero_columns
                    (removed_columns include_modes (Align2d.retained_modes L) (ell_min w))
                    (data w))).
Proof.
  intros He. split; [done|]. simpl. rewrite zero_columns_rows. split.
  - by rewrite length_map.
  - intros i row Hrow. eexists. split; [by rewrite list_lookup_fmap, Hrow|].
    split; [apply length_zeroed_row|].
    intros ell m z Hl Hm Hz. rewrite (lookup_zeroed_row _ _ _ z Hz). f_equal.
    by rewrite removed_column.
Qed.

Lemma modes_removed_refl (L : nat) (w : WaveformModes) : modes_removed None L w w.
Proof.
  split; [done|]. split; [done|]. intros i row Hrow. exists row. split_and!; [done..|].
  intros ell m z _ _ Hz. rewrite Hz. simpl. by rewrite andb_false_r.
Qed.

Lemma ncols_well_shaped (w : WaveformModes) :
  well_shaped w -> t w <> [] ->
  np.ncols (data w) = ((ell_max w + 1) ^ 2 - ell_min w ^ 2)%nat.
Proof.
  intros [Hrows Hcols] Hne. destruct (data w) as [|row rows].
  { destruct (t w); [done|]. simpl in Hrows. lia. }
  by apply Forall_cons in Hcols as [Hrow _].
Qed.

Lemma run_remove_modes σ la lb a b include_modes L :
  la <> lb -> heap σ !! la = Some a -> heap σ !! lb = Some b ->
  well_shaped a -> well_shaped b -> t a <> [] -> t b <> [] ->
  (ell_min a <= 2)%nat -> (ell_min b <= 2)%nat ->
  (L <= ell_max a)%nat -> (L <= ell_max b)%nat ->
  exists σ',
    Align2d.remove_modes la lb L include_modes σ = (Ok tt, σ') /\
    heap σ' !! la
    = Some (with_data a (zero_columns
              (removed_columns include_modes (Align2d.retained_modes L) (ell_min a))
              (data a))) /\
    heap σ' !! lb
    = Some (with_data b (zero_columns
              (removed_columns include_modes (Align2d.retained_modes L) (ell_min b))
              (data b))).
Proof.
  intros Hne Ha Hb Hsa Hsb Hta Htb Hea Heb HLa HLb.
  destruct include_modes as [modes|].
  - apply run_remove_loop; [done..|]. intros [ell m] Hlm _.
    apply elem_of_retained_modes in Hlm as [Hl Hm]. simpl.
    rewrite !ncols_well_shaped by done. split; apply LM_range; lia.
  - exists σ. unfold removed_columns, zero_columns. simpl.
    assert (List.filter (fun _ : Z * Z => false) (Align2d.retained_modes L) = []) as ->.
    { by induction (Align2d.retained_modes L). }
    simpl. by rewrite !with_data_id.
Qed.

(** With [include_modes] given, align2d sets to zero, at all times and in
    both working copies, every mode with ell from 2 to the smaller [ell_max]
    that is not in the list, and leaves every other mode, the times and the
    range of ell of the copies as they are; without [include_modes] the copies
    stay as they are.  This is for waveforms with one column per mode, at least
    one sample, and [ell_min] at most 2; no error is raised. *)
Theorem remove_modes_zeroes_the_modes_left_out
    (σ : world) (la lb : loc) (a b : WaveformModes)
    (include_modes : option (list (Z * Z))) :
  la <> lb -> heap σ !! la = Some a -> heap σ !! lb = Some b ->
  well_shaped a -> well_shaped b -> t a <> [] -> t b <> [] ->
  (ell_min a <= 2)%nat -> (ell_min b <= 2)%nat ->
  let L := Align2d.common_ell_max a b in
  exists (a' b' : WaveformModes) (σ' : world),
    Align2d.remove_modes la lb L include_modes σ = (Ok tt, σ') /\
    heap σ' !! la = Some a' /\ heap σ' !! lb = Some b' /\
    modes_removed include_modes L a a' /\ modes_removed include_modes L b b'.
Proof.
  intros Hne Ha Hb Hsa Hsb Hta Htb Hea Heb L.
  destruct (run_remove_modes σ la lb a b include_modes L) as (σ' & Hrun & Hla & Hlb);
    try done; try (unfold L, Align2d.common_ell_max; lia).
  eexists _, _, σ'. split_and!; [done..| |]; by apply with_data_removed.
Qed.

Lemma remove_modes_zeroes_the_modes_left_out_witness :
  exists (a' b' : WaveformModes) (σ' : world),
    Align2d.remove_modes 0%nat 1%nat (Align2d.common_ell_max example_wa example_wb)
      (Some [(2, 2)%Z]) example_world = (Ok tt, σ') /\
    heap σ' !! 0%nat = Some a' /\ heap σ' !! 1%nat = Some b' /\
    modes_removed (Some [(2, 2)%Z]) (Align2d.common_ell_max example_wa example_wb)
      example_wa a' /\
    modes_removed (Some [(2, 2)%Z]) (Align2d.common_ell_max example_wa example_wb)
      example_wb b'.
Proof.
  apply (remove_modes_zeroes_the_modes_left_out example_world 0%nat 1%nat
           example_wa example_wb (Some [(2, 2)%Z]));
    [lia | reflexivity | reflexivity | apply example_well_shaped | apply example_well_shaped
    | done | done | simpl; lia | simpl; lia].
Defined.

(** ** align1d: the calls that return *)

Lemma count_true_window_mask_pos ts t1 t2 u :
  u ∈ ts -> t1 <= u <= t2 -> (1 <= np.count_true (window_mask ts t1 t2))%nat.
Proof.
  unfold np.count_true, window_mask. intros Hu Hin.
  induction ts as [|v ts IH]; [by apply elem_of_nil in Hu|].
  simpl. apply elem_of_cons in Hu as [<-|Hu].
  - assert (in_window t1 t2 u = true) as -> by (by apply in_window_spec). simpl. lia.
  - specialize (IH Hu). destruct (in_window t1 t2 v); simpl; lia.
Qed.

Lemma default_n_brute_force_pos ta tb t1 t2 u :
  u ∈ ta ++ tb -> t1 <= u <= t2 -> (1 <= default_n_brute_force ta tb t1 t2)%nat.
Proof.
  intros Hu Hin. unfold default_n_brute_force. apply elem_of_app in Hu as [Hu|Hu].
  - pose proof (count_true_window_mask_pos ta t1 t2 u Hu Hin). lia.
  - pose proof (count_true_window_mask_pos tb t1 t2 u Hu Hin). lia.
Qed.

Lemma brute_force1d_total {S : Scipy} a b t1 t2 grid :
  grid <> [] -> exists δ0, Align1d.brute_force a b t1 t2 grid = Ok δ0.
Proof.
  intros Hne. unfold Align1d.brute_force.
  destruct (argmin_nonempty (map (Align1d.cost a b t1 t2) grid)) as [i Hi].
  { by destruct grid. }
  rewrite Hi. simpl. apply argmin_first_minimum in Hi as (v & Hv & _).
  rewrite list_lookup_fmap in Hv. destruct (grid !! i) as [δ0|]; [eauto|done].
Qed.

Lemma linspace_nonempty a b n e : (1 <= n)%nat -> np.linspace a b n e <> [].
Proof.
  intros Hn Hnil. apply (f_equal length) in Hnil. rewrite length_linspace in Hnil.
  simpl in Hnil. lia.
Qed.

Lemma δt_bounds_strict first last_ t1 t2 :
  t1 < t2 -> first <= t1 -> t2 <= last_ -> first < t1 \/ t2 < last_ ->
  Align1d.δt_lower first t1 t2 < Align1d.δt_upper last_ t1 t2.
Proof.
  intros Ht H1 H2 Hslack.
  destruct (δt_bounds_window first last_ t1 t2 Ht H1 H2) as (Hl & Hu & Heq).
  destruct (Rle_lt_or_eq_dec (Align1d.δt_lower first t1 t2) (Align1d.δt_upper last_ t1 t2))
    as [Hlt|He]; [lra | done |].
  apply Heq in He as [-> ->]. lra.
Qed.

(** A call of align1d whose window passes the validation raises no exception
    of its own and hands the solver a well-posed problem.  The hypotheses are
    those under which scipy accepts what it is given: at least one point in
    the brute-force grid (a count of at least 1, or no count and a sample of
    wa or of wb in the window); wb spanning more than the window, so that the
    bounds are strictly ordered; strictly increasing times with one norm each,
    so that the interpolant can be built; and a positive normalisation, so
    that the cost is a number.  Then the brute-force search returns a seed
    within the bounds, and with a solver that returns a vector of the length
    of its seed whenever the bounds are strictly ordered and the seed lies
    within them, the call returns the single component of the solver's result
    from that seed and leaves the store as it is. *)
Theorem align1d_returns_for_a_valid_window {S : Scipy}
    (σ : world) (wa wb : loc) (a b : WaveformModes)
    (a_first a_last b_first b_last t1 t2 : R) (n : option nat) :
  (forall f x0 lb ub, Forall2 Rlt lb ub -> in_box lb ub x0 ->
     length (least_squares f x0 lb ub) = length x0) ->
  spans σ wa a a_first a_last -> spans σ wb b b_first b_last ->
  window_ok t1 t2 a_first a_last b_first b_last ->
  b_first < t1 \/ t2 < b_last ->
  length (data a) = length (t a) -> length (data b) = length (t b) ->
  strictly_increasing (t a) -> strictly_increasing (t b) ->
  0 < Align1d.normalization a t1 t2 ->
  match n with
  | Some k => (1 <= k)%nat
  | None => exists u : R, u ∈ t a ++ t b /\ t1 <= u <= t2
  end ->
  let lower := Align1d.δt_lower b_first t1 t2 in
  let upper := Align1d.δt_upper b_last t1 t2 in
  let count := match n with
               | Some k => k
               | None => default_n_brute_force (t a) (t b) t1 t2
               end in
  exists (x δ0 : R) (σ' : world),
    Align1d.align1d wa wb t1 t2 n σ = (Ok x, σ') /\
    heap σ' = heap σ /\
    Align1d.brute_force a b t1 t2 (Align1d.δt_brute_force lower upper count) = Ok δ0 /\
    lower < upper /\ lower <= δ0 <= upper /\
    Align1d.refine a b t1 t2 lower upper δ0 = [x].
Proof.
  intros Hsolver Ha Hb Hok Hslack Hrows _ _ _ _ Hn lower upper count.
  pose proof Hok as (Ht & _ & Hb1 & Hb2).
  assert (lower < upper) as Hstrict by (by apply δt_bounds_strict).
  assert (1 <= count)%nat as Hcount.
  { unfold count. destruct n as [k|]; [done|].
    destruct Hn as (u & Hu & Hin). by eapply default_n_brute_force_pos. }
  destruct (brute_force1d_total a b t1 t2 (Align1d.δt_brute_force lower upper count))
    as [δ0 Hδ0].
  { by apply linspace_nonempty. }
  assert (lower <= δ0 <= upper) as Hseed.
  { apply brute_force1d_minimises in Hδ0 as [Hin _].
    eapply linspace_bounds; [|exact Hin]. lra. }
  pose proof (Hsolver (fun x => Align1d.cost a b t1 t2 (nth 0 x 0)) [δ0] [lower] [upper])
    as Hlen.
  fold (Align1d.refine a b t1 t2 lower upper δ0) in Hlen.
  destruct (Align1d.refine a b t1 t2 lower upper δ0) as [|x [|x' rest]] eqn:Href;
    [exfalso; simpl in Hlen | | exfalso; simpl in Hlen].
  1,3: assert (Forall2 Rlt [lower] [upper]) as Hlt
         by (apply Forall2_cons; split; [done | by apply Forall2_nil]);
       specialize (Hlen Hlt (in_box_1 _ _ _ Hseed)); lia.
  destruct (run_align1d σ wa wb a b a_first a_last b_first b_last t1 t2 n Ha Hb)
    as (evs & _ & [[_ Hrun]|[Hbad _]]); [|done].
  exists x, δ0. eexists. split; [|split_and!; [|done|done|lra|lra|done]].
  - rewrite Hrun. erewrite run_body1d; [|by apply spans_with_events..].
    unfold Align1d.search.
    assert (length (norm a) = length (t a)) as -> by (unfold norm; by rewrite length_map).
    rewrite Nat.eqb_refl. fold lower upper count. rewrite Hδ0. simpl. by rewrite Href.
  - done.
Qed.

Lemma example_wb_increasing : strictly_increasing (t example_wb).
Proof. exact example_finer_wb_increasing. Qed.

Lemma example_normalization : Align1d.normalization example_wa 0 1 = 49.
Proof.
  unfold Align1d.normalization. rewrite example_norm_a, example_t_reference.
  unfold np.trapezoid, np.diff. simpl. lra.
Qed.

Lemma align1d_returns_for_a_valid_window_witness :
  exists (x δ0 : R) (σ' : world),
    Align1d.align1d (S := reference_scipy) 0%nat 1%nat 0 1 (Some 3%nat) example_world
    = (Ok x, σ') /\
    heap σ' = heap example_world /\
    Align1d.brute_force (S := reference_scipy) example_wa example_wb 0 1
      (Align1d.δt_brute_force (Align1d.δt_lower (-1) 0 1) (Align1d.δt_upper 2 0 1) 3)
    = Ok δ0 /\
    Align1d.δt_lower (-1) 0 1 < Align1d.δt_upper 2 0 1 /\
    Align1d.δt_lower (-1) 0 1 <= δ0 <= Align1d.δt_upper 2 0 1 /\
    Align1d.refine (S := reference_scipy) example_wa example_wb 0 1
      (Align1d.δt_lower (-1) 0 1) (Align1d.δt_upper 2 0 1) δ0 = [x].
Proof.
  apply (align1d_returns_for_a_valid_window (S := reference_scipy) example_world 0%nat 1%nat
           example_wa example_wb 0 1 (-1) 2 0 1 (Some 3%nat)).
  - intros f x0 lb ub _ _. reflexivity.
  - exact example_spans_wa.
  - exact example_spans_wb.
  - exact example_window_ok.
  - left. lra.
  - reflexivity.
  - reflexivity.
  - exact example_wa_increasing.
  - exact example_wb_increasing.
  - rewrite example_normalization. lra.
  - lia.
Defined.

(** ** align2d: the calls that return *)

Lemma candidates_nonempty_counts a b t1 t2 lower upper n_δt n_δϕ :
  match n_δt with
  | Some k => (1 <= k)%nat
  | None => exists u : R, u ∈ t a ++ t b /\ t1 <= u <= t2
  end ->
  match n_δϕ with
  | Some m => (1 <= m)%nat
  | None => True
  end ->
  Align2d.candidates a b t1 t2 lower upper n_δt n_δϕ <> [].
Proof.
  intros Hn Hm Hnil. apply (f_equal length) in Hnil.
  unfold Align2d.candidates, Align2d.δt_δϕ_brute_force, Align2d.δt_brute_force,
    Align2d.δϕ_brute_force, Align2d.default_n_brute_force_δϕ in Hnil.
  rewrite meshgrid_rows_length, !length_linspace in Hnil. simpl in Hnil.
  assert (1 <= match n_δt with
               | Some n => n
               | None => default_n_brute_force (t a) (t b) t1 t2
               end)%nat.
  { destruct n_δt as [k|]; [done|]. destruct Hn as (u & Hu & Hin).
    by eapply default_n_brute_force_pos. }
  destruct n_δϕ as [m|]; nia.
Qed.

Lemma well_shaped_with_data w cols :
  well_shaped w -> well_shaped (with_data w (zero_columns cols (data w))).
Proof.
  intros [Hrows Hcols]. split; simpl.
  - by rewrite zero_columns_rows, length_map.
  - rewrite zero_columns_rows. apply Forall_fmap.
    eapply Forall_impl; [exact Hcols|]. intros row Hrow. simpl.
    by rewrite length_zeroed_row.
Qed.

Lemma run_body2d_cases {S : Scipy} σ wa la lb orig a b a_first a_last t1 t2
    n_δt n_δϕ include_modes t_ref :
  spans σ la a a_first a_last -> heap σ !! lb = Some b -> heap σ !! wa = Some orig ->
  la <> lb -> wa <> la -> wa <> lb ->
  well_shaped a -> well_shaped b -> t b <> [] ->
  (ell_min a <= 2)%nat -> (ell_min b <= 2)%nat ->
  Align2d.t_reference a t1 t2 = Ok t_ref ->
  let L := Align2d.common_ell_max a b in
  let lower := Align2d.δt_lower a_first t1 t2 in
  let upper := Align2d.δt_upper a_last t1 t2 in
  let cands := Align2d.candidates a b t1 t2 lower upper n_δt n_δϕ in
  let a' := with_modes_removed include_modes L a in
  let b' := with_modes_removed include_modes L b in
  well_shaped a' /\ well_shaped b' /\ same_frame a a' /\ same_frame b b' /\
  (forall e, Align2d.search a' b' L t_ref lower upper cands = Err e ->
     (Align2d.body wa la lb t1 t2 n_δt n_δϕ include_modes σ).1 = Err e) /\
  (forall δt δϕ w',
     Align2d.search a' b' L t_ref lower upper cands = Ok [δt; δϕ] ->
     Align2d.wa_prime orig L (Align2d.δϕ_factor a') δt δϕ = Ok w' ->
     exists l σ',
       Align2d.body wa la lb t1 t2 n_δt n_δϕ include_modes σ = (Ok ([δt; δϕ], l), σ')).
Proof.
  intros Ha Hb Hwa Hne Hwa_la Hwa_lb Hsa Hsb Htb Hea Heb Ht L lower upper cands a' b'.
  pose proof (spans_nonempty _ _ _ _ _ Ha) as Hta.
  unfold with_modes_removed in a', b'.
  split_and!; [by apply well_shaped_with_data | by apply well_shaped_with_data | done | done | |].
  - intros e He. unfold Align2d.body.
    run_get_first Ha. run_get_last Ha.
    run_read_at la (proj1 Ha). run_read_at lb Hb.
    rewrite Ht. rewrite (run_bind_ok _ _ _ _ _ (run_lift _ _)).
    match goal with
    | |- context [bind (Align2d.remove_modes la lb _ include_modes) _ ?s] =>
        destruct (run_remove_modes s la lb a b include_modes L)
          as (σ6 & Hrun & Hla6 & Hlb6);
          [done | exact (proj1 Ha) | exact Hb | done..
          | unfold L, Align2d.common_ell_max; lia
          | unfold L, Align2d.common_ell_max; lia |];
        rewrite (run_bind_ok _ _ s _ _ Hrun)
    end.
    run_read_at la Hla6. run_read_at lb Hlb6.
    fold a' b' lower upper cands L. rewrite He. done.
  - intros δt δϕ w' Hs Hw. unfold Align2d.body.
    run_get_first Ha. run_get_last Ha.
    run_read_at la (proj1 Ha). run_read_at lb Hb.
    rewrite Ht. rewrite (run_bind_ok _ _ _ _ _ (run_lift _ _)).
    match goal with
    | |- context [bind (Align2d.remove_modes la lb _ include_modes) _ ?s] =>
        destruct (run_remove_modes s la lb a b include_modes L)
          as (σ6 & Hrun & Hla6 & Hlb6);
          [done | exact (proj1 Ha) | exact Hb | done..
          | unfold L, Align2d.common_ell_max; lia
          | unfold L, Align2d.common_ell_max; lia |];
        rewrite (run_bind_ok _ _ s _ _ Hrun);
        pose proof (pe_remove_modes la lb L include_modes s wa orig Hwa) as Hwa6
    end.
    rewrite Hrun in Hwa6. simpl in Hwa6.
    assert (heap σ6 !! wa = Some orig) as Hwa6'.
    { apply Hwa6. rewrite !elem_of_cons, elem_of_nil. intros [?|[?|[]]]; done. }
    run_read_at la Hla6. run_read_at lb Hlb6.
    fold a' b' lower upper cands L. rewrite Hs.
    rewrite (run_bind_ok _ _ _ _ _ (run_lift _ _)).
    run_read_at wa Hwa6'.
    rewrite Hw. rewrite (run_bind_ok _ _ _ _ _ (run_lift _ _)).
    unfold bind, new_waveform, ret. eauto.
Qed.

Lemma cost_shape_same_frame a b a' b' L :
  same_frame a a' -> same_frame b b' ->
  well_shaped a' -> well_shaped b' -> t a <> [] -> t b <> [] ->
  (ell_min a <= 2)%nat -> (ell_min b <= 2)%nat ->
  (2 <= ell_max a)%nat -> (2 <= ell_max b)%nat ->
  L = Align2d.common_ell_max a b ->
  (ell_min a = 2%nat /\ (ell_max a <= ell_max b)%nat ->
     exists k, Align2d.cost_shape a' b' L = Ok k) /\
  (~ (ell_min a = 2%nat /\ (ell_max a <= ell_max b)%nat) ->
     Align2d.cost_shape a' b' L = Err (ValueError CannotBroadcast)).
Proof.
  intros (Hta & Hea & HAa) (Htb & Heb & HAb) Hsa Hsb Hna Hnb He1 He2 H1 H2 ->.
  assert (Align2d.common_ell_max a b = Align2d.common_ell_max a' b') as ->.
  { unfold Align2d.common_ell_max. by rewrite HAa, HAb. }
  rewrite <- Hea, <- HAa, <- HAb, <- Heb in *. rewrite <- Hta in Hna. rewrite <- Htb in Hnb.
  destruct (cost_shape_matching a' b' Hsa Hsb Hna Hnb He1 He2 H1 H2) as [Hyes Hno].
  split.
  - intros Hc. destruct (Hyes Hc) as [_ ->]. eauto.
  - intros Hc. by destruct (Hno Hc) as [_ ->].
Qed.

(** For a window that passes the validation, at least one candidate in the
    brute-force grid, strictly increasing times and waveforms with one column
    per mode, [ell_min] at most 2 and [ell_max] at least 2, align2d gets
    through its brute-force search exactly when the modes of wa start at
    ell = 2 and go no further than those of wb: otherwise it raises numpy's
    [ValueError] for operands that cannot be broadcast together, with or
    without [include_modes].  When the modes match, the search returns a seed
    within the bounds; and when further wa spans more than the window, so that
    the bounds are strictly ordered, and the normalisation, taken from wb's
    copy after the modes left out are zeroed, is positive, so that the cost is
    a number, a solver that returns a vector of the length of its seed
    whenever the bounds are strictly ordered and the seed lies within them
    makes the call return: the solver's result from that seed, of two
    components, and a new object. *)
Theorem align2d_returns_exactly_for_matching_modes {S : Scipy}
    (σ : world) (wa wb : loc) (a b : WaveformModes)
    (a_first a_last b_first b_last t1 t2 : R)
    (n_δt n_δϕ : option nat) (include_modes : option (list (Z * Z))) (t_ref : list R) :
  (forall f x0 lb ub, Forall2 Rlt lb ub -> in_box lb ub x0 ->
     length (least_squares f x0 lb ub) = length x0) ->
  spans σ wa a a_first a_last -> spans σ wb b b_first b_last ->
  window_ok t1 t2 a_first a_last b_first b_last ->
  well_shaped a -> well_shaped b ->
  strictly_increasing (t a) -> strictly_increasing (t b) ->
  (ell_min a <= 2)%nat -> (ell_min b <= 2)%nat ->
  (2 <= ell_max a)%nat -> (2 <= ell_max b)%nat ->
  Align2d.t_reference a t1 t2 = Ok t_ref ->
  match n_δt with
  | Some k => (1 <= k)%nat
  | None => exists u : R, u ∈ t a ++ t b /\ t1 <= u <= t2
  end ->
  match n_δϕ with
  | Some m => (1 <= m)%nat
  | None => True
  end ->
  let L := Align2d.common_ell_max a b in
  let lower := Align2d.δt_lower a_first t1 t2 in
  let upper := Align2d.δt_upper a_last t1 t2 in
  let cands := Align2d.candidates a b t1 t2 lower upper n_δt n_δϕ in
  let a' := with_modes_removed include_modes L a in
  let b' := with_modes_removed include_modes L b in
  (ell_min a = 2%nat /\ (ell_max a <= ell_max b)%nat ->
     exists seed : R * R,
       Align2d.brute_force a' b' L t_ref cands = Ok seed /\
       in_box [lower; 0] [upper; 2 * PI] [fst seed; snd seed] /\
       (a_first < t1 \/ t2 < a_last ->
        0 < Align2d.normalization b' L t_ref ->
        exists (l : loc) (σ' : world),
          Align2d.align2d wa wb t1 t2 n_δt n_δϕ include_modes σ
          = (Ok (Align2d.refine a' b' L t_ref lower upper seed, l), σ') /\
          lower < upper /\
          length (Align2d.refine a' b' L t_ref lower upper seed) = 2%nat /\
          heap σ !! l = None)) /\
  (~ (ell_min a = 2%nat /\ (ell_max a <= ell_max b)%nat) ->
     (Align2d.align2d wa wb t1 t2 n_δt n_δϕ include_modes σ).1
     = Err (ValueError CannotBroadcast)).
Proof.
  intros Hsolver Ha Hb Hok Hsa Hsb _ _ Hea Heb HAa HAb Ht Hn Hm L lower upper cands a' b'.
  subst a' b' cands lower upper L.
  set (a' := with_modes_removed include_modes (Align2d.common_ell_max a b) a).
  set (b' := with_modes_removed include_modes (Align2d.common_ell_max a b) b).
  pose proof Hok as (Ht12 & [Ha1 Ha2] & _).
  destruct (run_align2d σ wa wb a b a_first a_last b_first b_last t1 t2
              n_δt n_δϕ include_modes Ha Hb)
    as (la & lb & evs & Hla & Hlb & Hne & _ & [[_ Hrun]|[Hbad _]]); [|done].
  simpl in Hrun. rewrite Hrun. clear Hrun.
  set (σ0 := {| heap := <[lb:=b]> (<[la:=a]> (heap σ));
                trace := trace σ ++ [EvCopy wa la; EvCopy wb lb] ++ evs |}).
  assert (wa <> la) as Hwa_la by (destruct Ha as (Ha & _); congruence).
  assert (wa <> lb) as Hwa_lb by (destruct Ha as (Ha & _); congruence).
  assert (spans σ0 la a a_first a_last) as Ha0.
  { destruct Ha as (_ & Hx & Hy). split; [|done]. simpl.
    rewrite lookup_insert_ne by done. by rewrite lookup_insert_eq. }
  assert (heap σ0 !! lb = Some b) as Hb0 by (simpl; by rewrite lookup_insert_eq).
  assert (heap σ0 !! wa = Some a) as Hwa0.
  { simpl. rewrite !lookup_insert_ne by done. apply Ha. }
  pose proof (spans_nonempty _ _ _ _ _ Ha) as Hta.
  pose proof (spans_nonempty _ _ _ _ _ Hb) as Htb.
  destruct (run_body2d_cases σ0 wa la lb a a b a_first a_last t1 t2 n_δt n_δϕ include_modes
              t_ref Ha0 Hb0 Hwa0 Hne Hwa_la Hwa_lb Hsa Hsb Htb Hea Heb Ht)
    as (Hsa' & Hsb' & Hfa & Hfb & Herr & Hret).
  fold a' b' in Hsa', Hsb', Hfa, Hfb, Herr, Hret.
  destruct (cost_shape_same_frame a b a' b' (Align2d.common_ell_max a b)
              Hfa Hfb Hsa' Hsb' Hta Htb Hea Heb HAa HAb eq_refl) as [Hyes Hno].
  pose proof (candidates_nonempty_counts a b t1 t2 (Align2d.δt_lower a_first t1 t2)
                (Align2d.δt_upper a_last t1 t2) n_δt n_δϕ Hn Hm) as Hcands.
  split.
  - intros Hc. destruct (Hyes Hc) as [k Hk].
    destruct (brute_force2d_total a' b' (Align2d.common_ell_max a b) t_ref _ k Hk Hcands)
      as [seed Hseed].
    assert (in_box [Align2d.δt_lower a_first t1 t2; 0] [Align2d.δt_upper a_last t1 t2; 2 * PI]
              [fst seed; snd seed]) as Hbox.
    { pose proof Hseed as Hin. apply brute_force2d_minimises in Hin as [Hin _].
      destruct seed as [δt0 δϕ0]. simpl.
      apply meshgrid_rows_elem in Hin as [Hδt Hδϕ].
      apply δϕ_brute_force_range in Hδϕ.
      apply in_box_2; [|lra].
      eapply linspace_bounds; [|exact Hδt].
      pose proof (δt_bounds_ordered a_first a_last t1 t2 Ht12 Ha1 Ha2) as Hord.
      unfold Align2d.δt_lower, Align2d.δt_upper.
      unfold Align1d.δt_lower, Align1d.δt_upper in Hord. lra. }
    exists seed. split; [exact Hseed|]. split; [exact Hbox|].
    intros Hslack _.
    assert (Align2d.δt_lower a_first t1 t2 < Align2d.δt_upper a_last t1 t2) as Hstrict
      by exact (δt_bounds_strict a_first a_last t1 t2 Ht12 Ha1 Ha2 Hslack).
    assert (Forall2 Rlt [Align2d.δt_lower a_first t1 t2; 0]
              [Align2d.δt_upper a_last t1 t2; 2 * PI]) as Hlt.
    { apply Forall2_cons. split; [done|]. apply Forall2_cons.
      split; [pose proof PI_RGT_0; lra | by apply Forall2_nil]. }
    pose proof (Hsolver
                  (fun x => Align2d.cost_value a' b' (Align2d.common_ell_max a b) t_ref
                              (nth 0 x 0) (nth 1 x 0))
                  [fst seed; snd seed]
                  [Align2d.δt_lower a_first t1 t2; 0]
                  [Align2d.δt_upper a_last t1 t2; 2 * PI] Hlt Hbox) as Hlen.
    fold (Align2d.refine a' b' (Align2d.common_ell_max a b) t_ref
            (Align2d.δt_lower a_first t1 t2) (Align2d.δt_upper a_last t1 t2) seed) in Hlen.
    destruct (Align2d.refine a' b' (Align2d.common_ell_max a b) t_ref
                (Align2d.δt_lower a_first t1 t2) (Align2d.δt_upper a_last t1 t2) seed)
      as [|δt [|δϕ [|]]] eqn:Href; simpl in Hlen; try lia.
    destruct (cost_shape_matching a b Hsa Hsb Hta Htb Hea Heb HAa HAb) as [Hwa_yes _].
    destruct (Hwa_yes Hc) as [Hshape _].
    destruct (Hret δt δϕ
                {| t := map (fun u => u + δt) (t a);
                   data := map (fun u =>
                     np.broadcast Cx.mul
                       (Align2d.CubicSpline_modes (t a)
                          (data (Align2d.modes_slice a (Align2d.common_ell_max a b)))
                          (u + δt))
                       (Align2d.phase_factors δϕ (Align2d.δϕ_factor a')))
                     (t a);
                   ell_min := 2;
                   ell_max := Align2d.common_ell_max a b |}) as (l & σ' & Hbody).
    + unfold Align2d.search. rewrite Hseed. simpl. by rewrite Href.
    + unfold Align2d.wa_prime. rewrite (δϕ_factor_same_frame _ _ Hfa), Hshape. done.
    + exists l, σ'. split_and!; [done..|].
      apply run_body2d_ok with (a := a) in Hbody
        as (_ & _ & _ & _ & _ & _ & _ & _ & _ & _ & _ & Hnew); [|done..].
      destruct (heap σ !! l) as [w0|] eqn:Hl0; [|done]. exfalso.
      apply (Hnew l w0); [|done]. simpl.
      assert (l <> la) by congruence. assert (l <> lb) by congruence.
      by rewrite !lookup_insert_ne.
  - intros Hc. apply Herr. apply search2d_shape_error; [by apply Hno | done].
Qed.

Lemma example4_spans_wa : spans example_world4 0%nat example_wa4 0 3.
Proof. split_and!; done. Qed.

Lemma example4_spans_wb : spans example_world4 1%nat example_wb (-1) 2.
Proof. split_and!; done. Qed.

Lemma example4_well_shaped : well_shaped example_wa4 /\ well_shaped example_wb.
Proof.
  split; (split; [reflexivity|]); unfold example_wa4, example_wb, waveform_of_norms;
    cbn [data map]; repeat (apply Forall_cons; split; [reflexivity|]); by apply Forall_nil.
Qed.

Lemma example4_t_reference : Align2d.t_reference example_wa4 1 2 = Ok [1; 2].
Proof.
  unfold Align2d.t_reference, Align2d.nearest_index.
  assert (map (fun u => Rabs (u - 1)) (t example_wa4) = [1; 0; 1; 2]) as ->.
  { simpl. rewrite (Rabs_numeral_neg (0 - 1)) by lra.
    rewrite (Rabs_numeral_pos (2 - 1)), (Rabs_numeral_pos (3 - 1)) by lra.
    replace (1 - 1) with 0 by lra. rewrite Rabs_R0. repeat f_equal; lra. }
  assert (map (fun u => Rabs (u - 2)) (t example_wa4) = [2; 1; 0; 1]) as ->.
  { simpl. rewrite (Rabs_numeral_neg (0 - 2)), (Rabs_numeral_neg (1 - 2)) by lra.
    rewrite (Rabs_numeral_pos (3 - 2)) by lra.
    replace (2 - 2) with 0 by lra. rewrite Rabs_R0. repeat f_equal; lra. }
  simpl. decide_Rlt. reflexivity.
Qed.

Lemma example4_normalization :
  Align2d.normalization (S := reference_scipy)
    (with_modes_removed None (Align2d.common_ell_max example_wa4 example_wb) example_wb)
    (Align2d.common_ell_max example_wa4 example_wb) [1; 2] = 27 / 4.
Proof.
  unfold with_modes_removed, removed_columns, zero_columns. cbn [kept negb].
  assert (List.filter (fun _ : Z * Z => false)
            (Align2d.retained_modes (Align2d.common_ell_max example_wa4 example_wb)) = [])
    as -> by (by induction (Align2d.retained_modes _)).
  simpl foldl. rewrite with_data_id.
  unfold Align2d.normalization.
  assert (norm (Align2d.modes_slice example_wb
                  (Align2d.common_ell_max example_wa4 example_wb))
          = [1 / 2; 7; 7; 13 / 2]) as ->.
  { assert (Align2d.modes_slice example_wb (Align2d.common_ell_max example_wa4 example_wb)
            = example_wb) as -> by reflexivity.
    apply norm_waveform_of_norms. repeat constructor; lra. }
  unfold np.trapezoid, np.diff. simpl. field.
Qed.

Lemma align2d_returns_exactly_for_matching_modes_witness :
  let L := Align2d.common_ell_max example_wa4 example_wb in
  let lower := Align2d.δt_lower 0 1 2 in
  let upper := Align2d.δt_upper 3 1 2 in
  let b' := with_modes_removed None L example_wb in
  let a' := with_modes_removed None L example_wa4 in
  exists (seed : R * R) (l : loc) (σ' : world),
    Align2d.brute_force (S := reference_scipy) a' b' L [1; 2]
      (Align2d.candidates example_wa4 example_wb 1 2 lower upper (Some 2%nat) (Some 1%nat))
    = Ok seed /\
    in_box [lower; 0] [upper; 2 * PI] [fst seed; snd seed] /\
    Align2d.align2d (S := reference_scipy) 0%nat 1%nat 1 2 (Some 2%nat) (Some 1%nat) None
      example_world4
    = (Ok (Align2d.refine (S := reference_scipy) a' b' L [1; 2] lower upper seed, l), σ') /\
    lower < upper /\
    length (Align2d.refine (S := reference_scipy) a' b' L [1; 2] lower upper seed) = 2%nat /\
    heap example_world4 !! l = None.
Proof.
  intros L lower upper b' a'.
  destruct (align2d_returns_exactly_for_matching_modes (S := reference_scipy)
              example_world4 0%nat 1%nat example_wa4 example_wb 0 3 (-1) 2 1 2
              (Some 2%nat) (Some 1%nat) None [1; 2]) as [Hyes _].
  - intros f x0 lb ub _ _. reflexivity.
  - exact example4_spans_wa.
  - exact example4_spans_wb.
  - unfold window_ok. lra.
  - apply example4_well_shaped.
  - apply example4_well_shaped.
  - exact example_wa4_increasing.
  - exact example_wb_increasing.
  - simpl. lia.
  - simpl. lia.
  - simpl. lia.
  - simpl. lia.
  - exact example4_t_reference.
  - lia.
  - lia.
  - destruct Hyes as (seed & Hseed & Hbox & Hrun); [split; [reflexivity | simpl; lia]|].
    destruct Hrun as (l & σ' & Hrun & Hstrict & Hlen & Hnew).
    + left. lra.
    + rewrite example4_normalization. lra.
    + exists seed, l, σ'. done.
Defined.

(** * Properties of sxs.zenodo.catalog *)

(** ** The catalog: outcomes *)

Section catalog_outcomes.
Import Catalog.

Lemma bind_Return {A B} (m : outcome A) (k : A -> outcome B) (b : B) :
  m ≫= k = Return b -> exists a, m = Return a /\ k a = Return b.
Proof.
  intros H. destruct m as [a|e]; cbv [mbind outcome_bind] in H.
  - exists a. done.
  - discriminate H.
Qed.

Lemma bind_Raise {A B} (m : outcome A) (k : A -> outcome B) (e : error) :
  m ≫= k = Raise e -> m = Raise e \/ exists a, m = Return a /\ k a = Raise e.
Proof.
  intros H. destruct m as [a|e']; cbv [mbind outcome_bind] in H.
  - right. exists a. done.
  - injection H as ->. by left.
Qed.

Lemma for_all_Return {A B} (f : A -> outcome B) (l : list A) (bs : list B) :
  for_all f l = Return bs -> Forall2 (fun a b => f a = Return b) l bs.
Proof.
  revert bs. induction l as [|a l IH]; intros bs Hr; simpl in Hr.
  - injection Hr as <-. constructor.
  - apply bind_Return in Hr as (b & Hb & Hr). apply bind_Return in Hr as (bs' & Hbs & Hr).
    injection Hr as <-. constructor; [done | by apply IH].
Qed.

Lemma for_all_total {A B} (f : A -> outcome B) (g : A -> B) (l : list A) :
  (forall a, a ∈ l -> f a = Return (g a)) -> for_all f l = Return (g <$> l).
Proof.
  induction l as [|a l IH]; intros Hf; simpl; [done|].
  rewrite (Hf a) by left. simpl. rewrite IH; [done|]. intros a' Ha'. apply Hf. by right.
Qed.

End catalog_outcomes.

Section catalog_from_representation_list.
Import Catalog.
Context (catalog_file_description : string) (sxs_identifier_search : string -> option string).

Abbreviation search_title := (Catalog.search_title sxs_identifier_search).
Abbreviation group_by_sxs_id := (Catalog.group_by_sxs_id sxs_identifier_search).

Lemma group_without_identifier (rs : list json) (groups : list (string * list json)) :
  (forall r, r ∈ rs -> search_title r = Return None) ->
  group_by_sxs_id rs groups = Return groups.
Proof.
  induction rs as [|r rs IH]; intros Hnone; simpl; [done|].
  rewrite (Hnone r) by left. simpl. apply IH. intros r' Hr'. apply Hnone. by right.
Qed.

(** When no title holds an identifier, in particular for the empty list,
    catalog_from_representation_list raises [IndexError]: the last of no
    modification times is taken. *)
Theorem catalog_of_no_simulation_raises_IndexError (representation_list : list json) :
  (forall r, r ∈ representation_list ->
     exists title : string,
       getitem r "title" = Return (JStr title) /\ sxs_identifier_search title = None) ->
  Catalog.catalog_from_representation_list catalog_file_description sxs_identifier_search
    representation_list = Raise IndexError.
Proof.
  intros Hnone. unfold Catalog.catalog_from_representation_list.
  rewrite group_without_identifier.
  - reflexivity.
  - intros r Hr. destruct (Hnone r Hr) as (title & Ht & Hs).
    unfold Catalog.search_title. rewrite Ht. simpl. by rewrite Hs.
Qed.

End catalog_from_representation_list.

(** ** The order of strings and sorting *)

Lemma string_compare_refl (s : string) : String.compare s s = Eq.
Proof.
  induction s as [|c s IH]; simpl; [done|].
  unfold Ascii.compare. by rewrite N.compare_refl.
Qed.

Lemma string_compare_lt_trans (s1 s2 s3 : string) :
  String.compare s1 s2 = Lt -> String.compare s2 s3 = Lt -> String.compare s1 s3 = Lt.
Proof.
  revert s2 s3. induction s1 as [|c1 s1 IH]; intros [|c2 s2] [|c3 s3]; simpl; try done.
  unfold Ascii.compare.
  destruct (N.compare_spec (Ascii.N_of_ascii c1) (Ascii.N_of_ascii c2)) as [H12|H12|H12];
    destruct (N.compare_spec (Ascii.N_of_ascii c2) (Ascii.N_of_ascii c3)) as [H23|H23|H23];
    try done; intros Ha Hb.
  - rewrite H12, H23, N.compare_refl. by eapply IH.
  - rewrite H12. by apply N.compare_lt_iff in H23 as ->.
  - rewrite <- H23. by apply N.compare_lt_iff in H12 as ->.
  - assert (Ascii.N_of_ascii c1 < Ascii.N_of_ascii c3)%N as H13 by lia.
    by apply N.compare_lt_iff in H13 as ->.
Qed.

Lemma string_ltb_irrefl (s : string) : String.ltb s s = false.
Proof. unfold String.ltb. by rewrite string_compare_refl. Qed.

Lemma string_ltb_asym (s1 s2 : string) : String.ltb s1 s2 = true -> String.ltb s2 s1 = false.
Proof.
  unfold String.ltb. rewrite (String.compare_antisym s2 s1).
  by destruct (String.compare s1 s2).
Qed.

Lemma string_ltb_trans (s1 s2 s3 : string) :
  String.ltb s1 s2 = true -> String.ltb s2 s3 = true -> String.ltb s1 s3 = true.
Proof.
  unfold String.ltb. intros H12 H23.
  rewrite (string_compare_lt_trans s1 s2 s3); [done|..].
  - by destruct (String.compare s1 s2).
  - by destruct (String.compare s2 s3).
Qed.

Lemma string_ltb_total (s1 s2 : string) :
  String.ltb s1 s2 = false -> String.ltb s2 s1 = false -> s1 = s2.
Proof.
  unfold String.ltb. rewrite (String.compare_antisym s2 s1).
  destruct (String.compare s1 s2) eqn:Hc; try done. intros _ _.
  by apply String.compare_eq_iff.
Qed.

(** [s1 <= s2]: not [s2 < s1]. *)
Lemma string_not_ltb_trans (s1 s2 s3 : string) :
  String.ltb s2 s1 = false -> String.ltb s3 s2 = false -> String.ltb s3 s1 = false.
Proof.
  intros H21 H32. destruct (String.ltb s3 s1) eqn:H31; [|done]. exfalso.
  destruct (String.ltb s1 s2) eqn:H12.
  - by rewrite (string_ltb_trans s3 s1 s2) in H32.
  - assert (s1 = s2) as -> by (by apply string_ltb_total). congruence.
Qed.

Lemma insert_string_perm (x : string) (l : list string) :
  Catalog.insert_string x l ≡ₚ x :: l.
Proof.
  induction l as [|y l IH]; simpl; [done|].
  destruct (String.ltb y x); [|done]. rewrite IH. apply Permutation_swap.
Qed.

Lemma sorted_strings_perm (l : list string) : Catalog.sorted_strings l ≡ₚ l.
Proof.
  unfold Catalog.sorted_strings. induction l as [|x l IH]; simpl; [done|].
  by rewrite insert_string_perm, IH.
Qed.

Lemma ascending_cons (x : string) (l : list string) :
  ascending (x :: l) <-> (forall y, y ∈ l -> String.ltb y x = false) /\ ascending l.
Proof.
  split.
  - intros Hasc. split.
    + intros y Hy. apply list_elem_of_lookup in Hy as [k Hk].
      apply (Hasc 0%nat (S k) x y); [done..|lia].
    + intros i k a b Hi Hk Hlt. apply (Hasc (S i) (S k) a b); [done..|lia].
  - intros [Hx Hasc] i k a b Hi Hk Hlt. destruct k as [|k]; [lia|]. simpl in Hk.
    destruct i as [|i]; simpl in Hi.
    + injection Hi as <-. apply Hx. by eapply list_elem_of_lookup_2.
    + apply (Hasc i k); [done..|lia].
Qed.

Lemma insert_string_ascending (x : string) (l : list string) :
  ascending l -> ascending (Catalog.insert_string x l).
Proof.
  induction l as [|y l IH]; intros Hasc; simpl.
  - apply ascending_cons. split; [|done]. intros y Hy. by apply elem_of_nil in Hy.
  - apply ascending_cons in Hasc as [Hy Hasc]. destruct (String.ltb y x) eqn:Hyx.
    + apply ascending_cons. split; [|by apply IH].
      intros z Hz. rewrite insert_string_perm in Hz. apply elem_of_cons in Hz as [->|Hz].
      * by apply string_ltb_asym.
      * by apply Hy.
    + apply ascending_cons. split.
      * intros z Hz. apply elem_of_cons in Hz as [->|Hz]; [done|].
        apply (string_not_ltb_trans x y z); [done | by apply Hy].
      * apply ascending_cons. done.
Qed.

Lemma sorted_strings_ascending (l : list string) : ascending (Catalog.sorted_strings l).
Proof.
  unfold Catalog.sorted_strings. induction l as [|x l IH]; simpl.
  - intros i k a b Hi. done.
  - by apply insert_string_ascending.
Qed.

Lemma ascending_NoDup_strict (l : list string) (i k : nat) (a b : string) :
  ascending l -> NoDup l -> l !! i = Some a -> l !! k = Some b -> (i < k)%nat ->
  String.ltb a b = true.
Proof.
  intros Hasc Hnd Hi Hk Hlt. destruct (String.ltb a b) eqn:Hab; [done|]. exfalso.
  pose proof (Hasc i k a b Hi Hk Hlt) as Hba.
  assert (a = b) as -> by (by apply string_ltb_total).
  pose proof (NoDup_lookup l i k b Hnd Hi Hk). lia.
Qed.

(** ** The catalog: the representations of one simulation *)

Lemma has_identifier_eq (sxs_identifier_search : string -> option string)
    (sxs_id : string) (r : Catalog.json) :
  has_identifier sxs_identifier_search sxs_id r
  = match Catalog.search_title sxs_identifier_search r with
    | Catalog.Return (Some k) => String.eqb sxs_id k
    | _ => false
    end.
Proof. reflexivity. Qed.

Section catalog_groups.
Import Catalog.
Context (sxs_identifier_search : string -> option string).

Abbreviation search_title := (Catalog.search_title sxs_identifier_search).
Abbreviation group_by_sxs_id := (Catalog.group_by_sxs_id sxs_identifier_search).
Abbreviation has_identifier := (has_identifier sxs_identifier_search).

Lemma lookup_group_append_to (k sxs_id : string) (r : json) (groups : list (string * list json)) :
  lookup_group k (append_to sxs_id r groups)
  = if String.eqb k sxs_id then lookup_group k groups ++ [r] else lookup_group k groups.
Proof.
  induction groups as [|[k' rs] groups IH]; simpl.
  - destruct (String.eqb_spec k sxs_id) as [->|Hne]; done.
  - destruct (String.eqb_spec sxs_id k') as [->|Hne]; simpl.
    + destruct (String.eqb_spec k k') as [->|Hne']; done.
    + destruct (String.eqb_spec k k') as [->|Hne'].
      * by rewrite (proj2 (String.eqb_neq k' sxs_id)) by done.
      * exact IH.
Qed.

Lemma keys_append_to (sxs_id : string) (r : json) (groups : list (string * list json)) :
  (append_to sxs_id r groups).*1
  = if bool_decide (sxs_id ∈ groups.*1) then groups.*1 else groups.*1 ++ [sxs_id].
Proof.
  induction groups as [|[k rs] groups IH]; [done|]. cbn [append_to].
  destruct (String.eqb_spec sxs_id k) as [->|Hne]; rewrite !fmap_cons; cbn [fst].
  - by rewrite bool_decide_eq_true_2 by left.
  - rewrite IH. case_bool_decide as Hin.
    + by rewrite bool_decide_eq_true_2 by (by right).
    + rewrite bool_decide_eq_false_2; [done|].
      intros Hin'. apply elem_of_cons in Hin' as [?|?]; done.
Qed.

Lemma has_identifier_search (sxs_id : string) (r : json) :
  has_identifier sxs_id r = true <-> search_title r = Return (Some sxs_id).
Proof.
  rewrite has_identifier_eq.
  destruct (search_title r) as [[k|]|e]; try (split; done).
  split.
  - intros Heq. apply String.eqb_eq in Heq. by subst.
  - intros [= ->]. apply String.eqb_refl.
Qed.

(** The representations gathered under an identifier are those of the list
    whose title holds it, in the order of the list. *)
Lemma group_by_sxs_id_spec (rs : list json) (acc groups : list (string * list json)) :
  group_by_sxs_id rs acc = Return groups ->
  (forall k, lookup_group k groups = lookup_group k acc ++ List.filter (has_identifier k) rs) /\
  (forall k, k ∈ groups.*1 <-> k ∈ acc.*1 \/ exists r, r ∈ rs /\ has_identifier k r = true) /\
  (NoDup acc.*1 -> NoDup groups.*1) /\
  (forall r, r ∈ rs -> exists o, search_title r = Return o).
Proof.
  revert acc. induction rs as [|r rs IH]; intros acc Hg; simpl in Hg.
  - injection Hg as <-. split_and!.
    + intros k. by rewrite app_nil_r.
    + intros k. split; [by left|]. intros [?|(r & Hr & _)]; [done|]. by apply elem_of_nil in Hr.
    + done.
    + intros r Hr. by apply elem_of_nil in Hr.
  - apply bind_Return in Hg as (o & Ho & Hg). destruct o as [sxs_id|].
    + apply IH in Hg as (Hlook & Hkeys & Hnd & Hall). split_and!.
      * intros k. rewrite Hlook, lookup_group_append_to. simpl.
        rewrite (has_identifier_eq _ k r), Ho.
        destruct (String.eqb k sxs_id); [by rewrite <- app_assoc | done].
      * intros k. rewrite Hkeys, keys_append_to. split.
        -- intros [Hin|(r' & Hr' & Hid)].
           ++ case_bool_decide; [by left|]. apply elem_of_app in Hin as [Hin|Hin]; [by left|].
              apply list_elem_of_singleton in Hin as ->. right. exists r. split; [left|].
              by apply has_identifier_search.
           ++ right. exists r'. split; [by right | done].
        -- intros [Hin|(r' & Hr' & Hid)].
           ++ left. case_bool_decide; [done|]. apply elem_of_app. by left.
           ++ apply elem_of_cons in Hr' as [->|Hr'].
              ** left. apply has_identifier_search in Hid. rewrite Ho in Hid.
                 injection Hid as ->. case_bool_decide; [done|].
                 apply elem_of_app. right. by apply list_elem_of_singleton.
              ** right. eauto.
      * intros Hacc. apply Hnd. rewrite keys_append_to. case_bool_decide as Hin; [done|].
        apply NoDup_app. split_and!; [done| |apply NoDup_singleton].
        intros x Hx Hx'. apply list_elem_of_singleton in Hx' as ->. done.
      * intros r' Hr'. apply elem_of_cons in Hr' as [->|Hr']; [eauto | by apply Hall].
    + apply IH in Hg as (Hlook & Hkeys & Hnd & Hall). split_and!.
      * intros k. rewrite Hlook. simpl.
        by rewrite (has_identifier_eq _ k r), Ho.
      * intros k. rewrite Hkeys. split.
        -- intros [Hin|(r' & Hr' & Hid)]; [by left|]. right. exists r'. split; [by right|done].
        -- intros [Hin|(r' & Hr' & Hid)]; [by left|].
           apply elem_of_cons in Hr' as [->|Hr'].
           ++ apply has_identifier_search in Hid. congruence.
           ++ right. eauto.
      * done.
      * intros r' Hr'. apply elem_of_cons in Hr' as [->|Hr']; [eauto | by apply Hall].
Qed.

End catalog_groups.

(** ** The catalog: items of a dict and sorting by a key *)

Section catalog_items.
Import Catalog.

Lemma lookup_set_item (k k' : string) (v : json) (items : list (string * json)) :
  lookup_item k (set_item k' v items)
  = if String.eqb k k' then Some v else lookup_item k items.
Proof.
  induction items as [|[k0 v0] items IH]; simpl.
  - by destruct (String.eqb k k').
  - destruct (String.eqb_spec k' k0) as [->|Hne]; simpl.
    + by destruct (String.eqb k k0).
    + destruct (String.eqb_spec k k0) as [->|Hne'].
      * by rewrite (proj2 (String.eqb_neq k0 k')) by done.
      * exact IH.
Qed.

Lemma keys_set_item (k : string) (v : json) (items : list (string * json)) :
  keys (set_item k v items)
  = if bool_decide (k ∈ keys items) then keys items else keys items ++ [k].
Proof.
  unfold keys. induction items as [|[k0 v0] items IH]; [done|]. cbn [set_item].
  destruct (String.eqb_spec k k0) as [->|Hne]; cbn [List.map fst].
  - by rewrite bool_decide_eq_true_2 by left.
  - rewrite IH. case_bool_decide as Hin.
    + by rewrite bool_decide_eq_true_2 by (by right).
    + rewrite bool_decide_eq_false_2; [done|].
      intros Hin'. apply elem_of_cons in Hin' as [?|?]; done.
Qed.

Lemma lookup_item_Some (k : string) (items : list (string * json)) :
  is_Some (lookup_item k items) <-> k ∈ keys items.
Proof.
  unfold keys. induction items as [|[k0 v0] items IH]; simpl.
  - split; [by intros [? ?] | by intros ?%elem_of_nil].
  - destruct (String.eqb_spec k k0) as [->|Hne].
    + split; [intros _; left | eauto].
    + rewrite IH. split; [by right|]. intros Hin. by apply elem_of_cons in Hin as [?|?].
Qed.

Lemma insert_sorted_perm {A} (x : json * A) (l r : list (json * A)) :
  insert_sorted x l = Return r -> r ≡ₚ x :: l.
Proof.
  revert r. induction l as [|y l IH]; intros r Hr; simpl in Hr.
  - by injection Hr as <-.
  - apply bind_Return in Hr as (b & Hb & Hr). destruct b.
    + apply bind_Return in Hr as (r' & Hr' & Hr). injection Hr as <-.
      rewrite (IH r' Hr'). apply Permutation_swap.
    + by injection Hr as <-.
Qed.

Lemma py_sorted_perm {A} (l s : list (json * A)) : py_sorted l = Return s -> s ≡ₚ l.
Proof.
  revert s. induction l as [|x l IH]; intros s Hs; simpl in Hs.
  - by injection Hs as <-.
  - apply bind_Return in Hs as (s' & Hs' & Hs).
    rewrite (insert_sorted_perm _ _ _ Hs). by rewrite (IH s' Hs').
Qed.

(** A pair with a string as its key. *)
Lemma insert_sorted_strings {A} (x : string * A) (l : list (string * A)) :
  exists r : list (string * A),
    insert_sorted (JStr x.1, x.2) (prod_map JStr (fun a : A => a) <$> l)
    = Return (prod_map JStr (fun a : A => a) <$> r) /\
    r ≡ₚ x :: l /\ (ascending l.*1 -> ascending r.*1).
Proof.
  destruct x as [sx ax]. induction l as [|[sy ay] l IH].
  - exists [(sx, ax)]. split_and!; [done..|]. intros _.
    apply ascending_cons. split; [|done]. intros z Hz. by apply elem_of_nil in Hz.
  - destruct IH as (r & Hr & Hperm & Hasc). rewrite fmap_cons.
    cbn [insert_sorted prod_map fst snd py_lt] in *. cbv [mbind outcome_bind].
    destruct (String.ltb sy sx) eqn:Hyx.
    + exists ((sy, ay) :: r). rewrite Hr. split_and!.
      * done.
      * rewrite Hperm. apply Permutation_swap.
      * intros Hl. rewrite fmap_cons in Hl |- *. apply ascending_cons in Hl as [Hy Hl].
        apply ascending_cons. split; [|by apply Hasc].
        intros z Hz. rewrite Hperm, fmap_cons in Hz. apply elem_of_cons in Hz as [->|Hz].
        -- by apply string_ltb_asym.
        -- by apply Hy.
    + exists ((sx, ax) :: (sy, ay) :: l). split_and!.
      * done.
      * done.
      * intros Hl. rewrite !fmap_cons in Hl |- *. apply ascending_cons. split; [|done].
        apply ascending_cons in Hl as [Hy Hl].
        intros z Hz. apply elem_of_cons in Hz as [->|Hz]; [done|].
        apply (string_not_ltb_trans sx sy z); [done | by apply Hy].
Qed.

Lemma py_sorted_strings {A} (l : list (string * A)) :
  exists s : list (string * A),
    py_sorted (prod_map JStr (fun a : A => a) <$> l) = Return (prod_map JStr (fun a : A => a) <$> s) /\
    s ≡ₚ l /\ ascending s.*1.
Proof.
  induction l as [|x l IH].
  - exists []. split_and!; [done..|]. intros i k a b Hi. done.
  - destruct IH as (s & Hs & Hperm & Hasc).
    destruct (insert_sorted_strings x s) as (r & Hr & Hperm' & Hasc').
    exists r. rewrite fmap_cons. cbn [py_sorted]. rewrite Hs. cbv [mbind outcome_bind].
    split_and!.
    + destruct x. exact Hr.
    + by rewrite Hperm', Hperm.
    + by apply Hasc'.
Qed.

End catalog_items.

(** ** The catalog built from a list of representations *)

Section catalog_entries.
Import Catalog.
Context (catalog_file_description : string) (sxs_identifier_search : string -> option string).

Abbreviation has_identifier := (has_identifier sxs_identifier_search).
Abbreviation catalog_from_representation_list :=
  (Catalog.catalog_from_representation_list catalog_file_description sxs_identifier_search).

Lemma add_entries_spec (ids : list string) (groups : list (string * list json))
    (acc items : list (string * json)) :
  add_entries ids groups acc = Return items ->
  (forall k, k ∈ ids ->
     exists e, entry (lookup_group k groups) = Return e /\ lookup_item k items = Some e) /\
  (forall k, k ∉ ids -> lookup_item k items = lookup_item k acc) /\
  (NoDup ids -> (forall k, k ∈ ids -> k ∉ keys acc) -> keys items = keys acc ++ ids).
Proof.
  revert acc. induction ids as [|sxs_id ids IH]; intros acc Hadd; simpl in Hadd.
  - injection Hadd as <-. split_and!.
    + intros k Hk. by apply elem_of_nil in Hk.
    + done.
    + intros _ _. by rewrite app_nil_r.
  - apply bind_Return in Hadd as (e & He & Hadd).
    apply IH in Hadd as (Hin & Hout & Hkeys). split_and!.
    + intros k Hk. destruct (decide (k ∈ ids)) as [Hk'|Hk']; [by apply Hin|].
      apply elem_of_cons in Hk as [->|Hk]; [|done].
      exists e. split; [done|]. rewrite (Hout _ Hk'), lookup_set_item.
      by rewrite String.eqb_refl.
    + intros k Hk. apply not_elem_of_cons in Hk as [Hne Hk].
      rewrite (Hout _ Hk), lookup_set_item.
      by rewrite (proj2 (String.eqb_neq k sxs_id)).
    + intros Hnd Hfresh. apply NoDup_cons in Hnd as [Hnotin Hnd].
      rewrite Hkeys; [|done|].
      * rewrite keys_set_item. rewrite bool_decide_eq_false_2 by (apply Hfresh; left).
        by rewrite <- app_assoc.
      * intros k Hk. rewrite keys_set_item.
        rewrite bool_decide_eq_false_2 by (apply Hfresh; left).
        intros Hin'. apply elem_of_app in Hin' as [Hin'|Hin'].
        -- by apply (Hfresh k); [right|].
        -- apply list_elem_of_singleton in Hin' as ->. done.
Qed.

(** What a catalog that is returned consists of. *)
Lemma catalog_returned (representation_list : list json) (catalog : json) :
  catalog_from_representation_list representation_list = Return catalog ->
  exists (groups : list (string * list json)) (m : json) (items : list (string * json)),
    catalog = JDict true items /\
    Catalog.last_file_modification groups = Return m /\
    NoDup groups.*1 /\
    (forall k, lookup_group k groups = List.filter (has_identifier k) representation_list) /\
    (forall k, k ∈ groups.*1
       <-> exists r, r ∈ representation_list /\ has_identifier k r = true) /\
    (forall k, k ∈ groups.*1 ->
       exists e, entry (lookup_group k groups) = Return e /\ lookup_item k items = Some e) /\
    (forall k, k ∉ groups.*1 ->
       lookup_item k items
       = lookup_item k [("catalog_file_description"%string, JStr catalog_file_description);
                        ("last_file_modification"%string, m)]) /\
    ("catalog_file_description"%string ∉ groups.*1 ->
     "last_file_modification"%string ∉ groups.*1 ->
     keys items = ["catalog_file_description"%string; "last_file_modification"%string]
                  ++ sorted_strings groups.*1).
Proof.
  unfold catalog_from_representation_list, Catalog.catalog_from_representation_list.
  intros Hc.
  apply bind_Return in Hc as (groups & Hg & Hc).
  apply bind_Return in Hc as (m & Hm & Hc).
  apply bind_Return in Hc as (items & Hitems & Hc). injection Hc as <-.
  apply group_by_sxs_id_spec in Hg as (Hlook & Hkeys & Hnd & _).
  specialize (Hnd (NoDup_nil_2)).
  apply add_entries_spec in Hitems as (Hin & Hout & Hks).
  assert (List.map fst groups = groups.*1) as Hmap by done.
  rewrite Hmap in *.
  exists groups, m, items. split_and!; try done.
  - intros k. rewrite Hkeys. split; [intros [Hk|?]; [by apply elem_of_nil in Hk|done] | by right].
  - intros k Hk. apply Hin. by rewrite sorted_strings_perm.
  - intros k Hk. apply Hout. by rewrite sorted_strings_perm.
  - intros Hd Hl. apply Hks.
    + by rewrite sorted_strings_perm.
    + intros k Hk. rewrite sorted_strings_perm in Hk. simpl.
      intros Hin'. apply elem_of_cons in Hin' as [->|Hin']; [done|].
      apply elem_of_cons in Hin' as [->|Hin']; [done|]. by apply elem_of_nil in Hin'.
Qed.

End catalog_entries.

Section catalog_versions.
Import Catalog.
Context (catalog_file_description : string) (sxs_identifier_search : string -> option string).

Abbreviation has_identifier := (has_identifier sxs_identifier_search).
Abbreviation catalog_from_representation_list :=
  (Catalog.catalog_from_representation_list catalog_file_description sxs_identifier_search).

Lemma for_all_strings (key : string) (rs cs : list json) :
  for_all (fun r => getitem r key) rs = Return cs ->
  (forall r c, r ∈ rs -> getitem r key = Return c -> exists s, c = JStr s) ->
  exists ss : list string,
    cs = JStr <$> ss /\ length ss = length rs /\
    forall p, p ∈ zip ss rs -> getitem p.2 key = Return (JStr p.1).
Proof.
  intros Hcs Hstr. apply for_all_Return in Hcs.
  induction Hcs as [|r c rs cs Hc _ IH].
  - exists []. split_and!; [done..|]. intros p Hp. by apply elem_of_nil in Hp.
  - destruct IH as (ss & -> & Hlen & Hzip).
    { intros r' c' Hr'. apply Hstr. by right. }
    destruct (Hstr r c) as [s ->]; [left|done|].
    exists (s :: ss). split_and!; [done|simpl; lia|].
    intros p Hp. simpl in Hp. apply elem_of_cons in Hp as [->|Hp]; [done|]. by apply Hzip.
Qed.

Lemma zip_fmap_strings (ss : list string) (rs : list json) :
  zip (JStr <$> ss) rs = prod_map JStr (fun a : json => a) <$> zip ss rs.
Proof.
  revert rs. induction ss as [|s ss IH]; intros [|r rs]; simpl; try done.
  by rewrite <- IH.
Qed.

(** The versions of a simulation are its representations, oldest first. *)
Lemma versions_returned (rs : list json) (vs : json) :
  Catalog.versions rs = Return vs ->
  (forall r c, r ∈ rs -> getitem r "created" = Return c -> exists s, c = JStr s) ->
  exists s : list (string * json),
    vs = JList (version_of <$> s.*2) /\ s.*2 ≡ₚ rs /\ ascending s.*1 /\
    forall p, p ∈ s -> getitem p.2 "created" = Return (JStr p.1).
Proof.
  unfold Catalog.versions. intros Hv Hstr.
  apply bind_Return in Hv as (created & Hc & Hv).
  apply bind_Return in Hv as (s & Hs & Hv). injection Hv as <-.
  destruct (for_all_strings _ _ _ Hc Hstr) as (ss & -> & Hlen & Hzip).
  rewrite zip_fmap_strings in Hs.
  destruct (py_sorted_strings (zip ss rs)) as (s0 & Hs0 & Hperm & Hasc).
  rewrite Hs0 in Hs. injection Hs as <-.
  exists s0. split_and!.
  - f_equal. rewrite <- !list_fmap_compose. apply list_fmap_ext. by intros i [c r] _.
  - rewrite Hperm. by rewrite snd_zip by lia.
  - done.
  - intros p Hp. apply Hzip. by rewrite <- Hperm.
Qed.

(** In the catalog returned, the versions of a simulation are the
    representations of the list whose title holds its identifier, each once,
    every one with empty [sxs_metadata], in the order of their [created]
    times, oldest first; this for [created] times that are strings. *)
Theorem catalog_versions_are_oldest_first
    (representation_list : list json) (catalog : json) (sxs_id : string) :
  catalog_from_representation_list representation_list = Return catalog ->
  (forall r c, r ∈ representation_list -> getitem r "created" = Return c ->
     exists s, c = JStr s) ->
  (exists r, r ∈ representation_list /\ has_identifier sxs_id r = true) ->
  exists (e : json) (rs : list json),
    getitem catalog sxs_id = Return e /\
    getitem e "versions" = Return (JList (version_of <$> rs)) /\
    rs ≡ₚ List.filter (has_identifier sxs_id) representation_list /\
    forall (i k : nat) (r r' : json) (s s' : string),
      rs !! i = Some r -> rs !! k = Some r' -> (i < k)%nat ->
      getitem r "created" = Return (JStr s) -> getitem r' "created" = Return (JStr s') ->
      String.ltb s' s = false.
Proof.
  intros Hc Hstr Hex.
  apply catalog_returned in Hc as (groups & m & items & -> & _ & _ & Hlook & Hkeys & Hin & _).
  apply Hkeys, Hin in Hex as (e & He & Hitem). rewrite Hlook in He.
  unfold Catalog.entry in He.
  destruct (List.filter (has_identifier sxs_id) representation_list) as [|r0 rs0] eqn:Hf;
    [done|].
  apply bind_Return in He as (c & Hcid & He). apply bind_Return in He as (vs & Hvs & He).
  injection He as <-.
  apply versions_returned in Hvs as (s & -> & Hperm & Hasc & Hcreated).
  2:{ intros r c' Hr. apply Hstr.
      assert (r ∈ List.filter (has_identifier sxs_id) representation_list) as Hr'
        by (by rewrite Hf).
      apply list_elem_of_In, filter_In in Hr' as [Hr' _]. by apply list_elem_of_In. }
  eexists _, s.*2. split_and!.
  - simpl. by rewrite Hitem.
  - done.
  - done.
  - intros i k r r' c1 c2 Hi Hk Hlt Hr Hr'.
    rewrite list_lookup_fmap in Hi, Hk.
    destruct (s !! i) as [[ci ri]|] eqn:Hsi; [|done].
    destruct (s !! k) as [[ck rk]|] eqn:Hsk; [|done].
    simpl in Hi, Hk. injection Hi as ->. injection Hk as ->.
    pose proof (Hcreated _ (list_elem_of_lookup_2 _ _ _ Hsi)) as H1.
    pose proof (Hcreated _ (list_elem_of_lookup_2 _ _ _ Hsk)) as H2. simpl in H1, H2.
    assert (ci = c1) as -> by congruence. assert (ck = c2) as -> by congruence.
    apply (Hasc i k); [by rewrite list_lookup_fmap, Hsi | by rewrite list_lookup_fmap, Hsk | done].
Qed.

(** The [conceptrecid] of a simulation in the catalog is that of the first
    representation of the list whose title holds its identifier, whatever
    its [created] time. *)
Theorem catalog_conceptrecid_of_the_first_listed
    (before after : list json) (r0 : json) (catalog : json) (sxs_id : string) :
  catalog_from_representation_list (before ++ r0 :: after) = Return catalog ->
  (forall r, r ∈ before -> has_identifier sxs_id r = false) ->
  has_identifier sxs_id r0 = true ->
  exists e c : json,
    getitem catalog sxs_id = Return e /\
    getitem e "conceptrecid" = Return c /\
    getitem r0 "conceptrecid" = Return c.
Proof.
  intros Hc Hbefore Hr0.
  apply catalog_returned in Hc as (groups & m & items & -> & _ & _ & Hlook & Hkeys & Hin & _).
  destruct (Hin sxs_id) as (e & He & Hitem).
  { apply Hkeys. exists r0. split; [|done]. apply elem_of_app. right. left. }
  rewrite Hlook, List.filter_app in He.
  rewrite (filter_none _ before Hbefore) in He. simpl in He. rewrite Hr0 in He.
  unfold Catalog.entry in He.
  apply bind_Return in He as (c & Hcid & He). apply bind_Return in He as (vs & Hvs & He).
  injection He as <-.
  exists (JDict false [("conceptrecid"%string, c); ("versions"%string, vs)]), c.
  split_and!; [simpl; by rewrite Hitem | done | done].
Qed.

End catalog_versions.

Section catalog_keys.
Import Catalog.
Context (catalog_file_description : string) (sxs_identifier_search : string -> option string).

Abbreviation has_identifier := (has_identifier sxs_identifier_search).
Abbreviation catalog_from_representation_list :=
  (Catalog.catalog_from_representation_list catalog_file_description sxs_identifier_search).

Lemma lookup_group_elem (k : string) (rs : list json) (groups : list (string * list json)) :
  NoDup groups.*1 -> (k, rs) ∈ groups -> lookup_group k groups = rs.
Proof.
  induction groups as [|[k' rs'] groups IH]; intros Hnd Hin; [by apply elem_of_nil in Hin|].
  rewrite fmap_cons in Hnd. apply NoDup_cons in Hnd as [Hnotin Hnd]. simpl.
  apply elem_of_cons in Hin as [[= <- <-]|Hin].
  - by rewrite String.eqb_refl.
  - destruct (String.eqb_spec k k') as [->|Hne]; [|by apply IH].
    exfalso. apply Hnotin. simpl. apply list_elem_of_fmap. by exists (k', rs).
Qed.

Lemma lookup_group_concat (k : string) (r : json) (groups : list (string * list json)) :
  r ∈ lookup_group k groups -> r ∈ concat groups.*2.
Proof.
  induction groups as [|[k' rs'] groups IH]; intros Hr; simpl in *; [done|].
  apply elem_of_app. destruct (String.eqb k k'); [by left | right; by apply IH].
Qed.

Lemma concat_groups_elem (r : json) (groups : list (string * list json)) :
  r ∈ concat groups.*2 -> exists k rs, (k, rs) ∈ groups /\ r ∈ rs.
Proof.
  induction groups as [|[k' rs'] groups IH]; intros Hr; simpl in *;
    [by apply elem_of_nil in Hr|].
  apply elem_of_app in Hr as [Hr|Hr].
  - exists k', rs'. split; [left | done].
  - destruct (IH Hr) as (k & rs & Hin & Hr'). exists k, rs. split; [by right | done].
Qed.

Lemma last_fmap_strings {A} (s0 : list (string * A)) :
  last (prod_map JStr (fun a : A => a) <$> s0) = prod_map JStr (fun a : A => a) <$> last s0.
Proof. by rewrite fmap_last. Qed.

(** The [last_file_modification] of the catalog returned is the latest of
    the [modified] times of the representations whose title holds an
    identifier; this for [modified] times that are strings, and when no title
    holds the identifier [last_file_modification]. *)
Theorem catalog_last_file_modification_is_the_latest
    (representation_list : list json) (catalog : json) :
  catalog_from_representation_list representation_list = Return catalog ->
  (forall r c, r ∈ representation_list -> getitem r "modified" = Return c ->
     exists s, c = JStr s) ->
  (forall r, r ∈ representation_list -> has_identifier "last_file_modification" r = false) ->
  exists (m : string) (r0 : json) (sxs_id0 : string),
    getitem catalog "last_file_modification" = Return (JStr m) /\
    r0 ∈ representation_list /\ has_identifier sxs_id0 r0 = true /\
    getitem r0 "modified" = Return (JStr m) /\
    forall (r : json) (sxs_id s : string),
      r ∈ representation_list -> has_identifier sxs_id r = true ->
      getitem r "modified" = Return (JStr s) -> String.ltb m s = false.
Proof.
  intros Hc Hstr Hreserved.
  apply catalog_returned in Hc
    as (groups & mj & items & -> & Hm & Hnd & Hlook & Hkeys & _ & Hout & _).
  assert (forall r, r ∈ concat groups.*2 <->
            r ∈ representation_list /\ exists k, has_identifier k r = true) as Hall.
  { intros r. split.
    - intros Hr. apply concat_groups_elem in Hr as (k & rs & Hin & Hr).
      rewrite <- (lookup_group_elem k rs groups Hnd Hin), Hlook in Hr.
      apply list_elem_of_In, filter_In in Hr as [Hr Hid]. split; [by apply list_elem_of_In|eauto].
    - intros [Hr [k Hid]]. apply (lookup_group_concat k). rewrite Hlook.
      apply list_elem_of_In, filter_In. split; [by apply list_elem_of_In | done]. }
  assert (lookup_item "last_file_modification" items = Some mj) as Hitem.
  { rewrite Hout; [done|]. intros Hin. apply Hkeys in Hin as (r & Hr & Hid).
    by rewrite Hreserved in Hid. }
  unfold Catalog.last_file_modification in Hm.
  apply bind_Return in Hm as (modified & Hmod & Hm).
  apply bind_Return in Hm as (s & Hs & Hm).
  assert (List.map snd groups = groups.*2) as Hmap by done. rewrite Hmap in Hmod.
  destruct (for_all_strings _ _ _ Hmod) as (ss & -> & Hlen & Hzip).
  { intros r c Hr. apply Hstr. by apply Hall in Hr as [Hr _]. }
  assert (List.map (fun m0 : json => (m0, ())) (JStr <$> ss)
          = prod_map JStr (fun a : unit => a) <$> ((fun s => (s, tt)) <$> ss)) as Hinj.
  { rewrite <- list_fmap_compose. change (List.map ?f ?l) with (f <$> l).
    rewrite <- list_fmap_compose. done. }
  rewrite Hinj in Hs.
  destruct (py_sorted_strings ((fun s => (s, tt)) <$> ss)) as (s0 & Hs0 & Hperm & Hasc).
  rewrite Hs0 in Hs. injection Hs as <-.
  rewrite last_fmap_strings in Hm.
  destruct (last s0) as [[m []]|] eqn:Hlast; [|done]. simpl in Hm. injection Hm as <-.
  assert (s0.*1 ≡ₚ ss) as Hperm1.
  { rewrite Hperm, <- list_fmap_compose. simpl. by rewrite list_fmap_id. }
  assert (forall s, s ∈ ss -> exists r, r ∈ concat groups.*2 /\
            getitem r "modified" = Return (JStr s)) as Hss.
  { intros s Hs. apply list_elem_of_lookup in Hs as [i Hi].
    destruct (lookup_lt_is_Some_2 (concat groups.*2) i) as [r Hr].
    { rewrite <- Hlen. by eapply lookup_lt_Some. }
    exists r. split; [by eapply list_elem_of_lookup_2|].
    apply (Hzip (s, r)). apply list_elem_of_lookup. exists i.
    by rewrite lookup_zip_with, Hi, Hr. }
  assert (forall r s, r ∈ concat groups.*2 -> getitem r "modified" = Return (JStr s) ->
            s ∈ ss) as Hss'.
  { intros r s Hr Hs. apply list_elem_of_lookup in Hr as [i Hi].
    destruct (lookup_lt_is_Some_2 ss i) as [s' Hs'].
    { rewrite Hlen. by eapply lookup_lt_Some. }
    assert (getitem r "modified" = Return (JStr s')) as Hs''.
    { apply (Hzip (s', r)). apply list_elem_of_lookup. exists i.
      by rewrite lookup_zip_with, Hs', Hi. }
    assert (s = s') as -> by congruence. by eapply list_elem_of_lookup_2. }
  assert (last s0.*1 = Some m) as Hlast1 by (by rewrite fmap_last, Hlast).
  assert (m ∈ ss) as Hmin.
  { rewrite <- Hperm1. rewrite last_lookup in Hlast1. by eapply list_elem_of_lookup_2. }
  destruct (Hss m Hmin) as (r0 & Hr0 & Hr0m).
  apply Hall in Hr0 as [Hr0 [k0 Hid0]].
  exists m, r0, k0. split_and!; [simpl; by rewrite Hitem | done..|].
  intros r k s Hr Hid Hs.
  assert (s ∈ s0.*1) as Hs1.
  { rewrite Hperm1. apply (Hss' r); [|done]. apply Hall. eauto. }
  apply list_elem_of_lookup in Hs1 as [i Hi].
  rewrite last_lookup in Hlast1.
  pose proof (lookup_lt_Some _ _ _ Hi) as Hlt.
  destruct (decide (i = Init.Nat.pred (length s0.*1))) as [->|Hne].
  - assert (s = m) as -> by congruence. apply string_ltb_irrefl.
  - apply (Hasc i (Init.Nat.pred (length s0.*1))); [done..|lia].
Qed.

(** The keys of the catalog returned are [catalog_file_description],
    [last_file_modification], and then the identifiers held by the titles of
    the list, each once, in strictly increasing order; this when no title
    holds one of the first two keys as its identifier. *)
Theorem catalog_keys_are_the_identifiers_in_order
    (representation_list : list json) (catalog : json) :
  catalog_from_representation_list representation_list = Return catalog ->
  (forall r, r ∈ representation_list ->
     has_identifier "catalog_file_description" r = false /\
     has_identifier "last_file_modification" r = false) ->
  exists (items : list (string * json)) (sxs_ids : list string),
    catalog = JDict true items /\
    keys items
    = "catalog_file_description"%string :: "last_file_modification"%string :: sxs_ids /\
    (forall k, k ∈ sxs_ids
       <-> exists r, r ∈ representation_list /\ has_identifier k r = true) /\
    forall (i j : nat) (a b : string),
      sxs_ids !! i = Some a -> sxs_ids !! j = Some b -> (i < j)%nat -> String.ltb a b = true.
Proof.
  intros Hc Hreserved.
  apply catalog_returned in Hc
    as (groups & mj & items & -> & _ & Hnd & _ & Hkeys & _ & _ & Hks).
  exists items, (sorted_strings groups.*1). split_and!.
  - done.
  - apply Hks; intros Hin; apply Hkeys in Hin as (r & Hr & Hid);
      destruct (Hreserved r Hr) as [H1 H2]; congruence.
  - intros k. by rewrite sorted_strings_perm.
  - intros i j a b Hi Hj Hlt.
    apply (ascending_NoDup_strict (sorted_strings groups.*1) i j); try done.
    + apply sorted_strings_ascending.
    + by rewrite sorted_strings_perm.
Qed.

End catalog_keys.

(** ** compare_catalogs *)

Section compare_catalogs.
Import Catalog.

Lemma lookup_delete_item (k k' : string) (items : list (string * json)) :
  lookup_item k (delete_item k' items)
  = if String.eqb k k' then None else lookup_item k items.
Proof.
  induction items as [|[k0 v0] items IH]; simpl.
  - by destruct (String.eqb k k').
  - destruct (String.eqb_spec k' k0) as [->|Hne].
    + rewrite IH. by destruct (String.eqb k k0).
    + simpl. destruct (String.eqb_spec k k0) as [->|Hne']; [|exact IH].
      by rewrite (proj2 (String.eqb_neq k0 k')) by done.
Qed.

Lemma delete_set_item (k : string) (v : json) (items : list (string * json)) :
  delete_item k (set_item k v items) = delete_item k items.
Proof.
  induction items as [|[k0 v0] items IH]; simpl.
  - by rewrite String.eqb_refl.
  - destruct (String.eqb k k0) eqn:Hk; simpl; rewrite Hk; [done | by rewrite IH].
Qed.

Lemma delete_set_item_ne (k k' : string) (v : json) (items : list (string * json)) :
  k <> k' -> delete_item k (set_item k' v items) = set_item k' v (delete_item k items).
Proof.
  intros Hne. induction items as [|[k0 v0] items IH]; simpl.
  - by rewrite (proj2 (String.eqb_neq k k')) by done.
  - destruct (String.eqb_spec k' k0) as [->|Hne0]; simpl.
    + rewrite (proj2 (String.eqb_neq k k0)) by done. simpl. by rewrite String.eqb_refl.
    + destruct (String.eqb_spec k k0) as [->|Hne1]; [done|]. simpl.
      rewrite (proj2 (String.eqb_neq k' k0)) by done. by rewrite IH.
Qed.

Lemma remove_allowed_differences_Return (c c' : json) :
  remove_allowed_differences c = Return c' ->
  exists (o : bool) (items : list (string * json)),
    c = JDict o items /\
    "catalog_file_description"%string ∈ keys items /\
    "last_file_modification"%string ∈ keys items.
Proof.
  intros Hr. unfold remove_allowed_differences in Hr.
  apply bind_Return in Hr as (c1 & H1 & Hr). apply bind_Return in Hr as (c2 & H2 & _).
  destruct c as [| | | | | |o items]; try discriminate H1. simpl in H1.
  destruct (lookup_item "catalog_file_description" items) as [d|] eqn:Hd; [|discriminate H1].
  injection H1 as <-. simpl in H2. rewrite lookup_delete_item in H2. simpl in H2.
  destruct (lookup_item "last_file_modification" items) as [m|] eqn:Hm; [|discriminate H2].
  exists o, items. split_and!; [done|apply lookup_item_Some; eauto..].
Qed.

Lemma remove_allowed_differences_set_item (o : bool) (items : list (string * json))
    (key : string) (v v' : json) :
  key = "catalog_file_description"%string \/ key = "last_file_modification"%string ->
  remove_allowed_differences (JDict o (set_item key v items))
  = remove_allowed_differences (JDict o (set_item key v' items)).
Proof.
  intros [-> | ->]; unfold remove_allowed_differences; simpl.
  - rewrite !lookup_set_item, !String.eqb_refl, !delete_set_item. done.
  - rewrite !lookup_set_item. simpl.
    destruct (lookup_item "catalog_file_description" items) as [d|]; [|done].
    rewrite !delete_set_item_ne by done. cbv [mbind outcome_bind]. simpl.
    rewrite !lookup_set_item, !String.eqb_refl, !delete_set_item. done.
Qed.

(** compare_catalogs returns only for two dicts that each have the keys
    [catalog_file_description] and [last_file_modification]; on any other
    pair of values it raises an exception instead of returning [False]. *)
Theorem compare_catalogs_returns_only_with_both_keys (c1 c2 : json) (b : bool) :
  compare_catalogs c1 c2 = Return b ->
  forall c, c = c1 \/ c = c2 ->
    exists (o : bool) (items : list (string * json)),
      c = JDict o items /\
      "catalog_file_description"%string ∈ keys items /\
      "last_file_modification"%string ∈ keys items.
Proof.
  intros Hc c Hor. unfold compare_catalogs in Hc.
  apply bind_Return in Hc as (c1' & H1 & Hc). apply bind_Return in Hc as (c2' & H2 & _).
  destruct Hor as [-> | ->]; eauto using remove_allowed_differences_Return.
Qed.

(** The values under [catalog_file_description] and
    [last_file_modification] have no effect on compare_catalogs: two catalogs
    that differ only in the value set under one of these keys give the same
    result, or the same exception, against any other value, as the first and
    as the second argument. *)
Theorem compare_catalogs_ignores_description_and_modification
    (o : bool) (items : list (string * json)) (key : string) (v v' c : json) :
  key = "catalog_file_description"%string \/ key = "last_file_modification"%string ->
  compare_catalogs (JDict o (set_item key v items)) c
  = compare_catalogs (JDict o (set_item key v' items)) c /\
  compare_catalogs c (JDict o (set_item key v items))
  = compare_catalogs c (JDict o (set_item key v' items)).
Proof.
  intros Hkey. unfold compare_catalogs.
  by rewrite (remove_allowed_differences_set_item o items key v v' Hkey).
Qed.

End compare_catalogs.

(** ** Equality of JSON values *)

Section py_eq.
Import Catalog.

Lemma json_induction (P : json -> Prop) :
  P JNull -> (forall b, P (JBool b)) -> (forall z, P (JInt z)) -> (forall x, P (JFloat x)) ->
  (forall s, P (JStr s)) ->
  (forall l, Forall P l -> P (JList l)) ->
  (forall o items, Forall P items.*2 -> P (JDict o items)) ->
  forall v, P v.
Proof.
  intros HNull HBool HInt HFloat HStr HList HDict. fix IH 1.
  intros [|b|z|x|s|l|o items]; [done..| |].
  - apply HList. induction l as [|v l IHl]; constructor; [apply IH | exact IHl].
  - apply HDict. induction items as [|[k v] items IHi]; constructor; [apply IH | exact IHi].
Qed.

Lemma unique_keys_JList (l : list json) : unique_keys (JList l) <-> Forall unique_keys l.
Proof.
  induction l as [|v l IH]; simpl.
  - split; [constructor | done].
  - rewrite Forall_cons. simpl in IH. by rewrite IH.
Qed.

Lemma unique_keys_JDict (o : bool) (items : list (string * json)) :
  unique_keys (JDict o items) <-> NoDup (keys items) /\ Forall unique_keys items.*2.
Proof.
  simpl. apply and_iff_compat_l. induction items as [|[k v] items IH]; simpl.
  - split; [constructor | done].
  - rewrite Forall_cons. by rewrite IH.
Qed.

Lemma py_eq_JList (l l' : list json) :
  py_eq (JList l) (JList l')
  = match l, l' with
    | [], [] => true
    | x :: l, y :: l' => py_eq x y && py_eq (JList l) (JList l')
    | _, _ => false
    end.
Proof. by destruct l, l'. Qed.

Lemma py_eq_JDict (o o' : bool) (d d' : list (string * json)) :
  py_eq (JDict o d) (JDict o' d')
  = (length d =? length d')%nat
    && forallb (fun kv => match lookup_item kv.1 d' with
                          | Some v' => py_eq kv.2 v'
                          | None => false
                          end) d
    && (if o && o' then bool_decide (keys d = keys d') else true).
Proof.
  cbn [py_eq]. f_equal. f_equal. induction d as [|[k v] d IH]; [done|].
  cbn [forallb fst snd]. by rewrite <- IH.
Qed.

Lemma lookup_item_elem (k : string) (v : json) (items : list (string * json)) :
  NoDup (keys items) -> (k, v) ∈ items -> lookup_item k items = Some v.
Proof.
  unfold keys. induction items as [|[k0 v0] items IH]; intros Hnd Hin;
    [by apply elem_of_nil in Hin|].
  cbn [List.map fst] in Hnd. apply NoDup_cons in Hnd as [Hnotin Hnd]. simpl.
  apply elem_of_cons in Hin as [[= <- <-]|Hin].
  - by rewrite String.eqb_refl.
  - destruct (String.eqb_spec k k0) as [->|Hne]; [|by apply IH].
    exfalso. apply Hnotin. apply list_elem_of_fmap. by exists (k0, v).
Qed.

Lemma lookup_item_Some_elem (k : string) (v : json) (items : list (string * json)) :
  lookup_item k items = Some v -> (k, v) ∈ items.
Proof.
  induction items as [|[k0 v0] items IH]; simpl; [done|].
  destruct (String.eqb_spec k k0) as [->|Hne].
  - intros [= ->]. left.
  - intros Hl. right. by apply IH.
Qed.

Lemma py_eq_refl (v : json) : unique_keys v -> py_eq v v = true.
Proof.
  induction v as [|b|z|x|s|l IH|o items IH] using json_induction; intros Hu.
  - done.
  - simpl. by destruct (Req_dec_T _ _).
  - simpl. by destruct (Req_dec_T _ _).
  - simpl. by destruct (Req_dec_T _ _).
  - apply String.eqb_refl.
  - apply unique_keys_JList in Hu. induction l as [|v l IHl]; [done|].
    rewrite py_eq_JList. apply Forall_cons in IH as [IHv IH], Hu as [Hv Hu].
    rewrite IHv by done. by apply IHl.
  - apply unique_keys_JDict in Hu as [Hnd Hu]. rewrite py_eq_JDict.
    rewrite Nat.eqb_refl, bool_decide_eq_true_2 by done.
    rewrite (proj2 (forallb_forall _ _)); [by destruct (o && o)|].
    intros [k v] Hin%list_elem_of_In. simpl.
    rewrite (lookup_item_elem k v items Hnd Hin).
    assert (v ∈ items.*2) as Hv by (apply list_elem_of_fmap; by exists (k, v)).
    rewrite Forall_forall in IH, Hu. by apply IH; [|apply Hu].
Qed.

Lemma forallb_items_sym (d d' : list (string * json)) :
  NoDup (keys d) -> NoDup (keys d') -> length d = length d' ->
  (forall k v v', (k, v) ∈ d -> (k, v') ∈ d' -> py_eq v v' = py_eq v' v) ->
  forallb (fun kv => match lookup_item kv.1 d' with
                     | Some v' => py_eq kv.2 v'
                     | None => false
                     end) d = true ->
  forallb (fun kv => match lookup_item kv.1 d with
                     | Some v' => py_eq kv.2 v'
                     | None => false
                     end) d' = true.
Proof.
  intros Hnd Hnd' Hlen Hsym Hall. rewrite forallb_forall in Hall. apply forallb_forall.
  assert (incl (keys d') (keys d)) as Hincl.
  { apply NoDup_length_incl.
    - by apply NoDup_ListNoDup.
    - unfold keys. rewrite !length_map. lia.
    - intros k Hk. apply list_elem_of_In, list_elem_of_fmap in Hk as ([k0 v] & -> & Hin).
      specialize (Hall (k0, v) (proj1 (list_elem_of_In _ _) Hin)). simpl in Hall.
      apply list_elem_of_In. apply lookup_item_Some. simpl.
      destruct (lookup_item k0 d'); [eauto | done]. }
  intros [k v'] Hin%list_elem_of_In. simpl.
  assert (k ∈ keys d) as Hk.
  { apply list_elem_of_In, Hincl, list_elem_of_In, list_elem_of_fmap. by exists (k, v'). }
  apply lookup_item_Some in Hk as [v Hv]. rewrite Hv.
  apply lookup_item_Some_elem in Hv as Hin0.
  specialize (Hall (k, v) (proj1 (list_elem_of_In _ _) Hin0)). simpl in Hall.
  rewrite (lookup_item_elem k v' d' Hnd' Hin) in Hall.
  by rewrite <- (Hsym k v v').
Qed.

Lemma py_eq_sym (a b : json) : unique_keys a -> unique_keys b -> py_eq a b = py_eq b a.
Proof.
  revert b.
  induction a as [|x|x|x|s|l IH|o d IH] using json_induction; intros b Ha Hb.
  - by destruct b.
  - destruct b as [|y|y|y| | |]; try done; simpl; repeat destruct (Req_dec_T _ _); congruence.
  - destruct b as [|y|y|y| | |]; try done; simpl; repeat destruct (Req_dec_T _ _); congruence.
  - destruct b as [|y|y|y| | |]; try done; simpl; repeat destruct (Req_dec_T _ _); congruence.
  - destruct b; try done. simpl. apply String.eqb_sym.
  - destruct b as [| | | | |l'|]; try done.
    apply unique_keys_JList in Ha, Hb. revert l' Hb.
    induction l as [|v l IHl]; intros [|v' l'] Hb; try done.
    rewrite !(py_eq_JList (_ :: _)).
    apply Forall_cons in IH as [IHv IH], Ha as [Hv Ha], Hb as [Hv' Hb].
    rewrite IHv by done. f_equal. by apply IHl.
  - destruct b as [| | | | | |o' d']; try done.
    apply unique_keys_JDict in Ha as [Hnd Ha], Hb as [Hnd' Hb].
    rewrite !py_eq_JDict. rewrite (Nat.eqb_sym (length d')), (andb_comm o').
    rewrite (bool_decide_ext (keys d' = keys d) (keys d = keys d')) by done.
    destruct (Nat.eqb_spec (length d) (length d')) as [Hlen|]; [|done]. simpl.
    f_equal.
    assert (forall k v v', (k, v) ∈ d -> (k, v') ∈ d' -> py_eq v v' = py_eq v' v) as Hsym.
    { intros k v v' Hin Hin'. rewrite Forall_forall in IH, Ha, Hb.
      assert (v ∈ d.*2) as Hv by (apply list_elem_of_fmap; by exists (k, v)).
      assert (v' ∈ d'.*2) as Hv' by (apply list_elem_of_fmap; by exists (k, v')).
      apply IH; auto. }
    apply eq_true_iff_eq. split; apply forallb_items_sym; try done.
    intros k v v' Hin Hin'. symmetry. by apply (Hsym k).
Qed.

End py_eq.

(** ** compare_catalogs keeps the keys of every dict unique *)

Section compare_catalogs_unique_keys.
Import Catalog.

Lemma keys_delete_item (k k' : string) (items : list (string * json)) :
  k' ∈ keys (delete_item k items) -> k' ∈ keys items.
Proof.
  intros Hin. apply lookup_item_Some. apply lookup_item_Some in Hin.
  rewrite lookup_delete_item in Hin. destruct (String.eqb k' k); [by destruct Hin | done].
Qed.

Lemma delete_item_unique (P : json -> Prop) (k : string) (items : list (string * json)) :
  NoDup (keys items) -> Forall P items.*2 ->
  NoDup (keys (delete_item k items)) /\ Forall P (delete_item k items).*2.
Proof.
  induction items as [|[k0 v0] items IH]; intros Hnd HP; [done|].
  change (keys ((k0, v0) :: items)) with (k0 :: keys items) in Hnd.
  apply NoDup_cons in Hnd as [Hnotin Hnd]. apply Forall_cons in HP as [Hv HP].
  destruct (IH Hnd HP) as [IH1 IH2]. simpl. destruct (String.eqb k k0); [done|].
  split.
  - change (keys ((k0, v0) :: ?l)) with (k0 :: keys l). apply NoDup_cons.
    split; [|done]. intros Hin. by apply keys_delete_item in Hin.
  - by apply Forall_cons.
Qed.

Lemma set_item_unique (P : json -> Prop) (k : string) (v : json)
    (items : list (string * json)) :
  NoDup (keys items) -> Forall P items.*2 -> P v ->
  NoDup (keys (set_item k v items)) /\ Forall P (set_item k v items).*2.
Proof.
  intros Hnd HP Hv. split.
  - rewrite keys_set_item. case_bool_decide as Hin; [done|].
    apply NoDup_app. split_and!; [done| |apply NoDup_singleton].
    intros x Hx Hx'. by apply list_elem_of_singleton in Hx' as ->.
  - clear Hnd. induction items as [|[k0 v0] items IH]; simpl.
    + by apply Forall_cons.
    + apply Forall_cons in HP as [Hv0 HP].
      destruct (String.eqb k k0); apply Forall_cons; auto.
Qed.

Lemma unique_keys_getitem (v x : json) (k : string) :
  unique_keys v -> getitem v k = Return x -> unique_keys x.
Proof.
  intros Hu Hg. destruct v as [| | | | | |o items]; try discriminate Hg. simpl in Hg.
  destruct (lookup_item k items) as [y|] eqn:Hl; [|discriminate Hg]. injection Hg as ->.
  apply unique_keys_JDict in Hu as [_ Hu]. rewrite Forall_forall in Hu. apply Hu.
  apply list_elem_of_fmap. exists (k, x). split; [done|]. by apply lookup_item_Some_elem.
Qed.

Lemma unique_keys_delitem (v v' : json) (k : string) :
  unique_keys v -> delitem v k = Return v' -> unique_keys v'.
Proof.
  intros Hu Hd. destruct v as [| | | | | |o items]; try discriminate Hd. simpl in Hd.
  destruct (lookup_item k items); [|discriminate Hd]. injection Hd as <-.
  apply unique_keys_JDict in Hu as [Hnd Hu]. apply unique_keys_JDict.
  by apply delete_item_unique.
Qed.

Lemma unique_keys_setitem (v x v' : json) (k : string) :
  unique_keys v -> unique_keys x -> setitem v k x = Return v' -> unique_keys v'.
Proof.
  intros Hu Hx Hs. destruct v as [| | | | | |o items]; try discriminate Hs.
  injection Hs as <-. apply unique_keys_JDict in Hu as [Hnd Hu]. apply unique_keys_JDict.
  by apply set_item_unique.
Qed.

Lemma unique_keys_items_by_index (v : json) (l : list json) :
  unique_keys v -> items_by_index v = Return l -> Forall unique_keys l.
Proof.
  intros Hu Hi. destruct v as [| | | |s|l'|o [|? ?]]; try discriminate Hi; injection Hi as <-.
  - clear Hu. induction s; simpl; constructor; done.
  - by apply unique_keys_JList.
  - constructor.
Qed.

Lemma for_all_Forall {A B} (P : A -> Prop) (Q : B -> Prop) (f : A -> outcome B)
    (l : list A) (l' : list B) :
  (forall a b, P a -> f a = Return b -> Q b) ->
  Forall P l -> for_all f l = Return l' -> Forall Q l'.
Proof.
  intros Hf HP Hr. apply for_all_Return in Hr.
  induction Hr as [|a b l l' Hab _ IH]; [constructor|].
  apply Forall_cons in HP as [Ha HP]. constructor; eauto.
Qed.

Lemma unique_keys_remove_self_link (f f' : json) :
  unique_keys f -> remove_self_link f = Return f' -> unique_keys f'.
Proof.
  intros Hu Hr. unfold remove_self_link in Hr.
  apply bind_Return in Hr as (links & Hl & Hr). apply bind_Return in Hr as (links' & Hl' & Hr).
  eapply (unique_keys_setitem f links'); [done| |done].
  eapply unique_keys_delitem; [|done]. by eapply unique_keys_getitem.
Qed.

Lemma unique_keys_remove_self_links_of_version (v v' : json) :
  unique_keys v -> remove_self_links_of_version v = Return v' -> unique_keys v'.
Proof.
  intros Hu Hr. unfold remove_self_links_of_version in Hr.
  apply bind_Return in Hr as (representation & Hrep & Hr).
  apply bind_Return in Hr as (files & Hfiles & Hr).
  apply bind_Return in Hr as (fs & Hfs & Hr).
  apply bind_Return in Hr as (fs' & Hfs' & Hr).
  assert (unique_keys representation) as Hurep by (by eapply unique_keys_getitem).
  assert (unique_keys files) as Hufiles by (by eapply unique_keys_getitem).
  assert (Forall unique_keys fs') as Hufs'.
  { eapply (for_all_Forall unique_keys unique_keys); [|by eapply unique_keys_items_by_index|done].
    intros a b. apply unique_keys_remove_self_link. }
  destruct files; try (by injection Hr as <-).
  apply bind_Return in Hr as (representation' & Hrep' & Hr).
  eapply (unique_keys_setitem v representation'); [done| |done].
  eapply (unique_keys_setitem representation (JList fs')); [done| |done].
  by apply unique_keys_JList.
Qed.

Lemma unique_keys_remove_self_links_of_entry (e e' : json) :
  unique_keys e -> remove_self_links_of_entry e = Return e' -> unique_keys e'.
Proof.
  intros Hu Hr. unfold remove_self_links_of_entry in Hr.
  apply bind_Return in Hr as (has_versions & Hhas & Hr).
  destruct has_versions; [|by injection Hr as <-].
  apply bind_Return in Hr as (versions & Hversions & Hr).
  apply bind_Return in Hr as (vs & Hvs & Hr).
  apply bind_Return in Hr as (vs' & Hvs' & Hr).
  assert (unique_keys versions) as Huv by (by eapply unique_keys_getitem).
  assert (Forall unique_keys vs') as Huvs'.
  { eapply (for_all_Forall unique_keys unique_keys); [|by eapply unique_keys_items_by_index|done].
    intros a b. apply unique_keys_remove_self_links_of_version. }
  destruct versions; try (by injection Hr as <-).
  eapply (unique_keys_setitem e (JList vs')); [done| |done].
  by apply unique_keys_JList.
Qed.

Lemma unique_keys_remove_allowed_differences (c c' : json) :
  unique_keys c -> remove_allowed_differences c = Return c' -> unique_keys c'.
Proof.
  intros Hu Hr. unfold remove_allowed_differences in Hr.
  apply bind_Return in Hr as (c1 & H1 & Hr). apply bind_Return in Hr as (c2 & H2 & Hr).
  assert (unique_keys c2) as Hu2.
  { eapply unique_keys_delitem; [|done]. by eapply unique_keys_delitem. }
  destruct c2 as [| | | | | |o items]; try discriminate Hr.
  apply bind_Return in Hr as (items' & Hitems & Hr). injection Hr as <-.
  apply unique_keys_JDict in Hu2 as [Hnd Hu2]. apply unique_keys_JDict.
  apply for_all_Return in Hitems. clear H1 H2.
  assert (keys items' = keys items /\ Forall unique_keys items'.*2) as [-> ?]; [|done].
  clear Hnd. induction Hitems as [|[k v] [k' v'] items items' Hkv _ IH].
  - done.
  - apply Forall_cons in Hu2 as [Hv Hu2]. destruct (IH Hu2) as [IH1 IH2].
    apply bind_Return in Hkv as (e & He & Hkv). simpl in He, Hkv. injection Hkv as <- <-.
    split.
    + unfold keys in *. simpl. by rewrite IH1.
    + apply Forall_cons. split; [|done]. by eapply unique_keys_remove_self_links_of_entry.
Qed.

(** A catalog compares equal to itself: when compare_catalogs returns for a
    catalog and itself, it returns [True]; this for a value in which every
    dict has each key once. *)
Theorem compare_catalogs_of_a_catalog_with_itself (c : json) (b : bool) :
  unique_keys c -> compare_catalogs c c = Return b -> b = true.
Proof.
  intros Hu Hc. unfold compare_catalogs in Hc.
  apply bind_Return in Hc as (c1 & H1 & Hc). apply bind_Return in Hc as (c2 & H2 & Hc).
  injection Hc as <-. assert (c2 = c1) as -> by congruence.
  apply py_eq_refl. exact (unique_keys_remove_allowed_differences c c1 Hu H1).
Qed.

(** The order of the two catalogs does not matter to the result: when
    compare_catalogs returns for a pair, it returns the same for the pair
    exchanged; this for values in which every dict has each key once. *)
Theorem compare_catalogs_is_symmetric (c1 c2 : json) (b : bool) :
  unique_keys c1 -> unique_keys c2 ->
  compare_catalogs c1 c2 = Return b -> compare_catalogs c2 c1 = Return b.
Proof.
  intros Hu1 Hu2 Hc. unfold compare_catalogs in *.
  apply bind_Return in Hc as (c1' & H1 & Hc). apply bind_Return in Hc as (c2' & H2 & Hc).
  injection Hc as <-. rewrite H2, H1. cbv [mbind outcome_bind mret outcome_ret]. f_equal.
  apply py_eq_sym.
  - exact (unique_keys_remove_allowed_differences c2 c2' Hu2 H2).
  - exact (unique_keys_remove_allowed_differences c1 c1' Hu1 H1).
Qed.

End compare_catalogs_unique_keys.

(** ** map *)

Section map.
Import Catalog.
Context (py_str : json -> string).

Lemma size_bounds (catalog : list (string * json)) :
  (256 * (Z.of_nat (length catalog) + 1) <= size catalog
   < 512 * (Z.of_nat (length catalog) + 1))%Z.
Proof.
  unfold size. set (a := (Z.of_nat (length catalog) + 1)%Z).
  assert (1 <= a)%Z as Ha by lia. clearbody a.
  destruct (Z.eq_dec a 1%Z) as [->|Hne]; [change (Z.log2_up 1) with 0%Z; lia|].
  pose proof (Z.log2_up_spec a ltac:(lia)) as [Hlo Hhi].
  assert (0 < Z.log2_up a)%Z as Hpos by (apply Z.log2_up_pos; lia).
  assert (2 ^ Z.log2_up a = 2 * 2 ^ Z.pred (Z.log2_up a))%Z as Hpow.
  { rewrite <- Z.pow_succ_r by lia. f_equal. lia. }
  lia.
Qed.

Lemma all_start_with_total (prefix : string) (fs : list json) :
  (forall f, f ∈ fs -> exists s, getitem f "filename" = Return (JStr s)) ->
  exists b, all_start_with prefix fs = Return b.
Proof.
  induction fs as [|f fs IH]; intros Hfs; simpl; [eauto|].
  destruct (Hfs f) as [s ->]; [left|]. cbv [mbind outcome_bind].
  destruct (String.prefix prefix s); [|eauto]. apply IH. intros f' Hf'. apply Hfs. by right.
Qed.

Lemma write_each_total (line : string -> outcome string) (ks : list string) :
  (forall k, k ∈ ks -> exists l, line k = Return l) ->
  exists ls, write_each line ks = (ls, None) /\ length ls = length ks.
Proof.
  induction ks as [|k ks IH]; intros Hks; simpl; [by exists []|].
  destruct (Hks k) as [l ->]; [left|].
  destruct IH as (ls & -> & Hlen); [intros k' Hk'; apply Hks; by right|].
  exists (l :: ls). simpl. by rewrite Hlen.
Qed.

Lemma write_each_None (line : string -> outcome string) (ks : list string) :
  (write_each line ks).2 = None -> forall k, k ∈ ks -> exists l, line k = Return l.
Proof.
  induction ks as [|k ks IH]; intros Hw k' Hk'; [by apply elem_of_nil in Hk'|].
  simpl in Hw. destruct (line k) as [l|e] eqn:Hl; [|done].
  destruct (write_each line ks) as [ls o]. simpl in *.
  apply elem_of_cons in Hk' as [->|Hk']; [eauto | by apply IH].
Qed.

(** On a catalog whose values are records with an [id] and a list of [files]
    with their [filename] strings, map raises nothing and writes four lines
    and two more for every key, the first with a size that is at least 256
    times, and less than 512 times, the number of keys plus one, and the last
    the closing brace. *)
Theorem map_writes_two_lines_for_every_record (catalog : list (string * json)) :
  (forall k e, lookup_item k catalog = Some e ->
     exists (id : json) (fs : list json),
       getitem e "id" = Return id /\ getitem e "files" = Return (JList fs) /\
       forall f, f ∈ fs -> exists s, getitem f "filename" = Return (JStr s)) ->
  exists (n : Z) (lines : list string),
    map py_str catalog
    = (("map_hash_max_size " +:+ py_str (JInt n) +:+ ";" +:+ newline)%string :: lines, None) /\
    (256 * (Z.of_nat (length catalog) + 1) <= n < 512 * (Z.of_nat (length catalog) + 1))%Z /\
    length lines = (2 * length catalog + 3)%nat /\
    last lines = Some ("}" +:+ newline)%string.
Proof.
  intros Hrec.
  assert (forall k, k ∈ sorted_strings (keys catalog) ->
            exists e id fs, lookup_item k catalog = Some e /\
              getitem e "id" = Return id /\ getitem e "files" = Return (JList fs) /\
              forall f, f ∈ fs -> exists s, getitem f "filename" = Return (JStr s)) as Hks.
  { intros k Hk. rewrite sorted_strings_perm in Hk. apply lookup_item_Some in Hk as [e He].
    destruct (Hrec k e He) as (id & fs & ?). exists e, id, fs. done. }
  destruct (write_each_total (record_line py_str catalog) (sorted_strings (keys catalog)))
    as (records & Hrecords & Hlen1).
  { intros k Hk. destruct (Hks k Hk) as (e & id & fs & He & Hid & _).
    unfold record_line, catalog_entry. rewrite He. cbv [mbind outcome_bind]. rewrite Hid. eauto. }
  destruct (write_each_total (file_line py_str catalog) (sorted_strings (keys catalog)))
    as (files & Hfiles & Hlen2).
  { intros k Hk. destruct (Hks k Hk) as (e & id & fs & He & Hid & Hfs & Hnames).
    destruct (all_start_with_total (k +:+ "/") fs Hnames) as [b Hb].
    unfold file_line, file_prefix, catalog_entry. rewrite He. cbv [mbind outcome_bind].
    rewrite Hid, Hfs. simpl. rewrite Hb. eauto. }
  exists (size catalog). eexists. unfold map. rewrite Hrecords, Hfiles.
  split; [reflexivity|]. split; [apply size_bounds|]. split.
  - cbn [length]. rewrite !length_app, Hlen1, Hlen2. cbn [length].
    rewrite (Permutation_length (sorted_strings_perm _)). unfold keys.
    rewrite length_map. lia.
  - cbn [app]. rewrite !app_comm_cons, !app_assoc. by rewrite last_snoc.
Qed.

(** map writes the closing brace, raising nothing, only if every value of the
    catalog is a dict with the keys [id] and [files]. *)
Theorem map_completes_only_on_records (catalog : list (string * json)) :
  (map py_str catalog).2 = None ->
  forall k e, lookup_item k catalog = Some e ->
    exists id files : json, getitem e "id" = Return id /\ getitem e "files" = Return files.
Proof.
  intros Hmap k e He. unfold map in Hmap.
  destruct (write_each (record_line py_str catalog) (sorted_strings (keys catalog)))
    as [records [e1|]]; [done|].
  destruct (write_each (file_line py_str catalog) (sorted_strings (keys catalog)))
    as [files [e2|]] eqn:Hfiles; [done|].
  destruct (write_each_None (file_line py_str catalog) (sorted_strings (keys catalog))
              ltac:(by rewrite Hfiles) k) as [l Hl].
  { rewrite sorted_strings_perm. apply lookup_item_Some. eauto. }
  unfold file_line, file_prefix, catalog_entry in Hl. rewrite He in Hl.
  cbv [mbind outcome_bind] in Hl.
  destruct (getitem e "id") as [id|]; [|done].
  destruct (getitem e "files") as [fs|]; [|done]. eauto.
Qed.

End map.

(** ** The example *)

Lemma example_catalog_returned :
  Catalog.catalog_from_representation_list "description" example_sxs_identifier_search
    example_representations = Catalog.Return example_catalog.
Proof. vm_compute. reflexivity. Qed.

Lemma example_strings (key : string) (r c : Catalog.json) :
  r ∈ example_representations -> Catalog.getitem r key = Catalog.Return c ->
  key = "created"%string \/ key = "modified"%string -> exists s, c = Catalog.JStr s.
Proof.
  intros Hr Hc Hkey. unfold example_representations in Hr.
  repeat (apply elem_of_cons in Hr as [->|Hr]); [..|by apply elem_of_nil in Hr];
    destruct Hkey as [-> | ->]; injection Hc as <-; eauto.
Qed.

Lemma example_reserved (key : string) (r : Catalog.json) :
  r ∈ example_representations ->
  key = "catalog_file_description"%string \/ key = "last_file_modification"%string ->
  has_identifier example_sxs_identifier_search key r = false.
Proof.
  intros Hr Hkey. unfold example_representations in Hr.
  repeat (apply elem_of_cons in Hr as [->|Hr]); [..|by apply elem_of_nil in Hr];
    destruct Hkey as [-> | ->]; reflexivity.
Qed.

Lemma example_unique_keys : unique_keys example_catalog.
Proof.
  vm_compute. repeat split; apply NoDup_ListNoDup; repeat constructor; simpl;
    intuition discriminate.
Qed.

Lemma catalog_of_no_simulation_raises_IndexError_witness :
  Catalog.catalog_from_representation_list "description" example_sxs_identifier_search
    [example_representation "Notes" "2016-01-01" "2021-01-01" "300"]
  = Catalog.Raise Catalog.IndexError.
Proof.
  apply catalog_of_no_simulation_raises_IndexError.
  intros r Hr. apply list_elem_of_singleton in Hr as ->.
  exists "Notes"%string. split; reflexivity.
Defined.

Lemma catalog_versions_are_oldest_first_witness :
  exists (e : Catalog.json) (rs : list Catalog.json),
    Catalog.getitem example_catalog "SXS:BBH:0002" = Catalog.Return e /\
    Catalog.getitem e "versions" = Catalog.Return (Catalog.JList (version_of <$> rs)) /\
    rs ≡ₚ List.filter (has_identifier example_sxs_identifier_search "SXS:BBH:0002")
            example_representations /\
    forall (i k : nat) (r r' : Catalog.json) (s s' : string),
      rs !! i = Some r -> rs !! k = Some r' -> (i < k)%nat ->
      Catalog.getitem r "created" = Catalog.Return (Catalog.JStr s) ->
      Catalog.getitem r' "created" = Catalog.Return (Catalog.JStr s') ->
      String.ltb s' s = false.
Proof.
  apply (catalog_versions_are_oldest_first "description" example_sxs_identifier_search
           example_representations example_catalog "SXS:BBH:0002").
  - exact example_catalog_returned.
  - intros r c Hr Hc. apply (example_strings "created" r c Hr Hc). by left.
  - exists (example_representation "SXS:BBH:0002 version 2" "2019-03-01" "2020-01-01" "200").
    split; [left | reflexivity].
Defined.

Lemma catalog_conceptrecid_of_the_first_listed_witness :
  exists e c : Catalog.json,
    Catalog.getitem example_catalog "SXS:BBH:0001" = Catalog.Return e /\
    Catalog.getitem e "conceptrecid" = Catalog.Return c /\
    Catalog.getitem (example_representation "SXS:BBH:0001" "2018-05-01" "2018-06-01" "100")
      "conceptrecid" = Catalog.Return c.
Proof.
  apply (catalog_conceptrecid_of_the_first_listed "description" example_sxs_identifier_search
           [example_representation "SXS:BBH:0002 version 2" "2019-03-01" "2020-01-01" "200"]
           [example_representation "SXS:BBH:0002 version 1" "2017-11-01" "2017-12-01" "200";
            example_representation "Notes" "2016-01-01" "2021-01-01" "300"]).
  - exact example_catalog_returned.
  - intros r Hr. apply list_elem_of_singleton in Hr as ->. reflexivity.
  - reflexivity.
Defined.

Lemma catalog_last_file_modification_is_the_latest_witness :
  exists (m : string) (r0 : Catalog.json) (sxs_id0 : string),
    Catalog.getitem example_catalog "last_file_modification"
    = Catalog.Return (Catalog.JStr m) /\
    r0 ∈ example_representations /\
    has_identifier example_sxs_identifier_search sxs_id0 r0 = true /\
    Catalog.getitem r0 "modified" = Catalog.Return (Catalog.JStr m) /\
    forall (r : Catalog.json) (sxs_id s : string),
      r ∈ example_representations ->
      has_identifier example_sxs_identifier_search sxs_id r = true ->
      Catalog.getitem r "modified" = Catalog.Return (Catalog.JStr s) -> String.ltb m s = false.
Proof.
  apply (catalog_last_file_modification_is_the_latest "description"
           example_sxs_identifier_search example_representations example_catalog).
  - exact example_catalog_returned.
  - intros r c Hr Hc. apply (example_strings "modified" r c Hr Hc). by right.
  - intros r Hr. apply example_reserved; [done | by right].
Defined.

Lemma catalog_keys_are_the_identifiers_in_order_witness :
  exists (items : list (string * Catalog.json)) (sxs_ids : list string),
    example_catalog = Catalog.JDict true items /\
    Catalog.keys items
    = "catalog_file_description"%string :: "last_file_modification"%string :: sxs_ids /\
    (forall k, k ∈ sxs_ids
       <-> exists r, r ∈ example_representations /\
             has_identifier example_sxs_identifier_search k r = true) /\
    forall (i j : nat) (a b : string),
      sxs_ids !! i = Some a -> sxs_ids !! j = Some b -> (i < j)%nat -> String.ltb a b = true.
Proof.
  apply (catalog_keys_are_the_identifiers_in_order "description"
           example_sxs_identifier_search example_representations example_catalog).
  - exact example_catalog_returned.
  - intros r Hr. split; apply example_reserved; auto.
Defined.

Lemma compare_catalogs_returns_only_with_both_keys_witness :
  exists (o : bool) (items : list (string * Catalog.json)),
    example_catalog = Catalog.JDict o items /\
    "catalog_file_description"%string ∈ Catalog.keys items /\
    "last_file_modification"%string ∈ Catalog.keys items.
Proof.
  apply (compare_catalogs_returns_only_with_both_keys example_catalog example_catalog true).
  - vm_compute. reflexivity.
  - by left.
Defined.

Lemma compare_catalogs_ignores_description_and_modification_witness :
  Catalog.compare_catalogs
    (Catalog.JDict true
       (Catalog.set_item "last_file_modification" (Catalog.JStr "2020-01-01")
          [("catalog_file_description"%string, Catalog.JStr "description")]))
    example_catalog
  = Catalog.compare_catalogs
      (Catalog.JDict true
         (Catalog.set_item "last_file_modification" (Catalog.JStr "2022-02-02")
            [("catalog_file_description"%string, Catalog.JStr "description")]))
      example_catalog /\
  Catalog.compare_catalogs example_catalog
    (Catalog.JDict true
       (Catalog.set_item "last_file_modification" (Catalog.JStr "2020-01-01")
          [("catalog_file_description"%string, Catalog.JStr "description")]))
  = Catalog.compare_catalogs example_catalog
      (Catalog.JDict true
         (Catalog.set_item "last_file_modification" (Catalog.JStr "2022-02-02")
            [("catalog_file_description"%string, Catalog.JStr "description")])).
Proof.
  apply compare_catalogs_ignores_description_and_modification. by right.
Defined.

Lemma compare_catalogs_of_a_catalog_with_itself_witness :
  Catalog.compare_catalogs example_catalog example_catalog = Catalog.Return true.
Proof.
  assert (exists b, Catalog.compare_catalogs example_catalog example_catalog
                    = Catalog.Return b) as [b Hb] by (eexists; vm_compute; reflexivity).
  rewrite Hb. f_equal.
  exact (compare_catalogs_of_a_catalog_with_itself example_catalog b example_unique_keys Hb).
Defined.

Lemma compare_catalogs_is_symmetric_witness :
  Catalog.compare_catalogs
    (Catalog.JDict true [("catalog_file_description"%string, Catalog.JStr "description");
                         ("last_file_modification"%string, Catalog.JStr "2020-01-01")])
    example_catalog
  = Catalog.Return false.
Proof.
  apply compare_catalogs_is_symmetric.
  - exact example_unique_keys.
  - vm_compute. repeat split; apply NoDup_ListNoDup; repeat constructor; simpl;
      intuition discriminate.
  - vm_compute. reflexivity.
Defined.

Lemma map_writes_two_lines_for_every_record_witness :
  exists (n : Z) (lines : list string),
    Catalog.map example_str example_records
    = (("map_hash_max_size " +:+ example_str (Catalog.JInt n) +:+ ";" +:+ Catalog.newline)%string
         :: lines, None) /\
    (256 * (Z.of_nat (length example_records) + 1) <= n
     < 512 * (Z.of_nat (length example_records) + 1))%Z /\
    length lines = (2 * length example_records + 3)%nat /\
    last lines = Some ("}" +:+ Catalog.newline)%string.
Proof.
  apply map_writes_two_lines_for_every_record.
  intros k e He. unfold example_records in He. simpl in He.
  destruct (String.eqb k "SXS:BBH:0002"); [|destruct (String.eqb k "SXS:BBH:0001"); [|done]];
    injection He as <-; eexists _, _; (split; [reflexivity|]); (split; [reflexivity|]);
    intros f Hf; apply list_elem_of_singleton in Hf as ->; eexists; reflexivity.
Defined.

Lemma map_completes_only_on_records_witness :
  exists id files : Catalog.json,
    Catalog.getitem (Catalog.JDict false
                       [("id"%string, Catalog.JInt 100);
                        ("files"%string,
                         Catalog.JList [example_file "SXS:BBH:0001/metadata.json"])]) "id"
    = Catalog.Return id /\
    Catalog.getitem (Catalog.JDict false
                       [("id"%string, Catalog.JInt 100);
                        ("files"%string,
                         Catalog.JList [example_file "SXS:BBH:0001/metadata.json"])]) "files"
    = Catalog.Return files.
Proof.
  apply (map_completes_only_on_records example_str example_records) with "SXS:BBH:0001"%string.
  - vm_compute. reflexivity.
  - reflexivity.
Defined.
